(** * ResumeGenerator: [js/app.js], embedded and verified

    The development follows the source file:

    - [JS]: the fragment of the ECMAScript runtime that [app.js] calls
      (strings, [trim], [split], [Number], binary64 arithmetic, [Date]);
    - [Persist]: [mapKeyToProperty], [safeLoadResume] and the JSON snapshot
      written by [saveResumeToLocalStorage] / [downloadJson], on documents
      whose fields have the types of the type definitions;
    - [Layout]: [generatePdf] with its local helpers [getLineHeightMM] and
      [formatDate], as a state-and-exception computation over the jsPDF
      document it drives;
    - [Forms]: [mapPropertyToKey]; [Dates]: [handleExperienceDateChange];
      [Dom]: [clearFormValues];
    - [Bread]: [updateSelectList], [deleteItem] and [saveItem] of
      [makeFormBread], over the set they share with the global [resume];
    - [Loader]: [safeLoadResume] and the handler of [loadJson] on any value
      that [JSON.parse] may return;
    - [Preview]: [updatePreview] and its timer.

    Strings are UTF-8 byte strings; a JavaScript string is read through its
    UTF-8 encoding (every operation used below acts on whole characters). *)

From Stdlib Require Import ZArith QArith List String Ascii Bool Lia.
From Stdlib Require Import Permutation Sorted DecimalString.
Import ListNotations.

Local Open Scope string_scope.
Local Open Scope Z_scope.

Module JS.

(** ** Strings *)

Definition byte (n : nat) : ascii := ascii_of_nat n.

Definition code (c : ascii) : Z := Z.of_nat (nat_of_ascii c).

(** [WhiteSpace] and [LineTerminator] of ECMA-262 (what [trim], [\s] and
    [StringToNumber] strip), recognised at the head of a string.  The result is
    the rest of the string after one such character. *)
Definition ws_prefix (s : string) : option string :=
  match s with
  | String c r =>
    let n := code c in
    if (n =? 9) || (n =? 10) || (n =? 11) || (n =? 12) || (n =? 13) || (n =? 32)
    then Some r
    else match r with
    | String c1 r1 =>
      let n1 := code c1 in
      if (n =? 194) && (n1 =? 160) then Some r1                 (* U+00A0 *)
      else match r1 with
      | String c2 r2 =>
        let n2 := code c2 in
        if (n =? 225) && (n1 =? 154) && (n2 =? 128) then Some r2      (* U+1680 *)
        else if (n =? 226) && (n1 =? 128) &&
                ((128 <=? n2) && (n2 <=? 138)                          (* U+2000..200A *)
                 || (n2 =? 168) || (n2 =? 169) || (n2 =? 175))        (* U+2028/9, U+202F *)
        then Some r2
        else if (n =? 226) && (n1 =? 129) && (n2 =? 159) then Some r2 (* U+205F *)
        else if (n =? 227) && (n1 =? 128) && (n2 =? 128) then Some r2 (* U+3000 *)
        else if (n =? 239) && (n1 =? 187) && (n2 =? 191) then Some r2 (* U+FEFF *)
        else None
      | EmptyString => None
      end
    | EmptyString => None
    end
  | EmptyString => None
  end.

Fixpoint trimStart_fuel (fuel : nat) (s : string) : string :=
  match fuel with
  | O => s
  | S f => match ws_prefix s with
           | Some r => trimStart_fuel f r
           | None => s
           end
  end.

(** [String.prototype.trimStart]; the fuel is the length of the string, and
    every step consumes at least one byte. *)
Definition trimStart (s : string) : string := trimStart_fuel (String.length s) s.

Fixpoint all_ws_fuel (fuel : nat) (s : string) : bool :=
  match fuel with
  | O => match s with EmptyString => true | _ => false end
  | S f => match s with
           | EmptyString => true
           | _ => match ws_prefix s with
                  | Some r => all_ws_fuel f r
                  | None => false
                  end
           end
  end.

Definition all_ws (s : string) : bool := all_ws_fuel (String.length s) s.

(** [String.prototype.trimEnd]: the longest suffix made of white space goes. *)
Fixpoint trimEnd (s : string) : string :=
  match s with
  | EmptyString => EmptyString
  | String c r => if all_ws s then EmptyString else String c (trimEnd r)
  end.

(** [String.prototype.trim]. *)
Definition trim (s : string) : string := trimEnd (trimStart s).

(** [s.replaceAll(/\s+/g, '')]: every white-space character is dropped. *)
Fixpoint strip_ws_fuel (fuel : nat) (s : string) : string :=
  match fuel with
  | O => s
  | S f => match ws_prefix s with
           | Some r => strip_ws_fuel f r
           | None => match s with
                     | EmptyString => EmptyString
                     | String c r => String c (strip_ws_fuel f r)
                     end
           end
  end.

Definition strip_ws (s : string) : string := strip_ws_fuel (String.length s) s.

(** [s.split(sep)] for a separator of one ASCII character.  The result always
    has at least one element: [''.split(sep)] is [['']]. *)
Fixpoint split (sep : ascii) (s : string) : list string :=
  match s with
  | EmptyString => [EmptyString]
  | String c r =>
    if Ascii.eqb c sep then EmptyString :: split sep r
    else match split sep r with
         | hd :: tl => String c hd :: tl
         | [] => [String c EmptyString]
         end
  end.

(** [parts.join(sep)]. *)
Fixpoint join (sep : string) (l : list string) : string :=
  match l with
  | [] => EmptyString
  | [x] => x
  | x :: tl => x ++ sep ++ join sep tl
  end.

(** Truthiness of a string value that may be [undefined]: [undefined] and the
    empty string are falsy. *)
Definition truthy (v : option string) : bool :=
  match v with
  | Some s => negb (String.eqb s EmptyString)
  | None => false
  end.

(** [v || d] on such a value. *)
Definition or_default (v : option string) (d : string) : string :=
  match v with
  | Some s => if String.eqb s EmptyString then d else s
  | None => d
  end.

(** A template literal prints [undefined] by name. *)
Definition interpolate (v : option string) : string :=
  match v with
  | Some s => s
  | None => "undefined"
  end.

(** ** Numbers

    A Number is an IEEE-754 binary64 value.  A finite one is kept as the
    rational it denotes, in lowest terms; the two zeros are not told apart
    (no operation of [app.js] observes the sign of a zero). *)
Inductive number : Type :=
| NaN
| Inf (negative : bool)
| Fin (q : Q).

(** [floor (log2 (n / d))]. *)
Definition floor_log2_ratio (n d : positive) : Z :=
  let e0 := Z.log2 (Zpos n) - Z.log2 (Zpos d) in
  let lhs := Zpos n * 2 ^ Z.max 0 (- e0) in
  let rhs := Zpos d * 2 ^ Z.max 0 e0 in
  if lhs <? rhs then e0 - 1 else e0.

(** Round-to-nearest, ties-to-even, of the positive rational [n / d]: 53 bits
    of significand, exponents down to the subnormal quantum [2^-1074],
    overflow to infinity. *)
Definition round_pos (n d : positive) : number :=
  let e := floor_log2_ratio n d in
  let qe := Z.max (e - 52) (-1074) in
  let num := Zpos n * 2 ^ Z.max 0 (- qe) in
  let den := Zpos d * 2 ^ Z.max 0 qe in
  let m := num / den in
  let r := num mod den in
  let m' := if (den <? 2 * r) || ((den =? 2 * r) && Z.odd m) then m + 1 else m in
  if (971 <? qe) || ((qe =? 971) && (2 ^ 53 <=? m')) then Inf false
  else if 0 <=? qe then Fin (m' * 2 ^ qe # 1)
  else Fin (Qred (m' # Z.to_pos (2 ^ (- qe)))).

Definition neg (x : number) : number :=
  match x with
  | NaN => NaN
  | Inf b => Inf (negb b)
  | Fin q => Fin (Qopp q)
  end.

Definition round (q : Q) : number :=
  match Qnum q with
  | Z0 => Fin 0
  | Zpos n => round_pos n (Qden q)
  | Zneg n => neg (round_pos n (Qden q))
  end.

Definition is_zero (q : Q) : bool := Qnum q =? 0.
Definition is_neg (q : Q) : bool := Qnum q <? 0.

Definition add (x y : number) : number :=
  match x, y with
  | NaN, _ | _, NaN => NaN
  | Inf a, Inf b => if Bool.eqb a b then Inf a else NaN
  | Inf a, Fin _ => Inf a
  | Fin _, Inf b => Inf b
  | Fin a, Fin b => round (Qplus a b)
  end.

Definition sub (x y : number) : number := add x (neg y).

Definition mul (x y : number) : number :=
  match x, y with
  | NaN, _ | _, NaN => NaN
  | Inf a, Inf b => Inf (xorb a b)
  | Inf a, Fin q | Fin q, Inf a => if is_zero q then NaN else Inf (xorb a (is_neg q))
  | Fin a, Fin b => round (Qmult a b)
  end.

Definition div (x y : number) : number :=
  match x, y with
  | NaN, _ | _, NaN => NaN
  | Inf _, Inf _ => NaN
  | Inf a, Fin q => Inf (xorb a (is_neg q))
  | Fin _, Inf _ => Fin 0
  | Fin a, Fin b =>
    if is_zero b then (if is_zero a then NaN else Inf (is_neg a))
    else round (Qdiv a b)
  end.

(** [x < y]; a comparison with [NaN] is false. *)
Definition ltb (x y : number) : bool :=
  match x, y with
  | NaN, _ | _, NaN => false
  | Inf a, Inf b => a && negb b
  | Inf a, Fin _ => a
  | Fin _, Inf b => negb b
  | Fin a, Fin b => Z.ltb (Qnum a * Zpos (Qden b)) (Qnum b * Zpos (Qden a))
  end.

(** [x > y]. *)
Definition gtb (x y : number) : bool := ltb y x.

(** Truthiness of a Number: [NaN] and zero are falsy. *)
Definition truthy_number (x : number) : bool :=
  match x with
  | NaN => false
  | Inf _ => true
  | Fin q => negb (is_zero q)
  end.

(** An integer and a decimal literal of the source text. *)
Definition int (z : Z) : number := round (z # 1).
Definition lit (q : Q) : number := round q.

(** ** [Number(string)]: the [StringToNumber] grammar *)

Definition is_digit (c : ascii) : bool := (48 <=? code c) && (code c <=? 57).

Definition hex_value (c : ascii) : option Z :=
  let n := code c in
  if (48 <=? n) && (n <=? 57) then Some (n - 48)
  else if (97 <=? n) && (n <=? 102) then Some (n - 87)
  else if (65 <=? n) && (n <=? 70) then Some (n - 55)
  else None.

(** The longest prefix of decimal digits, and the rest. *)
Fixpoint span_digits (s : string) : string * string :=
  match s with
  | String c r =>
    if is_digit c then let (d, t) := span_digits r in (String c d, t)
    else (EmptyString, s)
  | EmptyString => (EmptyString, EmptyString)
  end.

(** The value of a string all of whose characters are digits of [base];
    [None] if one is not, or if there is none. *)
Fixpoint digits_value (base : Z) (acc : Z) (s : string) : option Z :=
  match s with
  | EmptyString => Some acc
  | String c r =>
    match hex_value c with
    | Some v => if v <? base then digits_value base (acc * base + v) r else None
    | None => None
    end
  end.

Definition nonempty_digits_value (base : Z) (s : string) : option Z :=
  match s with
  | EmptyString => None
  | _ => digits_value base 0 s
  end.

(** [ExponentPart_opt] at the end of a literal: the exponent, if the rest of
    the literal is one (or empty). *)
Definition exponent_part (s : string) : option Z :=
  match s with
  | EmptyString => Some 0
  | String c r =>
    if (code c =? 101) || (code c =? 69) then
      match r with
      | String sg r' =>
        if code sg =? 43 then nonempty_digits_value 10 r'
        else if code sg =? 45 then option_map Z.opp (nonempty_digits_value 10 r')
        else nonempty_digits_value 10 r
      | EmptyString => None
      end
    else None
  end.

(** [m * 10^e] as a rational. *)
Definition scale10 (m e : Z) : Q :=
  if 0 <=? e then (m * 10 ^ e # 1) else (m # Z.to_pos (10 ^ (- e))).

(** [StrUnsignedDecimalLiteral]. *)
Definition unsigned_decimal (s : string) : number :=
  if String.eqb s "Infinity" then Inf false else
  let (ip, r1) := span_digits s in
  let '(fp, r2, ok) :=
    match r1 with
    | String c t =>
      if code c =? 46 then
        let (fp, r2) := span_digits t in
        (fp, r2, negb (String.eqb ip EmptyString) || negb (String.eqb fp EmptyString))
      else (EmptyString, r1, negb (String.eqb ip EmptyString))
    | EmptyString => (EmptyString, r1, negb (String.eqb ip EmptyString))
    end in
  if ok then
    match digits_value 10 0 (ip ++ fp), exponent_part r2 with
    | Some m, Some e => round (scale10 m (e - Z.of_nat (String.length fp)))
    | _, _ => NaN
    end
  else NaN.

(** [NonDecimalIntegerLiteral]: [0x], [0o] and [0b] (either case), unsigned. *)
Definition non_decimal (s : string) : option number :=
  match s with
  | String z (String k r) =>
    if code z =? 48 then
      let base :=
        if (code k =? 120) || (code k =? 88) then Some 16
        else if (code k =? 111) || (code k =? 79) then Some 8
        else if (code k =? 98) || (code k =? 66) then Some 2
        else None in
      match base with
      | Some b => Some match nonempty_digits_value b r with
                       | Some v => round (v # 1)
                       | None => NaN
                       end
      | None => None
      end
    else None
  | _ => None
  end.

(** [Number(s)] for a string [s]. *)
Definition Number (s : string) : number :=
  let t := trim s in
  match t with
  | EmptyString => Fin 0
  | String c r =>
    match non_decimal t with
    | Some v => v
    | None =>
      if code c =? 43 then unsigned_decimal r
      else if code c =? 45 then neg (unsigned_decimal r)
      else unsigned_decimal t
    end
  end.

(** [ToIntegerOrInfinity] of a finite Number: truncation towards zero. *)
Definition trunc (q : Q) : Z := Z.quot (Qnum q) (Zpos (Qden q)).

(** ** Dates (ECMA-262, "Date objects")

    A time value is a number of milliseconds since the epoch, or [None] for
    [NaN] (an invalid Date). *)
Definition msPerDay : Z := 86400000.

Definition Day (t : Z) : Z := t / msPerDay.
Definition TimeWithinDay (t : Z) : Z := t mod msPerDay.

Definition DayFromYear (y : Z) : Z :=
  365 * (y - 1970) + (y - 1969) / 4 - (y - 1901) / 100 + (y - 1601) / 400.

Definition InLeapYear (y : Z) : bool :=
  ((y mod 4 =? 0) && negb (y mod 100 =? 0)) || (y mod 400 =? 0).

(** The year a day number falls in: the largest [y] with
    [DayFromYear y <= d].  The estimate from the mean length of a year is off
    by at most one. *)
Definition YearFromDay (d : Z) : Z :=
  let y := 1970 + (d * 400) / 146097 in
  if d <? DayFromYear y then y - 1
  else if DayFromYear (y + 1) <=? d then y + 1
  else y.

(** The day number within its year at which month [m] (0..11) starts. *)
Definition month_start (leap : bool) (m : Z) : Z :=
  let l := if leap then 1 else 0 in
  match m with
  | 0 => 0
  | 1 => 31
  | 2 => 59 + l
  | 3 => 90 + l
  | 4 => 120 + l
  | 5 => 151 + l
  | 6 => 181 + l
  | 7 => 212 + l
  | 8 => 243 + l
  | 9 => 273 + l
  | 10 => 304 + l
  | 11 => 334 + l
  | _ => 365 + l
  end.

Definition MonthFromDay (d : Z) : Z :=
  let y := YearFromDay d in
  let k := d - DayFromYear y in
  let leap := InLeapYear y in
  if k <? month_start leap 1 then 0
  else if k <? month_start leap 2 then 1
  else if k <? month_start leap 3 then 2
  else if k <? month_start leap 4 then 3
  else if k <? month_start leap 5 then 4
  else if k <? month_start leap 6 then 5
  else if k <? month_start leap 7 then 6
  else if k <? month_start leap 8 then 7
  else if k <? month_start leap 9 then 8
  else if k <? month_start leap 10 then 9
  else if k <? month_start leap 11 then 10
  else 11.

Definition DateFromDay (d : Z) : Z :=
  let y := YearFromDay d in
  d - DayFromYear y - month_start (InLeapYear y) (MonthFromDay d) + 1.

Definition YearFromTime (t : Z) : Z := YearFromDay (Day t).
Definition MonthFromTime (t : Z) : Z := MonthFromDay (Day t).
Definition DateFromTime (t : Z) : Z := DateFromDay (Day t).

(** [MakeDay (year, month, date)] on integers: months outside 0..11 carry
    into the year. *)
Definition MakeDay (year month date : Z) : Z :=
  let ym := year + month / 12 in
  let mn := month mod 12 in
  DayFromYear ym + month_start (InLeapYear ym) mn + date - 1.

Definition MakeDate (day time : Z) : Z := day * msPerDay + time.

Definition TimeClip (t : Z) : option Z :=
  if 8640000000000000 <? Z.abs t then None else Some t.

Definition DaysInMonth (y m : Z) : Z :=
  month_start (InLeapYear y) (m + 1) - month_start (InLeapYear y) m.

(** [a < b] on two Dates: the time values are compared, and a comparison with
    an invalid Date is false. *)
Definition date_ltb (a b : option Z) : bool :=
  match a, b with
  | Some x, Some y => x <? y
  | _, _ => false
  end.

(** The abbreviated month names of the [en-US] locale. *)
Definition month_names : list string :=
  [ "Jan"; "Feb"; "Mar"; "Apr"; "May"; "Jun"; "Jul"; "Aug"; "Sep"; "Oct"; "Nov"; "Dec" ].

Definition month_abbr (m : Z) : string := nth (Z.to_nat m) month_names "Dec".

(** Decimal digits of a natural number, without padding. *)
Definition decimal (z : Z) : string := NilZero.string_of_uint (N.to_uint (Z.to_N z)).

(** The [year: 'numeric'] field: the year as it is from year 1 on; before that
    the year of the era ([formatDate] never builds such a Date). *)
Definition year_numeric (y : Z) : string :=
  if y <=? 0 then decimal (1 - y) else decimal y.

(** The date-only forms of the Date Time String Format, [YYYY], [YYYY-MM] and
    [YYYY-MM-DD], with a four-digit year or an expanded one ([+YYYYYY],
    [-YYYYYY]).  A date-only form denotes midnight UTC.  [None]: the string is
    no date of the format, because it has none of these forms or because its
    month or day is out of bounds; what [Date.parse] makes of it is up to the
    engine.  [Some None]: a date of the format beyond the range of time
    values, an invalid Date. *)
Definition fixed_digits (n : nat) (s : string) : option (Z * string) :=
  let d := substring 0 n s in
  let r := substring n (String.length s - n) s in
  if (String.length d =? n)%nat && String.eqb (fst (span_digits d)) d
  then option_map (fun v => (v, r)) (digits_value 10 0 d)
  else None.

Definition dash_field (s : string) : option (Z * string) :=
  match s with
  | String c r => if code c =? 45 then fixed_digits 2 r else None
  | EmptyString => None
  end.

Definition iso_year (s : string) : option (Z * string) :=
  match s with
  | String c r =>
    if code c =? 43 then fixed_digits 6 r
    else if code c =? 45 then
      match fixed_digits 6 r with
      | Some (0, _) => None
      | Some (y, t) => Some (- y, t)
      | None => None
      end
    else fixed_digits 4 s
  | EmptyString => None
  end.

Definition iso_fields (s : string) : option (Z * Z * Z) :=
  match iso_year s with
  | Some (y, EmptyString) => Some (y, 1, 1)
  | Some (y, r) =>
    match dash_field r with
    | Some (m, EmptyString) => Some (y, m, 1)
    | Some (m, r') =>
      match dash_field r' with
      | Some (d, EmptyString) => Some (y, m, d)
      | _ => None
      end
    | None => None
    end
  | None => None
  end.

Definition iso_date_only (s : string) : option (option Z) :=
  match iso_fields s with
  | Some (y, m, d) =>
    if (1 <=? m) && (m <=? 12) && (1 <=? d) && (d <=? DaysInMonth y (m - 1))
    then Some (TimeClip (MakeDate (MakeDay y (m - 1) d) 0))
    else None
  | None => None
  end.

Section Host.

(** What the host decides: the offset of local time ([LocalTZA (t, isUTC)] of
    ECMA-262) and what [Date.parse] makes of a string that is no date of the
    Date Time String Format (an engine may read [2020-13-01] with a parser of
    its own, or refuse it). *)
Variable LocalTZA : Z -> bool -> Z.
Variable legacyParse : string -> option Z.

Definition LocalTime (t : Z) : Z := t + LocalTZA t true.
Definition UTC (t : Z) : Z := t - LocalTZA t false.

(** [new Date(year, monthIndex)]: local midnight on the first of the month.
    A year from 0 to 99 means 1900 + year. *)
Definition Date_ym (year month : number) : option Z :=
  match year, month with
  | Fin y, Fin m =>
    let yi := trunc y in
    let yr := if (0 <=? yi) && (yi <=? 99) then 1900 + yi else yi in
    TimeClip (UTC (MakeDate (MakeDay yr (trunc m) 1) 0))
  | _, _ => None
  end.

(** [new Date(s)] for a string.  Only the date-only forms are spelled out: a
    form with a time never ends in [-01], the suffix [generatePdf] appends. *)
Definition Date_parse (s : string) : option Z :=
  match iso_date_only s with
  | Some r => r
  | None => legacyParse s
  end.

(** [d.getFullYear()] of a valid Date. *)
Definition getFullYear (t : Z) : Z := YearFromTime (LocalTime t).

(** [d.setFullYear(y)] on a valid Date: month, day and time of day are kept. *)
Definition setFullYear (t : Z) (y : Z) : option Z :=
  let lt := LocalTime t in
  TimeClip (UTC (MakeDate (MakeDay y (MonthFromTime lt) (DateFromTime lt)) (TimeWithinDay lt))).

(** [d.toLocaleDateString('en-US', {month: 'short', year: 'numeric'})]. *)
Definition toLocaleDateString_short (d : option Z) : string :=
  match d with
  | None => "Invalid Date"
  | Some t =>
    let lt := LocalTime t in
    month_abbr (MonthFromTime lt) ++ " " ++ year_numeric (YearFromTime lt)
  end.

End Host.

Definition LF : ascii := byte 10.
Definition nl : string := String LF EmptyString.

(** ** Objects and Sets *)

(** A plain object whose values are strings: its own properties in the order
    [Object.entries] and [JSON.stringify] list them. *)
Definition obj : Type := list (string * string).

(** [o.k] / [o[k]] for an own property. *)
Fixpoint get {V} (k : string) (o : list (string * V)) : option V :=
  match o with
  | [] => None
  | (k', v) :: tl => if String.eqb k' k then Some v else get k tl
  end.

(** The names every object inherits from [Object.prototype]: a lookup of one
    of them on an object literal finds the inherited member. *)
Definition inherited_names : list string :=
  [ "constructor"; "__proto__"; "hasOwnProperty"; "isPrototypeOf";
    "propertyIsEnumerable"; "toLocaleString"; "toString"; "valueOf";
    "__defineGetter__"; "__defineSetter__"; "__lookupGetter__"; "__lookupSetter__" ].

Definition inherited (k : string) : bool := existsb (String.eqb k) inherited_names.

(** What [o[k]] finds on an object literal [o]. *)
Inductive member (V : Type) : Type :=
| Own (v : V)
| Inherited
| Absent.
Arguments Own {V} v.
Arguments Inherited {V}.
Arguments Absent {V}.

Definition lookup {V} (k : string) (o : list (string * V)) : member V :=
  match get k o with
  | Some v => Own v
  | None => if inherited k then Inherited else Absent
  end.

(** An array index: the canonical decimal form of an integer below 2^32 - 1.
    Such keys are listed first, in ascending order. *)
Definition array_index (k : string) : option Z :=
  match nonempty_digits_value 10 k with
  | Some v => if String.eqb (decimal v) k && (v <? 2 ^ 32 - 1) then Some v else None
  | None => None
  end.

Fixpoint insert_index (i : Z) (k v : string) (o : obj) : obj :=
  match o with
  | [] => [(k, v)]
  | (k', v') :: tl =>
    match array_index k' with
    | Some j => if j <? i then (k', v') :: insert_index i k v tl else (k, v) :: o
    | None => (k, v) :: o
    end
  end.

Fixpoint replace_value (k v : string) (o : obj) : obj :=
  match o with
  | [] => []
  | (k', v') :: tl => if String.eqb k' k then (k', v) :: tl else (k', v') :: replace_value k v tl
  end.

(** [o[k] = v] for a string [v].  An existing property keeps its place; a new
    one goes last, or among the array indices if it is one; [__proto__] is the
    inherited setter, which ignores a string. *)
Definition set (k v : string) (o : obj) : obj :=
  if String.eqb k "__proto__" then o
  else match get k o with
       | Some _ => replace_value k v o
       | None => match array_index k with
                 | Some i => insert_index i k v o
                 | None => (o ++ [(k, v)])%list
                 end
       end.

(** Objects are compared by reference: each one lives at an address, and a
    [Set] keeps at most one element per address, in insertion order. *)
Definition addr : Type := nat.

Definition JSet (A : Type) : Type := list (addr * A).

Definition set_add {A} (x : addr * A) (s : JSet A) : JSet A :=
  if existsb (Nat.eqb (fst x)) (map fst s) then s else (s ++ [x])%list.

(** [new Set(iterable)]. *)
Definition new_Set {A} (l : list (addr * A)) : JSet A :=
  fold_left (fun s x => set_add x s) l [].

(** [Array.from(set)]: the elements, in insertion order. *)
Definition Array_from {A} (s : JSet A) : list A := map snd s.

(** [array.map(f)] where [f] builds a new object per element: the results
    live at fresh, consecutive addresses. *)
Fixpoint map_alloc {A B} (f : A -> B) (next : addr) (l : list A) : list (addr * B) * addr :=
  match l with
  | [] => ([], next)
  | x :: tl => let (r, n) := map_alloc f (S next) tl in ((next, f x) :: r, n)
  end.

End JS.

(** * Persistence: [mapKeyToProperty], [safeLoadResume], the saved snapshot *)

Module Persist.
Import JS.

Definition APP_VERSION : string := "1.0.0".

(** [Tag] of the type definitions; [safeLoadResume] passes tags through. *)
Record Tag : Type := { tag_string : string; isRegex : bool }.

(** The global [resume].  The scalar fields are strings in every state the
    file builds; [generatePdf] still guards against [undefined], hence the
    options. *)
Record Resume : Type := {
  version : option string;
  name : option string;
  email : option string;
  phone : option string;
  additionalText : option string;
  contacts : JSet obj;
  education : JSet obj;
  experience : JSet obj;
  tags : JSet Tag
}.

(** [let resume = { version: APP_VERSION, name: '', ... }]. *)
Definition initial_resume : Resume :=
  {| version := Some APP_VERSION; name := Some ""; email := Some ""; phone := Some "";
     additionalText := Some ""; contacts := []; education := []; experience := [];
     tags := [] |}.

(** A résumé document as JSON text holds it; [None] is an absent key. *)
Record Json : Type := {
  j_version : option string;
  j_name : option string;
  j_email : option string;
  j_phone : option string;
  j_additionalText : option string;
  j_contacts : option (list obj);
  j_education : option (list obj);
  j_experience : option (list obj);
  j_tags : option (list Tag)
}.

(** The value [JSON.parse] returns for such a document: the tag objects, which
    [safeLoadResume] stores as they are, each at its own address. *)
Record Parsed : Type := {
  p_doc : Json;
  p_tags : option (list (addr * Tag))
}.

Definition JSON_parse (next : addr) (j : Json) : Parsed * addr :=
  match j_tags j with
  | Some l => let (r, n) := map_alloc (fun t => t) next l in
              ({| p_doc := j; p_tags := Some r |}, n)
  | None => ({| p_doc := j; p_tags := None |}, next)
  end.

Section Keys.

(** What the host decides: the text a built-in member of [Object.prototype]
    turns into when it is used as a property key, and the upper case of a
    first character outside ASCII. *)
Variable builtin_text : string -> string.
Variable capitalize_unicode : string -> string.

(** [part.charAt(0).toUpperCase() + part.slice(1)]. *)
Definition capitalize (part : string) : string :=
  match part with
  | EmptyString => EmptyString
  | String c r =>
    let n := code c in
    if (97 <=? n) && (n <=? 122) then String (byte (Z.to_nat (n - 32))) r
    else if n <? 128 then part
    else capitalize_unicode part
  end.

Definition overrides : obj :=
  [ ("contact-form-name-input", "name"); ("contact-form-url-input", "url") ].

Definition form_prefix (p : string) : bool :=
  String.eqb p "experience" || String.eqb p "education" || String.eqb p "contact".

(** [mapKeyToProperty(key)], as the property key its result names. *)
Definition mapKeyToProperty (key : string) : string :=
  let override :=
    match lookup key overrides with
    | Own v => if String.eqb v EmptyString then None else Some v
    | Inherited => Some (builtin_text key)
    | Absent => None
    end in
  match override with
  | Some p => p
  | None =>
    let parts := split "-" key in
    let parts :=
      match parts with
      | p0 :: _ :: _ => if form_prefix p0 then List.tl parts else parts
      | _ => parts
      end in
    match parts with
    | [] => EmptyString
    | p0 :: rest => join EmptyString (p0 :: map capitalize rest)
    end
  end.

(** [migrateItem(item)]: the entries of [item], re-keyed, written one by one
    into a new object. *)
Definition migrateItem (item : obj) : obj :=
  fold_left (fun migrated kv => set (mapKeyToProperty (fst kv)) (snd kv) migrated) item [].

Definition or_empty {A} (o : option (list A)) : list A :=
  match o with
  | Some l => l
  | None => []
  end.

(** [safeLoadResume(resume, loadedResume)].  [next] is the next free address;
    the version of [resume] is not assigned. *)
Definition safeLoadResume (next : addr) (resume : Resume) (loadedResume : Parsed)
  : Resume * addr :=
  let d := p_doc loadedResume in
  let (cs, n1) := map_alloc migrateItem next (or_empty (j_contacts d)) in
  let (es, n2) := map_alloc migrateItem n1 (or_empty (j_education d)) in
  let (xs, n3) := map_alloc migrateItem n2 (or_empty (j_experience d)) in
  ({| version := version resume;
      name := Some (or_default (j_name d) "");
      email := Some (or_default (j_email d) "");
      phone := Some (or_default (j_phone d) "");
      additionalText := Some (or_default (j_additionalText d) "");
      contacts := new_Set cs;
      education := new_Set es;
      experience := new_Set xs;
      tags := new_Set (or_empty (p_tags loadedResume)) |}, n3).

(** [resumeToSave] of [saveResumeToLocalStorage] and [downloadJson], as
    [JSON.stringify] writes it (a key whose value is [undefined] is left
    out). *)
Definition resumeToSave (resume : Resume) : Json :=
  {| j_version := version resume;
     j_name := name resume;
     j_email := email resume;
     j_phone := phone resume;
     j_additionalText := additionalText resume;
     j_contacts := Some (Array_from (contacts resume));
     j_education := Some (Array_from (education resume));
     j_experience := Some (Array_from (experience resume));
     j_tags := Some (Array_from (tags resume)) |}.

(** [loadJson] up to the write to local storage: parse, load into the current
    state, save. *)
Definition load_then_save (next : addr) (resume : Resume) (j : Json) : Json :=
  let (parsed, n) := JSON_parse next j in
  resumeToSave (fst (safeLoadResume n resume parsed)).

End Keys.

End Persist.

(** * The layout engine: [generatePdf] *)

Module Layout.
Import JS Persist.

(** ** jsPDF, as [generatePdf] sees it

    The document is the sequence of calls made on it, together with the
    graphics state that [getTextWidth] and [splitTextToSize] read. *)
Inductive fontStyle : Type := normal | bold | italic.

Inductive align : Type := align_left | align_center | align_right.

Inductive call : Type :=
| setFont (style : fontStyle)                    (* doc.setFont("helvetica", style) *)
| setFontSize (size : number)
| setTextColor (r g b : Z)
| setDrawColor (r g b : Z)
| text (lines : list string) (x y : number) (a : align)
| link (x y w h : number) (url : string)
| line (x1 y1 x2 y2 : number)
| addPage.

Record state : Type := {
  font : fontStyle;
  fontSize : number;
  textColor : Z * Z * Z;
  drawColor : Z * Z * Z;
  calls : list call;          (* the calls made so far, the latest first *)
  y : number                  (* the vertical cursor, [let y] of generatePdf *)
}.

(** [new jsPDF()] and [let y = 20]. *)
Definition initial : state :=
  {| font := normal; fontSize := int 16; textColor := (0, 0, 0); drawColor := (0, 0, 0);
     calls := []; y := int 20 |}.

(** The calls in the order they were made. *)
Definition trace (s : state) : list call := rev (calls s).

(** ** Computations that may throw *)
Inductive exn : Type :=
| TypeError (message : string)
| Error (message : string).

Inductive result (A : Type) : Type :=
| Ok (a : A)
| Throw (e : exn).
Arguments Ok {A} a.
Arguments Throw {A} e.

Definition M (A : Type) : Type := state -> result (A * state).

Definition ret {A} (a : A) : M A := fun s => Ok (a, s).

Definition bind {A B} (c : M A) (k : A -> M B) : M B :=
  fun s => match c s with
           | Ok (a, s') => k a s'
           | Throw e => Throw e
           end.

Definition lift {A} (r : result A) : M A :=
  fun s => match r with
           | Ok a => Ok (a, s)
           | Throw e => Throw e
           end.

Notation "x <- c ;; k" := (bind c (fun x => k))
  (at level 61, c at next level, right associativity).
Notation "c ;; k" := (bind c (fun _ => k))
  (at level 61, right associativity).

(** [undefined.method(...)] throws; a string has the method. *)
Definition receiver (v : option string) (method : string) : result string :=
  match v with
  | Some s => Ok s
  | None => Throw (TypeError ("Cannot read properties of undefined (reading '" ++ method ++ "')"))
  end.

Definition when (b : bool) (c : M unit) : M unit := if b then c else ret tt.

(** [list.forEach((x, index) => body)]. *)
Fixpoint forEach_from {A} (index : nat) (l : list A) (body : A -> nat -> M unit) : M unit :=
  match l with
  | [] => ret tt
  | x :: tl => body x index ;; forEach_from (S index) tl body
  end.

Definition forEach {A} (l : list A) (body : A -> nat -> M unit) : M unit :=
  forEach_from 0 l body.

(** The same for a callback that updates a variable of the enclosing
    function: the variable is threaded through, and its last value returned. *)
Fixpoint forEach_acc_from {A V} (index : nat) (l : list A) (v : V)
    (body : A -> nat -> V -> M V) : M V :=
  match l with
  | [] => ret v
  | x :: tl => v' <- body x index v ;; forEach_acc_from (S index) tl v' body
  end.

Definition forEach_acc {A V} (l : list A) (v : V) (body : A -> nat -> V -> M V) : M V :=
  forEach_acc_from 0 l v body.

Definition emit (c : call) : M unit :=
  fun s => Ok (tt, {| font := font s; fontSize := fontSize s; textColor := textColor s;
                      drawColor := drawColor s; calls := c :: calls s; y := y s |}).

Definition doc_setFont (f : fontStyle) : M unit :=
  fun s => Ok (tt, {| font := f; fontSize := fontSize s; textColor := textColor s;
                      drawColor := drawColor s; calls := setFont f :: calls s; y := y s |}).

Definition doc_setFontSize (n : number) : M unit :=
  fun s => Ok (tt, {| font := font s; fontSize := n; textColor := textColor s;
                      drawColor := drawColor s; calls := setFontSize n :: calls s; y := y s |}).

Definition doc_setTextColor (r g b : Z) : M unit :=
  fun s => Ok (tt, {| font := font s; fontSize := fontSize s; textColor := (r, g, b);
                      drawColor := drawColor s; calls := setTextColor r g b :: calls s;
                      y := y s |}).

Definition doc_setDrawColor (r g b : Z) : M unit :=
  fun s => Ok (tt, {| font := font s; fontSize := fontSize s; textColor := textColor s;
                      drawColor := (r, g, b); calls := setDrawColor r g b :: calls s;
                      y := y s |}).

Definition doc_text (t : list string) (x y : number) (a : align) : M unit := emit (text t x y a).

(** [doc.text(v, x, y)] for a value that may be [undefined]: jsPDF refuses a
    text that is neither a string nor an array. *)
Definition doc_text_value (v : option string) (x y : number) (a : align) : M unit :=
  match v with
  | Some t => doc_text [t] x y a
  | None => fun _ => Throw (Error "Type of text must be string or Array")
  end.
Definition doc_link (x y w h : number) (url : string) : M unit := emit (link x y w h url).
Definition doc_line (x1 y1 x2 y2 : number) : M unit := emit (line x1 y1 x2 y2).

(** [doc.addPage()]: the new page keeps font, size and colours. *)
Definition doc_addPage : M unit := emit addPage.

Definition get_y : M number := fun s => Ok (y s, s).

Definition set_y (v : number) : M unit :=
  fun s => Ok (tt, {| font := font s; fontSize := fontSize s; textColor := textColor s;
                      drawColor := drawColor s; calls := calls s; y := v |}).

(** [y += d]. *)
Definition advance (d : number) : M unit := v <- get_y ;; set_y (add v d).

(** ** [Array.prototype.sort]

    The sort is stable; a comparator result of [NaN] counts as [+0].  With a
    consistent comparator this insertion sort computes the one order the
    language allows. *)
Definition keeps_before (cmp : obj -> obj -> number) (a b : obj) : bool :=
  match cmp a b with
  | NaN => true
  | v => negb (gtb v (int 0))
  end.

Fixpoint insert (cmp : obj -> obj -> number) (x : obj) (l : list obj) : list obj :=
  match l with
  | [] => [x]
  | h :: tl => if keeps_before cmp x h then x :: l else h :: insert cmp x tl
  end.

Definition sort (cmp : obj -> obj -> number) (l : list obj) : list obj :=
  fold_right (insert cmp) [] l.

(** ** [generatePdf] *)

Section GeneratePdf.

(** jsPDF's page and font metrics, the host's clock, time zone and collation:
    all outside [app.js]. *)
Variable pageWidth : number.                             (* doc.internal.pageSize.getWidth() *)
Variable getTextWidth : fontStyle -> number -> string -> number.
Variable splitTextToSize : fontStyle -> number -> string -> number -> list string.
Variable LocalTZA : Z -> bool -> Z.
Variable legacyParse : string -> option Z.
Variable localeCompare : string -> string -> number.     (* a.localeCompare(b) *)
Variable clock : Z * Z.                                  (* the two [new Date()] of generatePdf *)

Definition doc_getTextWidth (t : string) : M number :=
  fun s => Ok (getTextWidth (font s) (fontSize s) t, s).

Definition doc_splitTextToSize (t : string) (w : number) : M (list string) :=
  fun s => Ok (splitTextToSize (font s) (fontSize s) t w, s).

(** [doc.getTextWidth(v)] for a value that may be [undefined]. *)
Definition doc_getTextWidth_value (v : option string) : M number :=
  t <- lift (receiver v "length") ;; doc_getTextWidth t.

Definition margin : number := int 20.
Definition contentWidth : number := sub pageWidth (mul (int 2) margin).

Definition getLineHeightMM (fontSize spacing : number) : number :=
  mul (mul fontSize (lit (352778 # 1000000))) spacing.

(** [formatDate(dateStr)]. *)
Definition formatDate (dateStr : option string) : result string :=
  if negb (truthy dateStr) || match dateStr with Some s => String.eqb s "Present" | None => false end
  then Ok (or_default dateStr "Present")
  else
    match receiver dateStr "split" with
    | Throw e => Throw e
    | Ok s =>
      let parts := map Number (split "-" s) in
      let year := nth_error parts 0 in
      let month := nth_error parts 1 in
      match year, month with
      | Some yr, Some mo =>
        if negb (truthy_number yr) || negb (truthy_number mo) then Ok s
        else Ok (toLocaleDateString_short LocalTZA (Date_ym LocalTZA yr (sub mo (int 1))))
      | _, _ => Ok s
      end
    end.

Definition sectionFontSize : number := lit (105 # 10).
Definition sectionSpacing : number := int 1.
Definition sectionLineHeight : number := getLineHeightMM sectionFontSize sectionSpacing.

(** *** The contact line *)

(** [{text, link}]: the values as they are stored, [undefined] included. *)
Record contactPart : Type := { part_text : option string; part_link : option string }.

Definition separator : string := " | ".

Definition contactParts (resume : Resume) : result (list contactPart) :=
  match (if truthy (phone resume)
         then match receiver (phone resume) "replaceAll" with
              | Ok p => Ok [ {| part_text := phone resume;
                                part_link := Some ("tel:" ++ strip_ws p) |} ]
              | Throw e => Throw e
              end
         else Ok [])
  with
  | Throw e => Throw e
  | Ok l1 =>
    let l2 := if truthy (email resume)
              then [ {| part_text := email resume;
                        part_link := Some ("mailto:" ++ interpolate (email resume)) |} ]
              else [] in
    let l3 := flat_map (fun contact =>
                let name := get "name" contact in
                let url := get "url" contact in
                if truthy name then [ {| part_text := name; part_link := url |} ]
                else []) (Array_from (contacts resume)) in
    Ok (l1 ++ l2 ++ l3)%list
  end.

Definition contactLine (parts : list contactPart) : M unit :=
  let n := List.length parts in
  when (0 <? n)%nat (
    totalWidth <- forEach_acc parts (int 0) (fun part index totalWidth =>
      w <- doc_getTextWidth_value (part_text part) ;;
      let totalWidth := add totalWidth w in
      if (index <? n - 1)%nat
      then ws <- doc_getTextWidth separator ;; ret (add totalWidth ws)
      else ret totalWidth) ;;
    forEach_acc parts (div (sub pageWidth totalWidth) (int 2)) (fun part index currentX =>
      y0 <- get_y ;;
      doc_setTextColor 0 0 255 ;;
      partWidth <- doc_getTextWidth_value (part_text part) ;;
      doc_text_value (part_text part) currentX y0 align_left ;;
      when (truthy (part_link part))
           (doc_link currentX (sub y0 (int 4)) partWidth (int 5) (interpolate (part_link part))) ;;
      let currentX := add currentX partWidth in
      if (index <? n - 1)%nat
      then doc_setTextColor 0 0 0 ;;
           doc_text [separator] currentX y0 align_left ;;
           ws <- doc_getTextWidth separator ;;
           ret (add currentX ws)
      else ret currentX) ;;
    advance (getLineHeightMM (int 12) (lit (115 # 100)))).

(** *** Education *)
Definition educationCompare (a b : obj) : number :=
  localeCompare (or_default (get "date" b) "") (or_default (get "date" a) "").

Definition sortedEducation (resume : Resume) : list obj :=
  sort educationCompare (Array_from (education resume)).

(** [now] and [threeYearsAgo]: two readings of the clock, the second moved to
    the local year of the first minus three. *)
Definition threeYearsAgo : option Z :=
  setFullYear LocalTZA (snd clock) (getFullYear LocalTZA (fst clock) - 3).

Definition locationText (edu : obj) : string :=
  let city := get "city" edu in
  let st := get "state" edu in
  if truthy city && truthy st then ", " ++ interpolate city ++ ", " ++ interpolate st
  else if truthy city then ", " ++ interpolate city
  else if truthy st then ", " ++ interpolate st
  else "".

Definition educationLeftText (edu : obj) : string :=
  "• " ++ interpolate (get "degreeType" edu) ++ " in " ++ interpolate (get "category" edu)
       ++ " | " ++ interpolate (get "name" edu) ++ locationText edu.

Definition educationRightText (edu : obj) : result string :=
  let eduDateStr := get "date" edu in
  if truthy eduDateStr then
    let eduDate := Date_parse legacyParse (interpolate eduDateStr ++ "-01") in
    if date_ltb eduDate threeYearsAgo then Ok "Status - Graduated"
    else formatDate eduDateStr
  else Ok "".

Definition is_Certificate (edu : obj) : bool :=
  match get "degreeType" edu with
  | Some d => String.eqb d "Certificate"
  | None => false
  end.

(** The body of [sortedEducation.forEach]. *)
Definition educationEntry (edu : obj) : M unit :=
  y0 <- get_y ;;
  (if is_Certificate edu then
     doc_text ["• " ++ interpolate (get "name" edu)] (add margin (int 5)) y0 align_left
   else
     rightText <- lift (educationRightText edu) ;;
     doc_text [educationLeftText edu] (add margin (int 5)) y0 align_left ;;
     when (truthy (Some rightText))
          (doc_text [rightText] (sub pageWidth margin) y0 align_right)) ;;
  advance sectionLineHeight ;;
  y1 <- get_y ;;
  when (gtb y1 (int 280)) (doc_addPage ;; set_y (int 20)).

(** *** Experience *)
Definition categoryOrder : list (string * Z) :=
  [ ("Work Experience", 1); ("Contract", 2); ("Internship", 3);
    ("Project", 4); ("Projects", 4); ("Volunteer", 5) ].

(** The value of [categoryOrder[c] || 99]: a number, or the member of
    [Object.prototype] that the lookup found under the name [c]. *)
Inductive orderValue : Type :=
| Num (n : Z)
| Member (key : string).

Definition orderOf (e : obj) : orderValue :=
  let c := interpolate (get "category" e) in
  match lookup c categoryOrder with
  | Own n => if n =? 0 then Num 99 else Num n
  | Inherited => Member c
  | Absent => Num 99
  end.

(** [orderA !== orderB]: numbers by value, objects by identity. *)
Definition strict_ne (a b : orderValue) : bool :=
  match a, b with
  | Num x, Num y => negb (x =? y)
  | Member x, Member y => negb (String.eqb x y)
  | _, _ => true
  end.

(** [orderA - orderB]: an object converts to [NaN]. *)
Definition order_sub (a b : orderValue) : number :=
  match a, b with
  | Num x, Num y => sub (int x) (int y)
  | _, _ => NaN
  end.

Definition experienceCompare (a b : obj) : number :=
  let orderA := orderOf a in
  let orderB := orderOf b in
  if strict_ne orderA orderB then order_sub orderA orderB
  else localeCompare (or_default (get "startDate" b) "") (or_default (get "startDate" a) "").

Definition sortedExperience (resume : Resume) : list obj :=
  sort experienceCompare (Array_from (experience resume)).

Definition MAX_NUMBER_OF_BULLETS_TO_DISPLAY : nat := 8.

(** [if (v) bullets.push(v)]. *)
Definition push_if_truthy (v : option string) : list string :=
  match v with
  | Some t => if String.eqb t EmptyString then [] else [t]
  | None => []
  end.

(** The array [bullets] of an entry, before the slice. *)
Definition bullets (exp : obj) : result (list string) :=
  let summary := option_map trim (get "summary" exp) in        (* exp.summary?.trim() *)
  let bullets := push_if_truthy summary in
  if truthy (get "details" exp) then
    match receiver (get "details" exp) "split" with
    | Ok d =>
      let detailBullets :=
        filter (fun t => (0 <? String.length t)%nat) (map trim (split LF d)) in
      Ok (bullets ++ detailBullets)%list
    | Throw e => Throw e
    end
  else Ok bullets.

(** The page-overflow check of the experience loop. *)
Definition pageBreak : M unit :=
  y1 <- get_y ;;
  when (gtb y1 (int 280)) (doc_addPage ;; set_y (int 20) ;; doc_setFontSize sectionFontSize).

(** [rightText] of an entry: the date range at the right of its heading. *)
Definition experienceRightText (exp : obj) : result string :=
  let start := or_default (get "startDate" exp) "" in
  let end_ := or_default (get "endDate" exp) "Present" in
  match formatDate (Some start) with
  | Throw e => Throw e
  | Ok formattedStart =>
    match formatDate (Some end_) with
    | Throw e => Throw e
    | Ok formattedEnd =>
      Ok (if truthy (Some formattedStart)
          then formattedStart ++ " - " ++ formattedEnd
          else formattedEnd)
    end
  end.

(** The heading line of an entry: title, company and location, dates, and
    the advance of the cursor. *)
Definition experienceHeading (exp : obj) : M unit :=
  doc_setFont italic ;;
  let title := or_default (get "title" exp) "" in
  let company := or_default (get "company" exp) "" in
  let location := or_default (get "location" exp) "" in
  let url := or_default (get "url" exp) "" in
  y0 <- get_y ;;
  currentX <-
    (if truthy (Some title) then
       when (truthy (Some url)) (doc_setTextColor 0 0 255) ;;
       doc_text [title] margin y0 align_left ;;
       titleWidth <- doc_getTextWidth title ;;
       when (truthy (Some url)) (
         doc_link margin (sub y0 (int 4)) titleWidth (int 5) url ;;
         doc_setDrawColor 0 0 255 ;;
         doc_line margin (add y0 (lit (5 # 10))) (add margin titleWidth) (add y0 (lit (5 # 10))) ;;
         doc_setTextColor 0 0 0 ;;
         doc_setDrawColor 0 0 0) ;;
       ret (add margin titleWidth)
     else ret margin) ;;
  let remainingParts := (push_if_truthy (Some company) ++ push_if_truthy (Some location))%list in
  when (0 <? List.length remainingParts)%nat (
    let remainingText := (if truthy (Some title) then ", " else "") ++ join ", " remainingParts in
    doc_text [remainingText] currentX y0 align_left) ;;
  rightText <- lift (experienceRightText exp) ;;
  doc_text [rightText] (sub pageWidth margin) y0 align_right ;;
  advance sectionLineHeight ;;
  when (truthy (Some url)) (advance (int 1)).

(** The body of [bullets.slice(0, 8).forEach]. *)
Definition bulletEntry (bullet : string) : M unit :=
  splitBullet <- doc_splitTextToSize ("• " ++ bullet) (sub contentWidth (int 5)) ;;
  y0 <- get_y ;;
  doc_text splitBullet (add margin (int 5)) y0 align_left ;;
  advance (mul (mul (int (Z.of_nat (List.length splitBullet))) sectionLineHeight)
               (lit (12 # 10))) ;;
  pageBreak.

(** The body of [sortedExperience.forEach]. *)
Definition experienceEntry (exp : obj) : M unit :=
  experienceHeading exp ;;
  doc_setFont normal ;;
  bs <- lift (bullets exp) ;;
  forEach (firstn MAX_NUMBER_OF_BULLETS_TO_DISPLAY bs) (fun bullet _ => bulletEntry bullet) ;;
  advance (div sectionLineHeight (lit (15 # 10))) ;;
  pageBreak.

(** *** The whole document *)
Definition layout (resume : Resume) : M unit :=
  doc_setFont normal ;;
  (* 1. Name *)
  doc_setFontSize (int 14) ;;
  doc_setFont bold ;;
  y0 <- get_y ;;
  doc_text [or_default (name resume) ""] (div pageWidth (int 2)) y0 align_center ;;
  advance (getLineHeightMM (int 14) (lit (115 # 100))) ;;
  (* 2. Contact info *)
  doc_setFontSize (int 12) ;;
  doc_setFont normal ;;
  parts <- lift (contactParts resume) ;;
  contactLine parts ;;
  (* 3. Additional information *)
  let additional := option_map trim (additionalText resume) in
  when (truthy additional) (
    doc_setTextColor 0 0 0 ;;
    doc_setFontSize (int 12) ;;
    lines <- doc_splitTextToSize (interpolate additional) contentWidth ;;
    y1 <- get_y ;;
    doc_text lines (div pageWidth (int 2)) y1 align_center ;;
    advance (mul (int (Z.of_nat (List.length lines))) (getLineHeightMM (int 12) (lit (115 # 100))))) ;;
  advance (int 5) ;;
  doc_setFontSize sectionFontSize ;;
  doc_setTextColor 0 0 0 ;;
  (* Education and Certification *)
  doc_setFont bold ;;
  y2 <- get_y ;;
  doc_text ["Education and Certification"] margin y2 align_left ;;
  advance sectionLineHeight ;;
  doc_setFont normal ;;
  forEach (sortedEducation resume) (fun edu _ => educationEntry edu) ;;
  advance (int 5) ;;
  (* Work History/Projects/Internships *)
  doc_setFont bold ;;
  y3 <- get_y ;;
  doc_text ["Work History/Projects/Internships"] margin y3 align_left ;;
  advance sectionLineHeight ;;
  forEach (sortedExperience resume) (fun exp _ => experienceEntry exp).

(** [generatePdf()] on the global [resume]: the document as it stands when
    [doc.output] is reached, or the exception thrown on the way. *)
Definition generatePdf (resume : Resume) : result state :=
  match layout resume initial with
  | Ok (_, s) => Ok s
  | Throw e => Throw e
  end.

End GeneratePdf.

End Layout.

(** * Vocabulary of the statements *)

Module Spec.
Import JS Persist Layout.

(** The lines of the right-aligned texts among some calls. *)
Definition right_texts (cs : list call) : list string :=
  flat_map (fun c => match c with
                     | text ls _ _ align_right => ls
                     | _ => []
                     end) cs.

(** The [link] calls among some calls. *)
Definition links (cs : list call) : list call :=
  filter (fun c => match c with link _ _ _ _ _ => true | _ => false end) cs.

(** [YYYY-MM] for a year of four digits and a month number. *)
Definition pad2 (m : Z) : string := if m <? 10 then "0" ++ decimal m else decimal m.
Definition year_month (y m : Z) : string := decimal y ++ "-" ++ pad2 m.

(** No separator in a string. *)
Definition no_sep (sep : ascii) (t : string) : bool :=
  forallb (fun c => negb (Ascii.eqb c sep)) (list_ascii_of_string t).

(** The exported schema: the field names of the records, as the type
    definitions of [app.js] and the forms give them. *)
Definition contact_fields : list string := [ "name"; "url" ].
Definition education_fields : list string :=
  [ "date"; "degreeType"; "name"; "category"; "city"; "state" ].
Definition experience_fields : list string :=
  [ "title"; "company"; "location"; "url"; "startDate"; "endDate"; "summary"; "details";
    "category" ].

(** A record of the schema: an object (no key twice) whose keys are field
    names. *)
Definition record_of (fields : list string) (o : obj) : Prop :=
  NoDup (map fst o) /\ Forall (fun k => In k fields) (map fst o).

(** The same, as a test. *)
Fixpoint distinct (l : list string) : bool :=
  match l with
  | [] => true
  | x :: tl => negb (existsb (String.eqb x) tl) && distinct tl
  end.

Definition is_record_of (fields : list string) (o : obj) : bool :=
  distinct (map fst o) && forallb (fun k => existsb (String.eqb k) fields) (map fst o).

(** A document that conforms to the schema: every field is there, and the
    records use the field names. *)
Definition conforming (j : Json) : Prop :=
  j_version j <> None /\ j_name j <> None /\ j_email j <> None /\ j_phone j <> None /\
  j_additionalText j <> None /\
  (exists cs, j_contacts j = Some cs /\ Forall (record_of contact_fields) cs) /\
  (exists es, j_education j = Some es /\ Forall (record_of education_fields) es) /\
  (exists xs, j_experience j = Some xs /\ Forall (record_of experience_fields) xs) /\
  j_tags j <> None.

(** The document with another version. *)
Definition with_version (v : option string) (j : Json) : Json :=
  {| j_version := v; j_name := j_name j; j_email := j_email j; j_phone := j_phone j;
     j_additionalText := j_additionalText j; j_contacts := j_contacts j;
     j_education := j_education j; j_experience := j_experience j; j_tags := j_tags j |}.

(** A key that [mapKeyToProperty] and the assignment leave alone. *)
Definition plain_key (k : string) : bool :=
  no_sep "-" k && negb (inherited k)
  && match array_index k with Some _ => false | None => true end.

(** A document saved by an earlier version of the application. *)
Definition old_document : Json :=
  {| j_version := Some "0.9.0"; j_name := Some "Jane Doe"; j_email := Some "jane@x.com";
     j_phone := Some "555-1234"; j_additionalText := Some "";
     j_contacts := Some [ [ ("name", "GitHub"); ("url", "https://github.com/jane") ] ];
     j_education := Some [ [ ("degreeType", "B.S."); ("name", "State U"); ("category", "CS");
                             ("city", "Troy"); ("state", "NY"); ("date", "2019-05") ] ];
     j_experience := Some [ [ ("title", "Engineer"); ("company", "Acme");
                              ("startDate", "2020-01"); ("endDate", "");
                              ("category", "Work Experience"); ("details", "Did X") ] ];
     j_tags := Some [ {| tag_string := "rocq"; isRegex := false |};
                      {| tag_string := "rocq"; isRegex := false |} ] |}.

(** The [i]-th component of a date string, and what makes it unusable: there
    is none, it is empty, or it does not read as a number. *)
Definition component (i : nat) (t : string) : option string := nth_error (split "-" t) i.

Definition missing_or_non_numeric (c : option string) : Prop :=
  match c with
  | None => True
  | Some x => x = "" \/ Number x = NaN
  end.

(** What [formatDate] tests: the component is absent, or reads as zero or as
    [NaN]. *)
Definition falsy_component (c : option string) : Prop :=
  match c with
  | None => True
  | Some x => truthy_number (Number x) = false
  end.

(** A time zone as they exist: offsets of less than a day, and a local time
    that maps back to itself, or past a gap of less than a day when a
    transition skips it. *)
Definition sane_time_zone (LocalTZA : Z -> bool -> Z) : Prop :=
  (forall t b, - msPerDay < LocalTZA t b < msPerDay) /\
  (forall t, t <= LocalTime LocalTZA (UTC LocalTZA t) < t + msPerDay).

Definition number_eqb (a b : number) : bool :=
  match a, b with
  | NaN, NaN => true
  | Inf x, Inf y => Bool.eqb x y
  | Fin p, Fin q => (Qnum p =? Qnum q) && Pos.eqb (Qden p) (Qden q)
  | _, _ => false
  end.

(** [f] holds of every integer from [lo] to [hi]. *)
Definition range_check (lo hi : Z) (f : Z -> bool) : bool :=
  forallb f (map (fun i => lo + Z.of_nat i) (seq 0 (Z.to_nat (hi - lo + 1)))).

(** A year component reads as its number; a month component does, and
    [month - 1] is exact. *)
Definition year_reads (y : Z) : bool :=
  no_sep "-" (decimal y) && number_eqb (Number (decimal y)) (Fin (y # 1))
  && negb (String.eqb (year_month y 1) "Present").

Definition month_reads (m : Z) : bool :=
  no_sep "-" (pad2 m) && number_eqb (Number (pad2 m)) (Fin (m # 1))
  && number_eqb (sub (Fin (m # 1)) (int 1)) (Fin (m - 1 # 1)).

(** A string of decimal digits and its value. *)
Definition digits_read (t : string) (v : Z) : bool :=
  forallb is_digit (list_ascii_of_string t)
  && match digits_value 10 0 t with
     | Some v' => v' =? v
     | None => false
     end.

(** A year is written with four digits, a month with two. *)
Definition year_written (y : Z) : bool :=
  (String.length (decimal y) =? 4)%nat && digits_read (decimal y) y.

Definition month_written (m : Z) : bool :=
  (String.length (pad2 m) =? 2)%nat && digits_read (pad2 m) m.

(** The bullets of an entry in the words of the specification: the trimmed
    summary if it is not empty, then the lines of the details, each trimmed,
    the empty ones left out. *)
Definition spec_bullets (exp : obj) : list string :=
  (match get "summary" exp with
   | Some t => if String.eqb (trim t) "" then [] else [trim t]
   | None => []
   end ++
   match get "details" exp with
   | Some d => filter (fun t => negb (String.eqb t "")) (map trim (split LF d))
   | None => []
   end)%list.

(** The calls made since the last [setFont normal], from a list of calls that
    has the latest first. *)
Fixpoint since_normal (cs : list call) : list call :=
  match cs with
  | [] => []
  | setFont normal :: _ => []
  | c :: tl => c :: since_normal tl
  end.

(** What each [text] call among some calls draws. *)
Definition text_lines (cs : list call) : list (list string) :=
  flat_map (fun c => match c with text ls _ _ _ => [ls] | _ => [] end) cs.

(** The bullets of an entry as they reach the page: the texts drawn after the
    switch to the normal font, in the order they are drawn.  [new] holds the
    calls of the entry, the latest first. *)
Definition drawn_bullets (new : list call) : list (list string) :=
  text_lines (rev (since_normal new)).

(** The page breaks and font-size settings among some calls. *)
Definition page_calls (cs : list call) : list call :=
  filter (fun c => match c with addPage | setFontSize _ => true | _ => false end) cs.

(** The sign of a comparator's result, as the sort reads it: [NaN] is [+0]. *)
Definition sgn (v : number) : Z :=
  match v with
  | NaN => 0
  | Inf b => if b then -1 else 1
  | Fin q => Z.sgn (Qnum q)
  end.

(** A collation the sort can rely on: an antisymmetric, transitive order. *)
Definition consistent (lc : string -> string -> number) : Prop :=
  (forall a b, sgn (lc a b) = - sgn (lc b a)) /\
  (forall a b c, sgn (lc a b) <= 0 -> sgn (lc b c) <= 0 -> sgn (lc a c) <= 0).

(** The sort keys of an experience entry, in the words of the specification:
    the priority of its category (99 when the table has none) and its start
    date. *)
Definition category_of (e : obj) : string := interpolate (get "category" e).
Definition startDate_of (e : obj) : string := or_default (get "startDate" e) "".
Definition priority (e : obj) : Z :=
  match get (category_of e) categoryOrder with
  | Some n => n
  | None => 99
  end.

(** The sort key of an education record, and the order on it: [a] may stand
    before [b] when its date does not collate before [b]'s. *)
Definition date_of (e : obj) : string := or_default (get "date" e) "".
Definition not_older (lc : string -> string -> number) (a b : obj) : Prop :=
  sgn (lc (date_of b) (date_of a)) <= 0.
Definition same_date (lc : string -> string -> number) (a b : obj) : bool :=
  sgn (lc (date_of b) (date_of a)) =? 0.

(** A category that names no member of [Object.prototype]. *)
Definition plain_category (e : obj) : Prop := inherited (category_of e) = false.

(** [a] may stand before [b]: a lower priority, or the same priority and a
    start date that does not collate before [b]'s. *)
Definition comes_first (lc : string -> string -> number) (a b : obj) : Prop :=
  priority a < priority b \/
  (priority a = priority b /\ sgn (lc (startDate_of b) (startDate_of a)) <= 0).

(** [a] and [b] have equal keys. *)
Definition same_key (lc : string -> string -> number) (a b : obj) : bool :=
  (priority a =? priority b) && (sgn (lc (startDate_of b) (startDate_of a)) =? 0).

(** A computation that returns from every state: it throws from none. *)
Definition returns {A} (c : M A) : Prop := forall s, exists r, c s = Ok r.

(** A reference host, for running [generatePdf] on concrete résumés: an A4
    page (595.28 pt at 72/25.4 pt per mm), a fixed-pitch font half as wide as
    it is high, no wrapping, the UTC time zone, no date format beyond the
    standard one, collation by code unit, and a clock at 2026-11-02T00:00Z. *)
Definition utc : Z -> bool -> Z := fun _ _ => 0.
Definition no_legacy : string -> option Z := fun _ => None.
Definition a4_width : number := div (lit (59528 # 100)) (div (int 72) (lit (254 # 10))).
Definition fixed_pitch : fontStyle -> number -> string -> number :=
  fun _ size t => mul (int (Z.of_nat (String.length t)))
                      (mul (mul size (lit (352778 # 1000000))) (lit (5 # 10))).
Definition no_wrap : fontStyle -> number -> string -> number -> list string :=
  fun _ _ t _ => [t].
Definition by_code_unit (a b : string) : number :=
  match String.compare a b with
  | Lt => int (-1)
  | Eq => int 0
  | Gt => int 1
  end.
Definition a_clock : Z * Z := (1793577600000, 1793577600000).

(** [generatePdf] on the reference host. *)
Definition generatePdf_ref : Resume -> result state :=
  generatePdf a4_width fixed_pitch no_wrap utc no_legacy by_code_unit a_clock.

(** The résumé of the form's initial state with one certificate whose name is
    missing. *)
Definition nameless_certificate : Resume :=
  {| version := Some APP_VERSION; name := Some ""; email := Some ""; phone := Some "";
     additionalText := Some ""; contacts := [];
     education := [ (0%nat, [ ("degreeType", "Certificate") ]) ];
     experience := []; tags := [] |}.

(** Sixty-eight certificates: one more than the first page holds. *)
Definition many_certificates : Resume :=
  {| version := Some APP_VERSION; name := Some ""; email := Some ""; phone := Some "";
     additionalText := Some ""; contacts := [];
     education := map (fun i => (i, [ ("degreeType", "Certificate"); ("name", "AWS") ]))
                      (seq 0 68);
     experience := []; tags := [] |}.

(** A résumé whose experience entries have the given categories, in order. *)
Definition with_categories (cs : list string) : Resume :=
  {| version := Some APP_VERSION; name := Some ""; email := Some ""; phone := Some "";
     additionalText := Some ""; contacts := []; education := [];
     experience := combine (seq 0 (List.length cs)) (map (fun c => [ ("category", c) ]) cs);
     tags := [] |}.

(** An entry with ten lines of details, and a state at the section's font
    size to run it from. *)
Definition ten_lines : list string :=
  [ "Did 1"; "Did 2"; "Did 3"; "Did 4"; "Did 5"; "Did 6"; "Did 7"; "Did 8"; "Did 9";
    "Did 10" ].
Definition ten_lines_entry : obj :=
  [ ("title", "Engineer"); ("summary", "  "); ("details", join nl ten_lines) ].
Definition section_state : state :=
  {| font := bold; fontSize := sectionFontSize; textColor := (0, 0, 0);
     drawColor := (0, 0, 0); calls := []; y := int 40 |}.

(** A degree of May 2019. *)
Definition a_degree : obj :=
  [ ("degreeType", "B.S."); ("name", "State U"); ("category", "CS"); ("city", "Troy");
    ("state", "NY"); ("date", "2019-05") ].

(** An entry with a link and no title to carry it. *)
Definition untitled_link : obj := [ ("company", "Acme"); ("url", "https://example.com") ].

(** ** The rule of the page-break checks *)

(** The font size in effect after some calls (the latest first) on a new
    document: the last size set, or the 16 pt of jsPDF. *)
Fixpoint size_after (cs : list call) : number :=
  match cs with
  | [] => int 16
  | setFontSize n :: _ => n
  | _ :: tl => size_after tl
  end.

(** The font size in effect at each page break among some calls (the latest
    first). *)
Fixpoint break_sizes (cs : list call) : list number :=
  match cs with
  | [] => []
  | addPage :: tl => size_after tl :: break_sizes tl
  | _ :: tl => break_sizes tl
  end.

(** The rule of a page-break check.  The check is reached from the state [s]
    with the calls [drawn] made and the cursor advanced to [y1]; it leaves the
    state [s'].  [again] holds the calls that follow [addPage]. *)
Definition after_check (again : list call) (y1 : number) (s s' : state) (drawn : list call)
  : Prop :=
  fontSize s' = sectionFontSize /\
  font s' = font s /\ textColor s' = textColor s /\ drawColor s' = drawColor s /\
  if gtb y1 (int 280)
  then calls s' = (again ++ addPage :: drawn ++ calls s)%list /\ y s' = int 20
  else calls s' = (drawn ++ calls s)%list /\ y s' = y1.

(** An experience entry up to the gap that ends it: the heading and the
    bullets. *)
Definition before_gap (pageWidth : number)
    (getTextWidth : fontStyle -> number -> string -> number)
    (splitTextToSize : fontStyle -> number -> string -> number -> list string)
    (LocalTZA : Z -> bool -> Z) (exp : obj) : M unit :=
  experienceHeading pageWidth getTextWidth LocalTZA exp ;;
  doc_setFont normal ;;
  bs <- lift (bullets exp) ;;
  forEach (firstn MAX_NUMBER_OF_BULLETS_TO_DISPLAY bs)
          (fun bullet _ => bulletEntry pageWidth splitTextToSize bullet).

(** A computation that leads from a state with [P] to states with [Q]. *)
Definition leads {A} (P : state -> Prop) (c : M A) (Q : state -> Prop) : Prop :=
  forall s a s', P s -> c s = Ok (a, s') -> Q s'.

(** The state records the font size its calls have set, and every page break
    so far was made at the font size of the sections. *)
Definition sized (s : state) : Prop :=
  fontSize s = size_after (calls s) /\
  Forall (fun n => n = sectionFontSize) (break_sizes (calls s)).

Definition in_section (s : state) : Prop := sized s /\ fontSize s = sectionFontSize.

(** A state at the foot of a page, in the font of the sections. *)
Definition foot_of_page : state :=
  {| font := normal; fontSize := sectionFontSize; textColor := (0, 0, 0);
     drawColor := (0, 0, 0); calls := []; y := int 279 |}.

Definition a_certificate : obj := [ ("degreeType", "Certificate"); ("name", "AWS") ].

(** ** The threshold of the education date *)

(** A date and time as a calendar and a clock show them: year, month (1 to
    12), day of the month, milliseconds since midnight. *)
Definition civil : Type := (Z * Z * Z * Z)%type.

(** Earlier, on the calendar. *)
Definition civil_ltb (a b : civil) : bool :=
  let '(ya, ma, da, ta) := a in
  let '(yb, mb, db, tb) := b in
  (ya <? yb) || ((ya =? yb) &&
    ((ma <? mb) || ((ma =? mb) &&
      ((da <? db) || ((da =? db) && (ta <? tb)))))).

(** The date and time of a time value, read without an offset. *)
Definition fields (t : Z) : civil :=
  (YearFromTime t, MonthFromTime t + 1, DateFromTime t, TimeWithinDay t).

(** What the local clock shows at the time value [t]. *)
Definition shown (LocalTZA : Z -> bool -> Z) (t : Z) : civil :=
  fields (LocalTime LocalTZA t).

(** What the two readings of the clock in [generatePdf] show together: the
    year of [now], and the month, day and time of [threeYearsAgo] before its
    year is set. *)
Definition reading (LocalTZA : Z -> bool -> Z) (clock : Z * Z) : civil :=
  let '(_, m, d, t) := shown LocalTZA (snd clock) in
  let '(y, _, _, _) := shown LocalTZA (fst clock) in
  (y, m, d, t).

(** Follows the spec's words, [isOlderThanThreshold(dateStr, referenceDate,
    years)]: the date is strictly earlier than the reference date minus
    [years] years.  For the first day of a month the date is
    [(y, m, 1, 0)]. *)
Definition isOlderThanThreshold (date referenceDate : civil) (years : Z) : bool :=
  let '(y, m, d, t) := referenceDate in
  civil_ltb date (y - years, m, d, t).

(** The day of the month exists in that month of that year. *)
Definition day_exists (y m d : Z) : Prop := 1 <= d <= DaysInMonth y (m - 1).

(** The time value [years] years before the clock: what [setFullYear] makes
    of the second reading and the year of the first lowered by [years].
    [None]: beyond the range of time values. *)
Definition years_before (LocalTZA : Z -> bool -> Z) (years : Z) (clock : Z * Z) : option Z :=
  let '(y, m, d, t) := reading LocalTZA clock in
  TimeClip (UTC LocalTZA (MakeDate (MakeDay (y - years) (m - 1) d) t)).

(** The time value of midnight UTC on the first day of a month (1 to 12). *)
Definition first_day_utc (y m : Z) : Z := MakeDate (MakeDay y (m - 1) 1) 0.

(** A zone eight hours behind UTC, and an evening there: 30 June 2025 at
    20:00, which is 1 July 2025 at 04:00 UTC. *)
Definition west8 : Z -> bool -> Z := fun _ _ => - (8 * 3600000).
Definition june_evening : Z * Z := (1751342400000, 1751342400000).

(** A degree of July 2022. *)
Definition recent_degree : obj :=
  [ ("degreeType", "B.S."); ("name", "State U"); ("category", "CS"); ("date", "2022-07") ].

(** ** Early years *)

(** A year below 10000 written with four digits. *)
Definition pad4 (y : Z) : string :=
  if y <? 10 then "000" ++ decimal y
  else if y <? 100 then "00" ++ decimal y
  else if y <? 1000 then "0" ++ decimal y
  else decimal y.

(** Such a year component reads as its number. *)
Definition padded_year_reads (y : Z) : bool :=
  no_sep "-" (pad4 y) && number_eqb (Number (pad4 y)) (Fin (y # 1)).

End Spec.

(** * The forms: [mapPropertyToKey], [handleExperienceDateChange],
    [clearFormValues] *)

Module Forms.
Import JS Persist Spec.

(** [[A-Z]] of the regular expression. *)
Definition is_upper (c : ascii) : bool := (65 <=? code c) && (code c <=? 90).

(** [s.replaceAll(/([A-Z])/g, "-$1")]: a dash goes before every capital. *)
Fixpoint hyphenate (s : string) : string :=
  match s with
  | EmptyString => EmptyString
  | String c r => if is_upper c then String "-" (String c (hyphenate r))
                  else String c (hyphenate r)
  end.

Definition is_ascii (s : string) : bool :=
  forallb (fun c => code c <? 128) (list_ascii_of_string s).

Definition lower_ascii (c : ascii) : ascii :=
  if is_upper c then byte (Z.to_nat (code c + 32)) else c.

Fixpoint map_string (f : ascii -> ascii) (s : string) : string :=
  match s with
  | EmptyString => EmptyString
  | String c r => String (f c) (map_string f r)
  end.

Section Case.

(** The lower case of a string with characters outside ASCII: the Unicode
    tables decide. *)
Variable lower_unicode : string -> string.

(** [s.toLowerCase()]. *)
Definition toLowerCase (s : string) : string :=
  if is_ascii s then map_string lower_ascii s else lower_unicode s.

(** [mapPropertyToKey(prefix, property)]. *)
Definition mapPropertyToKey (prefix property : string) : string :=
  let hyphenated := toLowerCase (hyphenate property) in
  if String.eqb prefix "education" && String.eqb property "degreeType"
  then "education-degree-type"
  else prefix ++ "-" ++ hyphenated.

End Case.

(** A property name of ASCII characters without a dash. *)
Definition plain_name (p : string) : bool := is_ascii p && no_sep "-" p.

(** A word of a form key: ASCII, no capital, no dash; a word after the first
    starts with a small letter. *)
Definition word (w : string) : bool :=
  forallb (fun c => (code c <? 128) && negb (is_upper c) && negb (Ascii.eqb c "-"))
          (list_ascii_of_string w).

Definition later_word (w : string) : bool :=
  match w with
  | String c _ => (97 <=? code c) && (code c <=? 122) && word w
  | EmptyString => false
  end.

Definition override_key (k : string) : bool :=
  String.eqb k "contact-form-name-input" || String.eqb k "contact-form-url-input".

End Forms.

Module Legacy.
Import JS Persist Spec Forms.

(** A record as an earlier version saved it: under the names of the form
    fields of its properties. *)
Definition legacy (lower_unicode : string -> string) (prefix : string) (o : obj) : obj :=
  map (fun kv => (mapPropertyToKey lower_unicode prefix (fst kv), snd kv)) o.

(** A property name that is a plain key made of ASCII characters. *)
Definition schema_name (p : string) : bool := is_ascii p && plain_key p.

(** An experience record of the schema. *)
Definition an_experience : obj :=
  [ ("title", "Engineer"); ("company", "Acme"); ("startDate", "2020-01"); ("endDate", "") ].

End Legacy.

Module Dates.
Import JS Persist Layout Spec Forms.

(** The UTF-16 code units of a string, from its UTF-8 bytes: what the
    relational operators compare. *)
Fixpoint code_units (s : string) : list Z :=
  match s with
  | EmptyString => []
  | String c r =>
    let n := code c in
    if n <? 128 then n :: code_units r
    else match r with
    | EmptyString => []
    | String c1 r1 =>
      if n <? 224 then ((n - 192) * 64 + (code c1 - 128)) :: code_units r1
      else match r1 with
      | EmptyString => []
      | String c2 r2 =>
        if n <? 240
        then ((n - 224) * 4096 + (code c1 - 128) * 64 + (code c2 - 128)) :: code_units r2
        else match r2 with
        | EmptyString => []
        | String c3 r3 =>
          let cp := (n - 240) * 262144 + (code c1 - 128) * 4096
                    + (code c2 - 128) * 64 + (code c3 - 128) in
          (55296 + (cp - 65536) / 1024) :: (56320 + (cp - 65536) mod 1024) :: code_units r3
        end
      end
    end
  end.

Fixpoint lex_ltb (a b : list Z) : bool :=
  match a, b with
  | _, [] => false
  | [], _ :: _ => true
  | x :: a', y :: b' => if x <? y then true else if y <? x then false else lex_ltb a' b'
  end.

(** [a < b] on strings. *)
Definition string_ltb (a b : string) : bool := lex_ltb (code_units a) (code_units b).

(** The input elements of the page, by id, each with its [value]. *)
Definition inputs : Type := list (string * string).

Definition value_of_null : exn :=
  TypeError "Cannot read properties of null (reading 'value')".

(** [handleExperienceDateChange(prefix)]. *)
Definition handleExperienceDateChange (prefix : string) (document : inputs) : result inputs :=
  let startDateElement := get (prefix ++ "-start-date") document in
  let endDateElement := get (prefix ++ "-end-date") document in
  match startDateElement with
  | None => Throw value_of_null
  | Some startDate =>
    match endDateElement with
    | None => Throw value_of_null
    | Some endDate =>
      if truthy (Some startDate) && truthy (Some endDate) then
        if string_ltb endDate startDate
        then Ok (replace_value (prefix ++ "-end-date") "" document)
        else Ok document
      else Ok document
    end
  end.

(** The digits of a year of four digits and of a month of two. *)
Definition year_units (y : Z) : list Z :=
  [48 + y / 1000; 48 + (y / 100) mod 10; 48 + (y / 10) mod 10; 48 + y mod 10].
Definition month_units (m : Z) : list Z := [48 + m / 10; 48 + m mod 10].

Fixpoint list_eqb (a b : list Z) : bool :=
  match a, b with
  | [], [] => true
  | x :: a', y :: b' => (x =? y) && list_eqb a' b'
  | _, _ => false
  end.

Definition year_units_ok (y : Z) : bool :=
  is_ascii (decimal y) && list_eqb (code_units (decimal y)) (year_units y).
Definition month_units_ok (m : Z) : bool :=
  is_ascii (pad2 m) && list_eqb (code_units (pad2 m)) (month_units m).

End Dates.

Module Dom.

#[local] Set Warnings "-register-all".

(** An element, with what [clearFormValues] reads and writes of it: its tag
    name, its children, and the properties [value] and [selectedIndex] as
    they were last set. *)
Inductive node : Type :=
| Node (tagName : string) (value : string) (selectedIndex : Z) (children : list node).

Definition is_text_control (tag : string) : bool :=
  String.eqb tag "INPUT" || String.eqb tag "TEXTAREA".

(** One turn of the loop of [clearFormValues]: the child is emptied
    according to its tag, then its own children are gone through. *)
Fixpoint clearChild (child : node) : node :=
  match child with
  | Node tag value selectedIndex children =>
    Node tag
         (if is_text_control tag then "" else value)
         (if is_text_control tag then selectedIndex
          else if String.eqb tag "SELECT" then -1 else selectedIndex)
         (map clearChild children)
  end.

(** [clearFormValues(form)]: the container itself is not touched. *)
Definition clearFormValues (form : node) : node :=
  match form with
  | Node tag value selectedIndex children =>
    Node tag value selectedIndex (map clearChild children)
  end.

(** An element and the elements below it, parents first. *)
Fixpoint within (n : node) : list node :=
  match n with
  | Node tag value selectedIndex children => n :: flat_map within children
  end.

Definition tag_of (n : node) : string := match n with Node t _ _ _ => t end.
Definition value_of (n : node) : string := match n with Node _ v _ _ => v end.
Definition index_of (n : node) : Z := match n with Node _ _ i _ => i end.
Definition children_of (n : node) : list node := match n with Node _ _ _ c => c end.

(** An element before and after: the same tag; the value of a text control
    set to the empty string, the selected index of a [select] set to -1, and
    nothing else set. *)
Definition emptied (before after : node) : Prop :=
  tag_of after = tag_of before /\
  if is_text_control (tag_of before)
  then value_of after = "" /\ index_of after = index_of before
  else if String.eqb (tag_of before) "SELECT"
       then value_of after = value_of before /\ index_of after = -1
       else value_of after = value_of before /\ index_of after = index_of before.

End Dom.

(** * The list of entries: [updateSelectList], [deleteItem], [saveItem] of
    [makeFormBread] *)

Module Bread.
Import JS Persist Layout Forms.

(** A control of [form.elements]. *)
Record element : Type := {
  tagName : string;
  el_name : string;
  el_id : string;
  el_value : string
}.

(** What the functions of [makeFormBread] do to the world outside it.  A
    message that ends in [JSON.stringify(data)] is kept as its fixed part and
    [data]. *)
Inductive event : Type :=
| alert (message : string)
| console_log (message : string) (data : obj)
| saveResumeToLocalStorage
| updatePreview.

(** The variables the closures of [makeFormBread] share, the objects they
    refer to and the [select] they fill.  [dataArray] is the [Set] passed in:
    the addresses of its elements, in insertion order. *)
Record bread : Type := {
  objects : list (addr * obj);        (* the entries, by address *)
  next : addr;                        (* the next free address *)
  dataArray : list addr;
  currentItem : option addr;          (* [None] is [null] *)
  localArray : list addr;
  options : list (string * string);   (* text and value of the options *)
  selectedIndex : Z;
  events : list event                 (* the latest first *)
}.

(** The object at an address. *)
Definition deref (h : list (addr * obj)) (a : addr) : obj :=
  match find (fun p => Nat.eqb (fst p) a) h with
  | Some p => snd p
  | None => []
  end.

(** The object at [a] replaced. *)
Definition store (a : addr) (o : obj) (h : list (addr * obj)) : list (addr * obj) :=
  map (fun p => if Nat.eqb (fst p) a then (a, o) else p) h.

(** [array.sort(cmp)] on any elements: stable, [NaN] read as [+0]. *)
Definition before {A} (cmp : A -> A -> number) (a b : A) : bool :=
  match cmp a b with
  | NaN => true
  | v => negb (gtb v (int 0))
  end.

Fixpoint insert_by {A} (cmp : A -> A -> number) (x : A) (l : list A) : list A :=
  match l with
  | [] => [x]
  | h :: tl => if before cmp x h then x :: l else h :: insert_by cmp x tl
  end.

Definition sort_by {A} (cmp : A -> A -> number) (l : list A) : list A :=
  fold_right (insert_by cmp) [] l.

(** [array.indexOf(x)] on references. *)
Fixpoint indexOf (x : addr) (l : list addr) : Z :=
  match l with
  | [] => -1
  | h :: tl => if Nat.eqb h x then 0
               else let i := indexOf x tl in if i <? 0 then -1 else i + 1
  end.

(** [set.delete(x)]. *)
Definition set_delete (x : addr) (s : list addr) : list addr :=
  filter (fun a => negb (Nat.eqb a x)) s.

(** [set.add(x)]. *)
Definition set_insert (x : addr) (s : list addr) : list addr :=
  if existsb (Nat.eqb x) s then s else (s ++ [x])%list.

(** [select.selectedIndex = n]: an index without an option selects nothing. *)
Definition select_index (n : Z) (opts : list (string * string)) : Z :=
  if (0 <=? n) && (n <? Z.of_nat (List.length opts)) then n else -1.

(** [Object.assign(target, source)]. *)
Definition assign (target source : obj) : obj :=
  fold_left (fun t kv => set (fst kv) (snd kv) t) source target.

(** The default [getNameFunc]. *)
Definition defaultName (entry : obj) : string :=
  or_default (get "name" entry) (or_default (get "id" entry) "Unnamed Entry").

Section MakeFormBread.

Variable builtin_text : string -> string.
Variable capitalize_unicode : string -> string.
Variable lower_unicode : string -> string.

Variable formId : string.
Variable sortFunc : option (obj -> obj -> number).     (* [None] is [null] *)
Variable getNameFunc : obj -> string.

Definition record (e : event) (b : bread) : bread :=
  {| objects := objects b; next := next b; dataArray := dataArray b;
     currentItem := currentItem b; localArray := localArray b; options := options b;
     selectedIndex := selectedIndex b; events := e :: events b |}.

(** [updateSelectList()]. *)
Definition updateSelectList (b : bread) : bread :=
  let localArray := dataArray b in
  let localArray :=
    match sortFunc with
    | Some f => sort_by (fun x y => f (deref (objects b) x) (deref (objects b) y)) localArray
    | None => localArray
    end in
  let placeholder := ("-- Select an entry --", "-1") in
  let opts :=
    (placeholder ::
     map (fun ix => (getNameFunc (deref (objects b) (snd ix)), decimal (Z.of_nat (fst ix))))
         (combine (seq 0 (List.length localArray)) localArray))%list in
  let chosen :=
    match currentItem b with
    | None => 0
    | Some c => indexOf c localArray + 1
    end in
  {| objects := objects b; next := next b; dataArray := dataArray b;
     currentItem := currentItem b; localArray := localArray; options := opts;
     selectedIndex := select_index chosen opts; events := events b |}.

(** [deleteItem()]. *)
Definition deleteItem (b : bread) : bread :=
  match currentItem b with
  | None => record (alert "Nothing to delete") b
  | Some c =>
    let b := {| objects := objects b; next := next b; dataArray := set_delete c (dataArray b);
                currentItem := None; localArray := localArray b; options := options b;
                selectedIndex := selectedIndex b; events := events b |} in
    record updatePreview (record saveResumeToLocalStorage (updateSelectList b))
  end.

(** The object [data] that [saveItem] reads off the form. *)
Definition formData (elements : list element) : obj :=
  let prefix := hd "" (split "-" formId) in
  fold_left (fun data element =>
    let tag := toLowerCase lower_unicode (tagName element) in
    if existsb (String.eqb tag) [ "input"; "textarea"; "select" ] then
      let key := or_default (Some (el_name element)) (el_id element) in
      if String.eqb key "" then data
      else if negb (String.prefix prefix key) then data
      else set (mapKeyToProperty builtin_text capitalize_unicode key) (el_value element) data
    else data) elements [].

(** [saveItem()], with [form.elements] as it stands. *)
Definition saveItem (elements : list element) (b : bread) : bread :=
  let data := formData elements in
  let b :=
    match currentItem b with
    | None =>
      let a := next b in
      {| objects := (objects b ++ [(a, data)])%list; next := S a;
         dataArray := set_insert a (dataArray b); currentItem := Some a;
         localArray := localArray b; options := options b;
         selectedIndex := selectedIndex b;
         events := console_log "Added " data :: events b |}
    | Some c =>
      {| objects := store c (assign (deref (objects b) c) data) (objects b); next := next b;
         dataArray := dataArray b; currentItem := Some c;
         localArray := localArray b; options := options b;
         selectedIndex := selectedIndex b;
         events := console_log "Saved " data :: events b |}
    end in
  record updatePreview (record saveResumeToLocalStorage (updateSelectList b)).

(** The state when [makeFormBread] returns: nothing chosen, the list filled
    once. *)
Definition opened (h : list (addr * obj)) (n : addr) (data : list addr) : bread :=
  updateSelectList
    {| objects := h; next := n; dataArray := data; currentItem := None; localArray := [];
       options := []; selectedIndex := -1; events := [] |}.

(** The Save and Delete buttons. *)
Inductive press : Type :=
| Save (elements : list element)
| Delete.

Definition handle (p : press) (b : bread) : bread :=
  match p with
  | Save elements => saveItem elements b
  | Delete => deleteItem b
  end.

Definition presses (ps : list press) (b : bread) : bread :=
  fold_left (fun b p => handle p b) ps b.

End MakeFormBread.

(** The entries are allocated, each once, below the next free address. *)
Definition allocated (b : bread) : Prop :=
  NoDup (map fst (objects b)) /\
  Forall (fun a => (a < next b)%nat) (map fst (objects b)) /\
  NoDup (dataArray b) /\
  incl (dataArray b) (map fst (objects b)).

(** The list shows the set: the same entries, one option each after the
    placeholder, and the selection on the current entry. *)
Definition shown (getNameFunc : obj -> string) (b : bread) : Prop :=
  Permutation (localArray b) (dataArray b) /\
  map fst (options b)
  = ("-- Select an entry --" :: map (fun a => getNameFunc (deref (objects b) a)) (localArray b))%list /\
  match currentItem b with
  | None => selectedIndex b = 0
  | Some c => In c (dataArray b) /\
              nth_error (localArray b) (Z.to_nat (selectedIndex b - 1)) = Some c /\
              1 <= selectedIndex b
  end.

(** What holds between two presses of a button. *)
Definition steady (getNameFunc : obj -> string) (b : bread) : Prop :=
  allocated b /\ shown getNameFunc b.

End Bread.

(** * Vocabulary for the contact line and the page *)

Module Row.
Import JS Persist Layout.

Definition colour : Type := (Z * Z * Z)%type.
Definition blue : colour := (0, 0, 255).
Definition black : colour := (0, 0, 0).

(** The texts among some calls, in the order of the calls, each with its
    horizontal position and the text colour in force when it is drawn; [c]
    is the colour before the first call. *)
Fixpoint drawn (c : colour) (cs : list call) : list (list string * number * colour) :=
  match cs with
  | [] => []
  | setTextColor r g b :: tl => drawn (r, g, b) tl
  | text ls x _ _ :: tl => (ls, x, c) :: drawn c tl
  | _ :: tl => drawn c tl
  end.

(** The targets of the links among some calls. *)
Definition link_urls (cs : list call) : list string :=
  flat_map (fun c => match c with link _ _ _ _ u => [u] | _ => [] end) cs.

(** A row of texts from [x] on: each text in blue, and between two texts the
    separator in black, everything set side by side with the widths [w]. *)
Fixpoint contact_row (w : string -> number) (x : number) (texts : list string)
  : list (list string * number * colour) :=
  match texts with
  | [] => []
  | t :: tl =>
    ([t], x, blue) ::
    match tl with
    | [] => []
    | _ :: _ => ([separator], add x (w t), black)
                :: contact_row w (add (add x (w t)) (w separator)) tl
    end
  end.

(** The width of the row, summed from the left. *)
Fixpoint row_width (w : string -> number) (acc : number) (texts : list string) : number :=
  match texts with
  | [] => acc
  | t :: tl =>
    match tl with
    | [] => add acc (w t)
    | _ :: _ => row_width w (add (add acc (w t)) (w separator)) tl
    end
  end.

(** What the contact line shows: the phone, the e-mail address and the names
    of the contacts, those that are not empty. *)
Definition contact_texts (resume : Resume) : list string :=
  (push_if_truthy (phone resume) ++ push_if_truthy (email resume) ++
   flat_map (fun c => push_if_truthy (get "name" c)) (Array_from (contacts resume)))%list.

(** Where its links lead. *)
Definition contact_links (resume : Resume) : list string :=
  ((if truthy (phone resume) then [ ("tel:" ++ strip_ws (interpolate (phone resume)))%string ] else []) ++
   (if truthy (email resume) then [ ("mailto:" ++ interpolate (email resume))%string ] else []) ++
   flat_map (fun c => if truthy (get "name" c) && truthy (get "url" c)
                      then [ interpolate (get "url" c) ] else [])
            (Array_from (contacts resume)))%list.

End Row.

Module Page.
Import JS Layout.

(** A text that is not placed below the line of 280 mm. *)
Definition on_page (c : call) : Prop :=
  match c with
  | text _ _ ty _ => gtb ty (int 280) = false
  | _ => True
  end.

(** The same for the right-aligned texts alone: in the experience section,
    the date ranges of the headings. *)
Definition heading_on_page (c : call) : Prop :=
  match c with
  | text _ _ ty align_right => gtb ty (int 280) = false
  | _ => True
  end.

End Page.

(** * [safeLoadResume] and [loadJson] on any document *)

Module Loader.
Import JS Persist Layout Spec.

(** ** What [JSON.parse] returns

    The own properties of an object are in the order [Object.entries] lists
    them, no key twice. *)
#[local] Set Warnings "-register-all".

Inductive value : Type :=
| Null
| Bool (b : bool)
| Num (n : number)
| Str (s : string)
| Arr (items : list value)
| Obj (props : list (string * value)).

(** Truthiness; [None] is [undefined]. *)
Definition truthy_value (v : option value) : bool :=
  match v with
  | None => false
  | Some Null => false
  | Some (Bool b) => b
  | Some (Num n) => truthy_number n
  | Some (Str s) => negb (String.eqb s "")
  | Some (Arr _) => true
  | Some (Obj _) => true
  end.

(** [v || '']. *)
Definition or_empty_string (v : option value) : value :=
  match v with
  | Some x => if truthy_value v then x else Str ""
  | None => Str ""
  end.

(** [loadedResume.k] for the names that [safeLoadResume] and [loadJson] read
    ([version], [name], [contacts], ...): no prototype defines one of them,
    so the read finds an own property of an object or nothing, and it throws
    on [null]. *)
Definition field (k : string) (v : value) : result (option value) :=
  match v with
  | Null => Throw (TypeError ("Cannot read properties of null (reading '" ++ k ++ "')"))
  | Obj props => Ok (get k props)
  | _ => Ok None
  end.

(** The characters of a string, one string each: what the string iterator
    yields. *)
Fixpoint code_points (s : string) : list string :=
  match s with
  | EmptyString => []
  | String c r =>
    let n := code c in
    if n <? 192 then String c EmptyString :: code_points r
    else match r with
    | EmptyString => [String c EmptyString]
    | String c1 r1 =>
      if n <? 224 then String c (String c1 EmptyString) :: code_points r1
      else match r1 with
      | EmptyString => [String c (String c1 EmptyString)]
      | String c2 r2 =>
        if n <? 240 then String c (String c1 (String c2 EmptyString)) :: code_points r2
        else match r2 with
        | EmptyString => [String c (String c1 (String c2 EmptyString))]
        | String c3 r3 =>
          String c (String c1 (String c2 (String c3 EmptyString))) :: code_points r3
        end
      end
    end
  end.

(** No character outside the Basic Multilingual Plane: every character is
    one code unit. *)
Definition in_bmp (s : string) : bool :=
  forallb (fun c => code c <? 240) (list_ascii_of_string s).

(** The elements of an array with their indices as keys. *)
Definition indexed (l : list value) : list (string * value) :=
  combine (map (fun i => decimal (Z.of_nat i)) (seq 0 (List.length l))) l.

(** ** The objects [migrateItem] builds *)

(** The prototype of such an object: [Object.prototype] at first; an
    assignment to [__proto__] can replace it by an object or array of the
    document, or by [null]. *)
Inductive prototype : Type :=
| ObjectPrototype
| NoPrototype
| Parsed (v : value).

Record object : Type := { own : list (string * value); proto : prototype }.

(** Whether a lookup of [__proto__] along the prototype chain ends at the
    accessor of [Object.prototype]: not when the chain is empty, and not when
    an object of the document with an own property of this name comes
    first. *)
Definition setter_inherited (p : prototype) : bool :=
  match p with
  | ObjectPrototype => true
  | NoPrototype => false
  | Parsed (Obj props) => match get "__proto__" props with Some _ => false | None => true end
  | Parsed _ => true
  end.

Fixpoint replace {V} (k : string) (v : V) (o : list (string * V)) : list (string * V) :=
  match o with
  | [] => []
  | (k', v') :: tl => if String.eqb k' k then (k', v) :: tl else (k', v') :: replace k v tl
  end.

Fixpoint insert_at {V} (i : Z) (k : string) (v : V) (o : list (string * V))
  : list (string * V) :=
  match o with
  | [] => [(k, v)]
  | (k', v') :: tl =>
    match array_index k' with
    | Some j => if j <? i then (k', v') :: insert_at i k v tl else (k, v) :: o
    | None => (k, v) :: o
    end
  end.

(** A new own property: last, or among the array indices if it is one. *)
Definition define {V} (k : string) (v : V) (o : list (string * V)) : list (string * V) :=
  match array_index k with
  | Some i => insert_at i k v o
  | None => (o ++ [(k, v)])%list
  end.

(** [migrated[k] = v]. *)
Definition assign_property (k : string) (v : value) (o : object) : object :=
  match get k (own o) with
  | Some _ => {| own := replace k v (own o); proto := proto o |}
  | None =>
    if String.eqb k "__proto__" && setter_inherited (proto o) then
      match v with
      | Obj _ => {| own := own o; proto := Parsed v |}
      | Arr _ => {| own := own o; proto := Parsed v |}
      | Null => {| own := own o; proto := NoPrototype |}
      | _ => o
      end
    else {| own := define k v (own o); proto := proto o |}
  end.

(** [array.map(f)] for an [f] that may throw. *)
Fixpoint map_result {A B} (f : A -> result B) (l : list A) : result (list B) :=
  match l with
  | [] => Ok []
  | x :: tl =>
    match f x with
    | Throw e => Throw e
    | Ok y => match map_result f tl with
              | Throw e => Throw e
              | Ok ys => Ok (y :: ys)
              end
    end
  end.

(** [SameValueZero] on two elements of an array of the document: two
    objects are never the same one. *)
Definition same_value_zero (a b : value) : bool :=
  match a, b with
  | Null, Null => true
  | Bool x, Bool y => Bool.eqb x y
  | Num x, Num y => number_eqb x y
  | Str x, Str y => String.eqb x y
  | _, _ => false
  end.

(** [new Set(list)]. *)
Definition set_of (l : list value) : list value :=
  fold_left (fun s x => if existsb (same_value_zero x) s then s else (s ++ [x])%list) l [].

(** The global [resume]: its fields hold whatever was loaded. *)
Record resume : Type := {
  version : value;
  name : value;
  email : value;
  phone : value;
  additionalText : value;
  contacts : list object;
  education : list object;
  experience : list object;
  tags : list value
}.

Definition initial_resume : resume :=
  {| version := Str APP_VERSION; name := Str ""; email := Str ""; phone := Str "";
     additionalText := Str ""; contacts := []; education := []; experience := [];
     tags := [] |}.

(** [resume.name = v], and so on. *)
Definition set_name (v : value) (r : resume) : resume :=
  {| version := version r; name := v; email := email r; phone := phone r;
     additionalText := additionalText r; contacts := contacts r; education := education r;
     experience := experience r; tags := tags r |}.

Definition set_email (v : value) (r : resume) : resume :=
  {| version := version r; name := name r; email := v; phone := phone r;
     additionalText := additionalText r; contacts := contacts r; education := education r;
     experience := experience r; tags := tags r |}.

Definition set_phone (v : value) (r : resume) : resume :=
  {| version := version r; name := name r; email := email r; phone := v;
     additionalText := additionalText r; contacts := contacts r; education := education r;
     experience := experience r; tags := tags r |}.

Definition set_additionalText (v : value) (r : resume) : resume :=
  {| version := version r; name := name r; email := email r; phone := phone r;
     additionalText := v; contacts := contacts r; education := education r;
     experience := experience r; tags := tags r |}.

Definition set_contacts (s : list object) (r : resume) : resume :=
  {| version := version r; name := name r; email := email r; phone := phone r;
     additionalText := additionalText r; contacts := s; education := education r;
     experience := experience r; tags := tags r |}.

Definition set_education (s : list object) (r : resume) : resume :=
  {| version := version r; name := name r; email := email r; phone := phone r;
     additionalText := additionalText r; contacts := contacts r; education := s;
     experience := experience r; tags := tags r |}.

Definition set_experience (s : list object) (r : resume) : resume :=
  {| version := version r; name := name r; email := email r; phone := phone r;
     additionalText := additionalText r; contacts := contacts r; education := education r;
     experience := s; tags := tags r |}.

Definition set_tags (s : list value) (r : resume) : resume :=
  {| version := version r; name := name r; email := email r; phone := phone r;
     additionalText := additionalText r; contacts := contacts r; education := education r;
     experience := experience r; tags := s |}.

Section Load.

Variable builtin_text : string -> string.
Variable capitalize_unicode : string -> string.
(** [Object.entries] of a string with a character outside the Basic
    Multilingual Plane: the values are its surrogates, which no UTF-8 string
    holds. *)
Variable surrogate_entries : string -> list (string * value).

(** [Object.entries(item)]. *)
Definition entries (item : value) : result (list (string * value)) :=
  match item with
  | Null => Throw (TypeError "Cannot convert undefined or null to object")
  | Bool _ => Ok []
  | Num _ => Ok []
  | Str s => Ok (if in_bmp s then indexed (map Str (code_points s)) else surrogate_entries s)
  | Arr l => Ok (indexed l)
  | Obj props => Ok props
  end.

(** [migrateItem(item)]. *)
Definition migrateItem (item : value) : result object :=
  match entries item with
  | Throw e => Throw e
  | Ok es =>
    Ok (fold_left (fun migrated kv =>
                     assign_property (mapKeyToProperty builtin_text capitalize_unicode (fst kv))
                                     (snd kv) migrated)
                  es {| own := []; proto := ObjectPrototype |})
  end.

(** [new Set((v || []).map(migrateItem))]: the migrated objects are new, so
    the set keeps them all. *)
Definition migrated_set (v : option value) : result (list object) :=
  if truthy_value v then
    match v with
    | Some (Arr l) => map_result migrateItem l
    | _ => Throw (TypeError "(intermediate value).map is not a function")
    end
  else Ok [].

(** [new Set(v || [])]. *)
Definition tag_set (v : option value) : result (list value) :=
  if truthy_value v then
    match v with
    | Some (Arr l) => Ok (set_of l)
    | Some (Str s) => Ok (set_of (map Str (code_points s)))
    | _ => Throw (TypeError "object is not iterable")
    end
  else Ok [].

(** A step that may throw: the state reached so far stays. *)
Definition attempt {A} (r : result A) (reached : resume) (k : A -> resume * option exn)
  : resume * option exn :=
  match r with
  | Ok a => k a
  | Throw e => (reached, Some e)
  end.

(** [safeLoadResume(resume, loadedResume)]: the state it leaves, and the
    exception if it throws. *)
Definition safeLoadResume (r : resume) (loadedResume : value) : resume * option exn :=
  attempt (field "name" loadedResume) r (fun v =>
  let r := set_name (or_empty_string v) r in
  attempt (field "email" loadedResume) r (fun v =>
  let r := set_email (or_empty_string v) r in
  attempt (field "phone" loadedResume) r (fun v =>
  let r := set_phone (or_empty_string v) r in
  attempt (field "additionalText" loadedResume) r (fun v =>
  let r := set_additionalText (or_empty_string v) r in
  attempt (field "contacts" loadedResume) r (fun v =>
  attempt (migrated_set v) r (fun s =>
  let r := set_contacts s r in
  attempt (field "education" loadedResume) r (fun v =>
  attempt (migrated_set v) r (fun s =>
  let r := set_education s r in
  attempt (field "experience" loadedResume) r (fun v =>
  attempt (migrated_set v) r (fun s =>
  let r := set_experience s r in
  attempt (field "tags" loadedResume) r (fun v =>
  attempt (tag_set v) r (fun s =>
  (set_tags s r, None))))))))))))).

(** ** [loadJson]: the handler of [reader.onload] *)

(** What the handler does to the world outside it.  The warning
    [`Version mismatch: JSON is ${loadedResume.version}, App is ${APP_VERSION}`]
    is kept as the version it quotes. *)
Inductive event : Type :=
| console_warn (quoted : option value)
| alert (message : string)
| console_error (e : exn)
| reload.

(** The page: the global [resume], the item [resumeData] of the local
    storage (as the value whose JSON text it holds), and what the handler
    did. *)
Record page : Type := {
  current : resume;
  resumeData : option value;
  events : list event            (* the latest first *)
}.

(** [resumeToSave], the object that [JSON.stringify] is given. *)
Definition resumeToSave (r : resume) : value :=
  Obj [ ("version", version r); ("name", name r); ("email", email r); ("phone", phone r);
        ("additionalText", additionalText r);
        ("contacts", Arr (map (fun o => Obj (own o)) (contacts r)));
        ("education", Arr (map (fun o => Obj (own o)) (education r)));
        ("experience", Arr (map (fun o => Obj (own o)) (experience r)));
        ("tags", Arr (tags r)) ].

(** Whether [localStorage.setItem] accepts the text of a value (it throws
    when the quota is exceeded). *)
Variable storage_accepts : value -> bool.

Definition caught (e : exn) (r : resume) (p : page) : page :=
  {| current := r; resumeData := resumeData p;
     events := console_error e :: alert "Error parsing JSON file" :: events p |}.

(** [loadedResume.version !== APP_VERSION]. *)
Definition version_differs (v : option value) : bool :=
  match v with
  | Some (Str s) => negb (String.eqb s APP_VERSION)
  | _ => true
  end.

(** Whether a value of the document converts to a string, as a template
    literal has it.  An object converts through its [toString]: the one of
    [Object.prototype], unless the object has a property of this name, which
    is no function, and then the conversion throws ([valueOf] is no function
    either, or is the inherited one, which returns the object).  An array
    joins the conversions of its elements. *)
Fixpoint converts (v : value) : bool :=
  match v with
  | Obj props => match get "toString" props with Some _ => false | None => true end
  | Arr items => forallb converts items
  | _ => true
  end.

(** The same for a property that may be missing: [undefined] converts. *)
Definition quotable (v : option value) : bool :=
  match v with
  | Some x => converts x
  | None => true
  end.

(** The version check: the warning when the versions differ, or the
    exception of the template literal. *)
Definition versionCheck (v : option value) (p : page) : result page :=
  if version_differs v then
    if quotable v
    then Ok {| current := current p; resumeData := resumeData p;
               events := console_warn v :: events p |}
    else Throw (TypeError "Cannot convert object to primitive value")
  else Ok p.

(** The handler, from the result of [JSON.parse] on ([None]: the text is no
    JSON, and [JSON.parse] throws a [SyntaxError]). *)
Definition onload (parsed : option value) (p : page) : page :=
  match parsed with
  | None => caught (Error "SyntaxError") (current p) p
  | Some loadedResume =>
    match field "version" loadedResume with
    | Throw e => caught e (current p) p
    | Ok v =>
      match versionCheck v p with
      | Throw e => caught e (current p) p
      | Ok p =>
        match safeLoadResume (current p) loadedResume with
        | (r, Some e) => caught e r p
        | (r, None) =>
          if storage_accepts (resumeToSave r)
          then {| current := r; resumeData := Some (resumeToSave r);
                  events := reload :: events p |}
          else caught (Error "QuotaExceededError") r p
        end
      end
    end
  end.

End Load.

(** The warning of a document, if the handler gives one. *)
Definition warning (v : value) : list event :=
  match field "version" v with
  | Ok w => if version_differs w then [ console_warn w ] else []
  | Throw _ => []
  end.

(** A document the handler hands on to [safeLoadResume]: not [null], and its
    version is the one of the application or converts to a string. *)
Definition passes_version_check (v : value) : bool :=
  match field "version" v with
  | Ok w => negb (version_differs w) || quotable w
  | Throw _ => false
  end.

(** The handler has caught an exception: the user is told, the storage keeps
    what it had, the page is not reloaded, and the resume in memory is [r]. *)
Definition refused (p p' : page) (r : resume) (warned : list event) : Prop :=
  exists e,
    current p' = r /\ resumeData p' = resumeData p /\
    events p' = (console_error e :: alert "Error parsing JSON file" :: warned ++ events p)%list.

(** A value [migrated_set] accepts: falsy, or an array without [null]. *)
Definition is_null (v : value) : bool := match v with Null => true | _ => false end.

Definition list_loads (v : option value) : bool :=
  negb (truthy_value v)
  || match v with
     | Some (Arr l) => negb (existsb is_null l)
     | _ => false
     end.

(** A value [tag_set] accepts: falsy, an array or a string. *)
Definition tags_load (v : option value) : bool :=
  negb (truthy_value v)
  || match v with
     | Some (Arr _) => true
     | Some (Str _) => true
     | _ => false
     end.

(** The own property [k] of a document that is an object. *)
Definition own_field (k : string) (v : value) : option value :=
  match v with
  | Obj props => get k props
  | _ => None
  end.

(** A document [safeLoadResume] loads without throwing. *)
Definition loads (v : value) : bool :=
  negb (is_null v)
  && list_loads (own_field "contacts" v) && list_loads (own_field "education" v)
  && list_loads (own_field "experience" v) && tags_load (own_field "tags" v).

(** The résumé with its four texts replaced by those of a document. *)
Definition with_texts (r : resume) (v : value) : resume :=
  set_additionalText (or_empty_string (own_field "additionalText" v))
    (set_phone (or_empty_string (own_field "phone" v))
       (set_email (or_empty_string (own_field "email" v))
          (set_name (or_empty_string (own_field "name" v)) r))).

(** The empty résumé of a version. *)
Definition cleared (v : value) : resume :=
  {| version := v; name := Str ""; email := Str ""; phone := Str "";
     additionalText := Str ""; contacts := []; education := []; experience := [];
     tags := [] |}.

(** The names [safeLoadResume] reads. *)
Definition loaded_names : list string :=
  [ "name"; "email"; "phone"; "additionalText"; "contacts"; "education"; "experience";
    "tags" ].

(** A document with none of them: any number, string, boolean or array, or
    an object without these properties. *)
Definition fieldless (v : value) : Prop :=
  match v with
  | Null => False
  | Obj props => forall k, In k loaded_names -> get k props = None
  | _ => True
  end.

(** ** Documents of the schema's types

    A document and a résumé whose fields have the types of the type
    definitions, as values. *)
Definition of_obj (o : obj) : list (string * value) :=
  map (fun kv => (fst kv, Str (snd kv))) o.

Definition of_record (o : obj) : object := {| own := of_obj o; proto := ObjectPrototype |}.

Definition of_tag (t : Tag) : value :=
  Obj [ ("string", Str (tag_string t)); ("isRegex", Bool (isRegex t)) ].

Definition opt_field (k : string) (v : option value) : list (string * value) :=
  match v with
  | Some x => [(k, x)]
  | None => []
  end.

Definition of_records (l : list obj) : value := Arr (map (fun o => Obj (of_obj o)) l).

Definition of_json (j : Json) : value :=
  Obj (opt_field "version" (option_map Str (j_version j)) ++
       opt_field "name" (option_map Str (j_name j)) ++
       opt_field "email" (option_map Str (j_email j)) ++
       opt_field "phone" (option_map Str (j_phone j)) ++
       opt_field "additionalText" (option_map Str (j_additionalText j)) ++
       opt_field "contacts" (option_map of_records (j_contacts j)) ++
       opt_field "education" (option_map of_records (j_education j)) ++
       opt_field "experience" (option_map of_records (j_experience j)) ++
       opt_field "tags" (option_map (fun l => Arr (map of_tag l)) (j_tags j)))%list.

Definition as_text (v : value) : option string :=
  match v with
  | Str s => Some s
  | _ => None
  end.

(** The state [g] is the typed state [r]. *)
Definition shows (g : resume) (r : Resume) : Prop :=
  Persist.version r = as_text (version g) /\
  Persist.name r = as_text (name g) /\
  Persist.email r = as_text (email g) /\
  Persist.phone r = as_text (phone g) /\
  Persist.additionalText r = as_text (additionalText g) /\
  contacts g = map of_record (Array_from (Persist.contacts r)) /\
  education g = map of_record (Array_from (Persist.education r)) /\
  experience g = map of_record (Array_from (Persist.experience r)) /\
  tags g = map of_tag (Array_from (Persist.tags r)).

End Loader.

(** * [updatePreview] *)

Module Preview.
Import Layout.

(** The preview and the timers of the page.  A timer id is a positive
    integer, new at every [setTimeout]. *)
Record view : Type := {
  updateTimeout : option nat;     (* [None] is [null] *)
  pending : list nat;             (* the timers set and neither run nor cleared *)
  next_timer : nat;
  preview_class : option string;  (* [classList] of [#pdf-preview]; [None]: no such element *)
  generated : nat                 (* the runs of [generatePdf] so far *)
}.

Definition opening (class : option string) : view :=
  {| updateTimeout := None; pending := []; next_timer := 1; preview_class := class;
     generated := 0 |}.

(** [generatePdf()] as the preview sees it: a document is built, and shown in
    [#pdf-preview]. *)
Definition regenerate (v : view) : view * option exn :=
  let v := {| updateTimeout := updateTimeout v; pending := pending v;
              next_timer := next_timer v; preview_class := preview_class v;
              generated := S (generated v) |} in
  match preview_class v with
  | Some _ => (v, None)
  | None => (v, Some (TypeError "Cannot set properties of null (setting 'src')"))
  end.

(** [clearTimeout(id)]. *)
Definition clearTimeout (id : nat) (l : list nat) : list nat :=
  filter (fun t => negb (Nat.eqb t id)) l.

(** [updatePreview(immediate)]. *)
Definition updatePreview (immediate : bool) (v : view) : view * option exn :=
  if immediate then regenerate v
  else
    match preview_class v with
    | None => (v, Some (TypeError "Cannot set properties of null (setting 'classList')"))
    | Some _ =>
      let waiting :=
        match updateTimeout v with
        | Some id => if Nat.eqb id 0 then pending v else clearTimeout id (pending v)
        | None => pending v
        end in
      let id := next_timer v in
      ({| updateTimeout := Some id; pending := id :: waiting; next_timer := S id;
          preview_class := Some "fade-out"; generated := generated v |}, None)
    end.

(** The callback of the timer [id] runs, one second after it was set. *)
Definition timeout (id : nat) (v : view) : view * option exn :=
  if existsb (Nat.eqb id) (pending v) then
    let v := {| updateTimeout := updateTimeout v; pending := clearTimeout id (pending v);
                next_timer := next_timer v; preview_class := preview_class v;
                generated := generated v |} in
    match regenerate v with
    | (v, Some e) => (v, Some e)
    | (v, None) =>
      ({| updateTimeout := updateTimeout v; pending := pending v; next_timer := next_timer v;
          preview_class := Some "fade-in"; generated := generated v |}, None)
    end
  else (v, None).

(** What happens on the page: a call of [updatePreview], or a timer that
    runs out. *)
Inductive happening : Type :=
| Call (immediate : bool)
| Timeout (id : nat).

Definition happen (h : happening) (v : view) : view :=
  match h with
  | Call immediate => fst (updatePreview immediate v)
  | Timeout id => fst (timeout id v)
  end.

Definition history (hs : list happening) (v : view) : view :=
  fold_left (fun v h => happen h v) hs v.

Definition calls_in (hs : list happening) : nat :=
  List.length (filter (fun h => match h with Call _ => true | Timeout _ => false end) hs).

End Preview.

(** * Sample inputs *)

Module Samples.
Import JS Persist Layout Spec Forms Dates.

(** The dates of an entry whose end lies before its start. *)
Definition backwards : inputs :=
  [ ("experience-start-date", "2021-06"); ("experience-end-date", "2020-01") ].

(** A contact form with its two inputs and a button. *)
Definition contact_form (name url : string) : list Bread.element :=
  [ {| Bread.tagName := "INPUT"; Bread.el_name := ""; Bread.el_id := "contact-form-url-input";
       Bread.el_value := url |};
    {| Bread.tagName := "INPUT"; Bread.el_name := ""; Bread.el_id := "contact-form-name-input";
       Bread.el_value := name |};
    {| Bread.tagName := "BUTTON"; Bread.el_name := ""; Bread.el_id := ""; Bread.el_value := "" |} ].

(** One contact in the set, at address 0. *)
Definition one_contact : list (addr * obj) :=
  [ (0%nat, [ ("name", "GitHub"); ("url", "https://github.com/jane") ]) ].

(** The list of contacts of that set when [makeFormBread] returns. *)
Definition contacts_bread : Bread.bread :=
  Bread.opened None Bread.defaultName one_contact 1%nat [0%nat].

(** The same with the contact chosen, and a property the form does not
    name. *)
Definition chosen_bread : Bread.bread :=
  {| Bread.objects := [ (0%nat, [ ("name", "GitHub"); ("rank", "1") ]) ]; Bread.next := 1%nat;
     Bread.dataArray := [0%nat]; Bread.currentItem := Some 0%nat; Bread.localArray := [0%nat];
     Bread.options := [ ("-- Select an entry --", "-1"); ("GitHub", "0") ];
     Bread.selectedIndex := 1; Bread.events := [] |}.

(** A document whose [contacts] is a number. *)
Definition bad_contacts : Loader.value :=
  Loader.Obj [ ("name", Loader.Str "Ann"); ("contacts", Loader.Num (int 5)) ].

End Samples.

(** * Properties *)

Import JS Persist Layout Spec.

Section FormatDate.

Variable LocalTZA : Z -> bool -> Z.

(** C1 (the code departs from the claim).  [formatDate('')] is ['Present'],
    not the empty string, so an entry without a start date gets the range
    ["Present - <end>"]: the branch of [rightText] that would print the end
    value alone is never taken. *)
Theorem C1_empty_start_prints_Present :
  formatDate LocalTZA (Some "") = Ok "Present" /\
  experienceRightText LocalTZA [("title", "Engineer")] = Ok "Present - Present" /\
  experienceRightText LocalTZA [("title", "Engineer"); ("startDate", "")]
    = Ok "Present - Present".
Proof. repeat split; reflexivity. Qed.

End FormatDate.

Section Totality.

Variable pageWidth : number.
Variable getTextWidth : fontStyle -> number -> string -> number.
Variable splitTextToSize : fontStyle -> number -> string -> number -> list string.
Variable LocalTZA : Z -> bool -> Z.
Variable legacyParse : string -> option Z.
Variable localeCompare : string -> string -> number.
Variable clock : Z * Z.

Lemma returns_ret {A} (a : A) : returns (ret a).
Proof. intros s; eexists; reflexivity. Qed.

Lemma returns_bind {A B} (c : M A) (k : A -> M B) :
  returns c -> (forall a, returns (k a)) -> returns (bind c k).
Proof.
  intros Hc Hk s. destruct (Hc s) as [[a s'] E]. unfold bind. rewrite E. apply Hk.
Qed.

Lemma returns_lift {A} (r : result A) : (exists a, r = Ok a) -> returns (lift r).
Proof. intros [a ->] s. eexists; reflexivity. Qed.

Lemma returns_when b (c : M unit) : returns c -> returns (when b c).
Proof. destruct b; simpl; auto using returns_ret. Qed.

Lemma returns_emit c : returns (emit c).
Proof. intros s; eexists; reflexivity. Qed.

Lemma returns_forEach_from {A} (l : list A) (body : A -> nat -> M unit) :
  (forall x i, returns (body x i)) -> forall i, returns (forEach_from i l body).
Proof.
  intros Hb. induction l as [|x tl IH]; intros i; simpl.
  - apply returns_ret.
  - apply returns_bind; auto.
Qed.

Lemma returns_forEach_acc_from {A V} (l : list A) (body : A -> nat -> V -> M V) :
  (forall x i v, In x l -> returns (body x i v)) ->
  forall i v, returns (forEach_acc_from i l v body).
Proof.
  induction l as [|x tl IH]; intros Hb i v; simpl.
  - apply returns_ret.
  - apply returns_bind.
    + apply Hb. now left.
    + intros v'. apply IH. intros; apply Hb. now right.
Qed.

Lemma formatDate_returns v : exists r, formatDate LocalTZA v = Ok r.
Proof.
  unfold formatDate.
  destruct (negb (truthy v) || _) eqn:E; [eexists; reflexivity|].
  destruct v as [s|]; [|discriminate E]. cbn [receiver].
  destruct (nth_error (map Number (split "-" s)) 0) as [yr|]; [|eexists; reflexivity].
  destruct (nth_error (map Number (split "-" s)) 1) as [mo|]; [|eexists; reflexivity].
  destruct (negb (truthy_number yr) || negb (truthy_number mo)); eexists; reflexivity.
Qed.

Lemma experienceRightText_returns exp : exists r, experienceRightText LocalTZA exp = Ok r.
Proof.
  unfold experienceRightText.
  destruct (formatDate_returns (Some (or_default (get "startDate" exp) ""))) as [a ->].
  destruct (formatDate_returns (Some (or_default (get "endDate" exp) "Present"))) as [b ->].
  eexists; reflexivity.
Qed.

Lemma educationRightText_returns edu :
  exists r, educationRightText LocalTZA legacyParse clock edu = Ok r.
Proof.
  unfold educationRightText.
  destruct (truthy (get "date" edu)); [|eexists; reflexivity].
  destruct (date_ltb _ _); [eexists; reflexivity|apply formatDate_returns].
Qed.

Lemma truthy_Some v : truthy v = true -> exists s, v = Some s.
Proof. destruct v; [eexists; reflexivity|discriminate]. Qed.

Lemma bullets_returns exp : exists r, bullets exp = Ok r.
Proof.
  unfold bullets. destruct (truthy (get "details" exp)) eqn:E; [|eexists; reflexivity].
  destruct (truthy_Some _ E) as [d ->]. eexists; reflexivity.
Qed.

(** Every part pushed on [contactParts] carries a text. *)
Lemma contactParts_returns resume :
  exists l, contactParts resume = Ok l /\ Forall (fun p => exists t, part_text p = Some t) l.
Proof.
  unfold contactParts.
  assert (H3 : Forall (fun p => exists t, part_text p = Some t)
            (flat_map (fun contact =>
               if truthy (get "name" contact)
               then [ {| part_text := get "name" contact; part_link := get "url" contact |} ]
               else []) (Array_from (contacts resume)))).
  { induction (Array_from (contacts resume)) as [|c tl IH]; simpl; [constructor|].
    destruct (truthy (get "name" c)) eqn:E; simpl; auto.
    constructor; auto. simpl. now apply truthy_Some. }
  assert (H2 : Forall (fun p => exists t, part_text p = Some t)
            (if truthy (email resume)
             then [ {| part_text := email resume;
                       part_link := Some ("mailto:" ++ interpolate (email resume)) |} ]
             else [])).
  { destruct (truthy (email resume)) eqn:E; constructor; simpl; auto using truthy_Some. }
  destruct (truthy (phone resume)) eqn:E.
  - destruct (truthy_Some _ E) as [p Hp]. rewrite Hp. simpl. eexists; split; [reflexivity|].
    constructor; [simpl; eauto|]. apply Forall_app; auto.
  - eexists; split; [reflexivity|]. simpl. apply Forall_app; auto.
Qed.

Ltac prim := intros ?s; eexists; reflexivity.

Ltac returns_step :=
  first
    [ apply returns_ret
    | apply returns_emit
    | apply returns_when
    | apply returns_bind; [|intros ?]
    | prim ].

Lemma contactLine_returns parts :
  Forall (fun p => exists t, part_text p = Some t) parts ->
  returns (contactLine pageWidth getTextWidth parts).
Proof.
  intros Hp. unfold contactLine. apply returns_when.
  rewrite Forall_forall in Hp.
  apply returns_bind.
  - apply returns_forEach_acc_from. intros part i v Hin.
    destruct (Hp _ Hin) as [t Ht]. rewrite Ht.
    apply returns_bind; [prim|intros w].
    destruct (i <? _)%nat; repeat returns_step.
  - intros total. apply returns_bind; [|intros ?; prim].
    apply returns_forEach_acc_from. intros part i v Hin.
    destruct (Hp _ Hin) as [t Ht]. rewrite Ht.
    apply returns_bind; [prim|intros y0].
    apply returns_bind; [prim|intros _].
    apply returns_bind; [prim|intros w].
    apply returns_bind; [prim|intros _].
    apply returns_bind; [apply returns_when; prim|intros _].
    destruct (i <? _)%nat; repeat returns_step.
Qed.

Lemma educationEntry_returns edu :
  returns (educationEntry pageWidth LocalTZA legacyParse clock edu).
Proof.
  unfold educationEntry.
  apply returns_bind; [prim|intros y0].
  apply returns_bind.
  - destruct (is_Certificate edu); [prim|].
    apply returns_bind; [apply returns_lift, educationRightText_returns|intros r].
    repeat returns_step.
  - intros _. repeat returns_step.
Qed.

Lemma pageBreak_returns : returns pageBreak.
Proof. unfold pageBreak. repeat returns_step. Qed.

Lemma experienceHeading_returns exp :
  returns (experienceHeading pageWidth getTextWidth LocalTZA exp).
Proof.
  unfold experienceHeading.
  apply returns_bind; [prim|intros _].
  apply returns_bind; [prim|intros y0].
  apply returns_bind.
  - destruct (truthy (Some (or_default (get "title" exp) ""))); repeat returns_step.
  - intros x. apply returns_bind; [apply returns_when; prim|intros _].
    apply returns_bind; [apply returns_lift, experienceRightText_returns|intros r].
    repeat returns_step.
Qed.

Lemma bulletEntry_returns b : returns (bulletEntry pageWidth splitTextToSize b).
Proof.
  unfold bulletEntry.
  apply returns_bind; [prim|intros l].
  apply returns_bind; [prim|intros y0].
  apply returns_bind; [prim|intros _].
  apply returns_bind; [prim|intros _].
  apply pageBreak_returns.
Qed.

Lemma experienceEntry_returns exp :
  returns (experienceEntry pageWidth getTextWidth splitTextToSize LocalTZA exp).
Proof.
  unfold experienceEntry.
  apply returns_bind; [apply experienceHeading_returns|intros _].
  apply returns_bind; [prim|intros _].
  apply returns_bind; [apply returns_lift, bullets_returns|intros bs].
  apply returns_bind; [|intros _].
  - apply returns_forEach_from. intros; apply bulletEntry_returns.
  - apply returns_bind; [prim|intros _]. apply pageBreak_returns.
Qed.

Lemma returns_bind_lift {A B} (r : result A) (k : A -> M B) a :
  r = Ok a -> returns (k a) -> returns (bind (lift r) k).
Proof. intros -> H s. unfold bind, lift. apply H. Qed.

Lemma layout_returns resume :
  returns (layout pageWidth getTextWidth splitTextToSize LocalTZA legacyParse
             localeCompare clock resume).
Proof.
  unfold layout.
  do 8 (apply returns_bind; [prim|intros ?]).
  destruct (contactParts_returns resume) as [l [E Hl]].
  apply (returns_bind_lift _ _ l E).
  apply returns_bind; [now apply contactLine_returns|intros _].
  apply returns_bind; [apply returns_when; repeat returns_step|intros _].
  do 8 (apply returns_bind; [prim|intros ?]).
  apply returns_bind; [apply returns_forEach_from; intros; apply educationEntry_returns|intros _].
  do 5 (apply returns_bind; [prim|intros ?]).
  apply returns_forEach_from; intros; apply experienceEntry_returns.
Qed.

(** Total on every résumé whose fields are strings or missing: no guard of
    [generatePdf] lets [undefined] reach a method call or [doc.text]. *)
Theorem generatePdf_total resume :
  exists s, generatePdf pageWidth getTextWidth splitTextToSize LocalTZA legacyParse
              localeCompare clock resume = Ok s.
Proof.
  unfold generatePdf. destruct (layout_returns resume initial) as [[u s] E].
  rewrite E. eexists; reflexivity.
Qed.

(** C9 (the code departs from the claim).  [generatePdf] does return a
    document for every résumé, but a missing education field is not rendered
    as the empty string: the template literal prints it as [undefined]. *)
Theorem C9_missing_education_name_prints_undefined :
  (forall resume, exists s,
     generatePdf pageWidth getTextWidth splitTextToSize LocalTZA legacyParse
       localeCompare clock resume = Ok s) /\
  (exists s yv,
     generatePdf_ref nameless_certificate = Ok s /\
     In (text [ "• undefined" ] (int 25) yv align_left) (trace s)).
Proof.
  split.
  { intros resume. unfold generatePdf.
    destruct (layout_returns resume initial) as [[u s] E]. rewrite E. eexists; reflexivity. }
  eexists; eexists; split; [vm_compute; reflexivity|].
  vm_compute. do 11 right. left. reflexivity.
Qed.

End Totality.

(** ** The bullets of an experience entry *)

Lemma nonempty_length t : (0 <? String.length t)%nat = negb (String.eqb t "").
Proof. destruct t; reflexivity. Qed.

(** The array [bullets] that the code builds is the list the specification
    describes. *)
Lemma bullets_spec exp : bullets exp = Ok (spec_bullets exp).
Proof.
  unfold bullets, spec_bullets, push_if_truthy.
  assert (F : forall l, filter (fun t => (0 <? String.length t)%nat) l
                        = filter (fun t => negb (String.eqb t "")) l).
  { intros l. apply filter_ext. intros t. apply nonempty_length. }
  destruct (get "summary" exp) as [t|]; cbn [option_map];
    destruct (get "details" exp) as [d|]; cbn [truthy receiver]; try reflexivity.
  - destruct (String.eqb d "") eqn:E; cbn [negb]; [|now rewrite F].
    apply String.eqb_eq in E. subst d. cbn. now rewrite app_nil_r.
  - now rewrite app_nil_r.
  - destruct (String.eqb d "") eqn:E; cbn [negb]; [|now rewrite F].
    apply String.eqb_eq in E. subst d. reflexivity.
Qed.

Lemma split_no_sep sep t : no_sep sep t = true -> split sep t = [t].
Proof.
  unfold no_sep. induction t as [|c r IH]; simpl; [reflexivity|].
  destruct (Ascii.eqb c sep); [discriminate|]. simpl. intros H. now rewrite IH.
Qed.

Lemma split_at_sep sep t r :
  no_sep sep t = true -> split sep (t ++ String sep r) = t :: split sep r.
Proof.
  unfold no_sep. induction t as [|c t IH]; simpl; [now rewrite Ascii.eqb_refl|].
  destruct (Ascii.eqb c sep); [discriminate|]. simpl. intros H. now rewrite IH.
Qed.

(** Lines joined by line breaks split back into the same lines. *)
Lemma split_join_lines ls :
  ls <> [] -> Forall (fun t => no_sep LF t = true) ls -> split LF (join nl ls) = ls.
Proof.
  induction ls as [|t tl IH]; intros Hne Hl; [congruence|].
  inversion Hl; subst. destruct tl as [|t' tl'].
  - simpl. now apply split_no_sep.
  - change (join nl (t :: t' :: tl')) with (t ++ String LF (join nl (t' :: tl'))).
    rewrite split_at_sep by assumption. f_equal. apply IH; [congruence|assumption].
Qed.

Section Entries.

Variable pageWidth : number.
Variable getTextWidth : fontStyle -> number -> string -> number.
Variable splitTextToSize : fontStyle -> number -> string -> number -> list string.
Variable LocalTZA : Z -> bool -> Z.
Variable legacyParse : string -> option Z.
Variable clock : Z * Z.

Ltac run_in s :=
  lazy beta iota zeta delta
    [bind ret lift when emit doc_setFont doc_setFontSize doc_setTextColor doc_setDrawColor
     doc_text doc_link doc_line doc_addPage get_y set_y advance doc_getTextWidth
     doc_splitTextToSize doc_getTextWidth_value doc_text_value
     font fontSize textColor drawColor calls y];
  fold (font s) (fontSize s) (textColor s) (drawColor s) (calls s) (y s).

Lemma new_calls_nil (base : list call) : base = ([] ++ base)%list.
Proof. reflexivity. Qed.

Lemma new_calls_cons (c : call) l new base :
  l = (new ++ base)%list -> c :: l = ((c :: new) ++ base)%list.
Proof. intros ->. reflexivity. Qed.

(** Reads the calls made since [base] off a list that ends in [base]. *)
Ltac new_calls := repeat first [ eapply new_calls_cons | apply new_calls_nil ].

(** The heading of an entry, run from any state [s]: the calls it makes (the
    latest first), and where it leaves the cursor. *)
Lemma experienceHeading_run exp s :
  exists s' new,
    experienceHeading pageWidth getTextWidth LocalTZA exp s = Ok (tt, s') /\
    calls s' = (new ++ calls s)%list /\
    y s' = (if truthy (Some (or_default (get "url" exp) ""))
            then add (add (y s) sectionLineHeight) (int 1)
            else add (y s) sectionLineHeight) /\
    links new = (if truthy (Some (or_default (get "title" exp) ""))
                    && truthy (Some (or_default (get "url" exp) ""))
                 then [ link margin (sub (y s) (int 4))
                          (getTextWidth italic (fontSize s) (or_default (get "title" exp) ""))
                          (int 5) (or_default (get "url" exp) "") ]
                 else []) /\
    fontSize s' = fontSize s /\ since_normal new = new.
Proof.
  unfold experienceHeading.
  destruct (experienceRightText_returns LocalTZA exp) as [r Hr]. rewrite Hr.
  destruct (truthy (Some (or_default (get "title" exp) ""))) eqn:Et,
           (truthy (Some (or_default (get "url" exp) ""))) eqn:Eu;
    destruct (0 <? List.length _)%nat; run_in s;
    eexists; eexists; (split; [reflexivity|]); cbn [calls y fontSize];
    (split; [new_calls|repeat split; reflexivity]).
Qed.

(** The overflow check of the experience loop. *)
Lemma pageBreak_run s :
  pageBreak s =
  Ok (tt, if gtb (y s) (int 280)
          then {| font := font s; fontSize := sectionFontSize; textColor := textColor s;
                  drawColor := drawColor s;
                  calls := setFontSize sectionFontSize :: addPage :: calls s;
                  y := int 20 |}
          else s).
Proof. unfold pageBreak. run_in s. destruct (gtb (y s) (int 280)); reflexivity. Qed.

(** An education entry, run from any state. *)
Lemma educationEntry_run edu s :
  exists r s' new,
    educationRightText LocalTZA legacyParse clock edu = Ok r /\
    educationEntry pageWidth LocalTZA legacyParse clock edu s = Ok (tt, s') /\
    calls s' = (new ++ calls s)%list /\
    y s' = (if gtb (add (y s) sectionLineHeight) (int 280)
            then int 20 else add (y s) sectionLineHeight) /\
    page_calls new = (if gtb (add (y s) sectionLineHeight) (int 280)
                      then [ addPage ] else []) /\
    font s' = font s /\ fontSize s' = fontSize s /\
    textColor s' = textColor s /\ drawColor s' = drawColor s /\
    right_texts new = (if is_Certificate edu then []
                       else if truthy (Some r) then [ r ] else []).
Proof.
  unfold educationEntry.
  destruct (educationRightText_returns LocalTZA legacyParse clock edu) as [r Hr]. rewrite Hr.
  exists r.
  destruct (is_Certificate edu); run_in s; [|destruct (truthy (Some r)); run_in s];
    destruct (gtb (add (y s) sectionLineHeight) (int 280)); run_in s;
    eexists; eexists; (split; [reflexivity|]); (split; [reflexivity|]);
    cbn [calls y font fontSize textColor drawColor];
    (split; [new_calls|repeat split; reflexivity]).
Qed.

(** C3 (the code departs from the claim).  The extra millimetre follows the
    url alone: an entry with a url and no title draws no link, and the cursor
    still moves by the line height plus one. *)
Theorem C3_url_without_title_still_adds_one s :
  exists s' new,
    experienceHeading pageWidth getTextWidth LocalTZA untitled_link s = Ok (tt, s') /\
    calls s' = (new ++ calls s)%list /\
    links new = [] /\
    y s' = add (add (y s) sectionLineHeight) (int 1).
Proof.
  destruct (experienceHeading_run untitled_link s) as (s' & new & E & Hc & Hy & Hl & _).
  exists s', new. repeat split; assumption.
Qed.

Lemma since_normal_app a b :
  since_normal a = a -> since_normal (a ++ b)%list = (a ++ since_normal b)%list.
Proof.
  induction a as [|c a IH]; simpl; [reflexivity|].
  destruct c as [[| |]| | | | | | |]; intros H; try discriminate;
    inversion H as [H']; rewrite !H'; rewrite IH by assumption; reflexivity.
Qed.

Lemma since_normal_closed a b :
  since_normal a = a -> since_normal b = b -> since_normal (a ++ b)%list = (a ++ b)%list.
Proof. intros Ha Hb. now rewrite since_normal_app, Hb. Qed.

Lemma text_lines_app a b : text_lines (a ++ b)%list = (text_lines a ++ text_lines b)%list.
Proof. apply flat_map_app. Qed.

(** One bullet, run from any state. *)
Lemma bulletEntry_run b s :
  exists s' new,
    bulletEntry pageWidth splitTextToSize b s = Ok (tt, s') /\
    calls s' = (new ++ calls s)%list /\
    font s' = font s /\
    (fontSize s = sectionFontSize -> fontSize s' = sectionFontSize) /\
    since_normal new = new /\
    text_lines (rev new)
      = [ splitTextToSize (font s) (fontSize s) ("• " ++ b) (sub (contentWidth pageWidth) (int 5)) ].
Proof.
  unfold bulletEntry, pageBreak. run_in s.
  match goal with |- context [gtb ?v (int 280)] => destruct (gtb v (int 280)) end;
    eexists; eexists; (split; [reflexivity|]); cbn [calls font fontSize];
    (split; [new_calls|repeat split; auto]).
Qed.

(** The loop over the bullets, in the normal font at the section's size. *)
Lemma bulletLoop_run l :
  forall i s, font s = normal -> fontSize s = sectionFontSize ->
  exists s' new,
    forEach_from i l (fun bullet _ => bulletEntry pageWidth splitTextToSize bullet) s
      = Ok (tt, s') /\
    calls s' = (new ++ calls s)%list /\
    font s' = normal /\ fontSize s' = sectionFontSize /\
    since_normal new = new /\
    text_lines (rev new)
      = map (fun b => splitTextToSize normal sectionFontSize ("• " ++ b)
                        (sub (contentWidth pageWidth) (int 5))) l.
Proof.
  induction l as [|b tl IH]; intros i s Hf Hz.
  - exists s, []. repeat split; auto.
  - destruct (bulletEntry_run b s) as (s1 & n1 & E1 & C1 & F1 & Z1 & N1 & T1).
    destruct (IH (S i) s1) as (s2 & n2 & E2 & C2 & F2 & Z2 & N2 & T2); [congruence|auto|].
    exists s2, (n2 ++ n1)%list. cbn [forEach_from]. unfold bind at 1. rewrite E1.
    split; [exact E2|]. split; [now rewrite C2, C1, app_assoc|].
    split; [assumption|]. split; [assumption|].
    split; [now apply since_normal_closed|].
    rewrite rev_app_distr, text_lines_app, T1, T2, Hf, Hz. reflexivity.
Qed.

(** An entry, run from a state that has the section's font size: what its
    bullets draw. *)
Lemma experienceEntry_run exp s :
  fontSize s = sectionFontSize ->
  exists s' new,
    experienceEntry pageWidth getTextWidth splitTextToSize LocalTZA exp s = Ok (tt, s') /\
    calls s' = (new ++ calls s)%list /\
    drawn_bullets new
      = map (fun b => splitTextToSize normal sectionFontSize ("• " ++ b)
                        (sub (contentWidth pageWidth) (int 5)))
            (firstn MAX_NUMBER_OF_BULLETS_TO_DISPLAY (spec_bullets exp)).
Proof.
  intros Hz. unfold experienceEntry.
  destruct (experienceHeading_run exp s) as (s1 & n1 & E1 & C1 & _ & _ & Z1 & N1).
  unfold bind at 1. rewrite E1.
  unfold bind at 1. cbn [doc_setFont].
  rewrite bullets_spec. unfold bind at 1. cbn [lift].
  set (s2 := {| font := normal; fontSize := fontSize s1; textColor := textColor s1;
                drawColor := drawColor s1; calls := setFont normal :: calls s1; y := y s1 |}).
  unfold forEach.
  destruct (bulletLoop_run (firstn MAX_NUMBER_OF_BULLETS_TO_DISPLAY (spec_bullets exp)) 0%nat s2)
    as (s3 & n3 & E3 & C3 & F3 & Z3 & N3 & T3);
    [reflexivity|unfold s2; cbn [fontSize]; congruence|].
  unfold bind at 1. rewrite E3.
  unfold bind at 1, advance, bind at 1, get_y, set_y. rewrite pageBreak_run. cbn [y calls].
  match goal with |- context [gtb ?v (int 280)] => destruct (gtb v (int 280)) end.
  - eexists; exists (setFontSize sectionFontSize :: addPage :: n3 ++ setFont normal :: n1)%list.
    split; [reflexivity|]. cbn [calls]. split.
    + rewrite C3. subst s2. cbn [calls]. rewrite C1.
      rewrite <- ?app_comm_cons, <- ?app_assoc. reflexivity.
    + unfold drawn_bullets. cbn [since_normal]. rewrite since_normal_app by assumption.
      cbn [since_normal]. rewrite app_nil_r. cbn [rev]. rewrite !text_lines_app.
      cbn [text_lines flat_map]. rewrite !app_nil_r. exact T3.
  - eexists; exists (n3 ++ setFont normal :: n1)%list.
    split; [reflexivity|]. cbn [calls]. split.
    + rewrite C3. subst s2. cbn [calls]. rewrite C1.
      rewrite <- ?app_comm_cons, <- ?app_assoc. reflexivity.
    + unfold drawn_bullets. rewrite since_normal_app by assumption.
      cbn [since_normal]. rewrite app_nil_r. exact T3.
Qed.

(** C8.  An entry draws, after its heading, one text per bullet: the trimmed
    summary if it is not empty, then the lines of the details, trimmed, the
    empty ones dropped, in their order, eight at most.  With ten non-empty
    lines of details exactly eight are drawn.  (The entry is run from any
    state at the section's font size, as [generatePdf] does.) *)
Theorem C8_bullets_rendered exp s :
  fontSize s = sectionFontSize ->
  exists s' new,
    experienceEntry pageWidth getTextWidth splitTextToSize LocalTZA exp s = Ok (tt, s') /\
    calls s' = (new ++ calls s)%list /\
    drawn_bullets new
      = map (fun b => splitTextToSize normal sectionFontSize ("• " ++ b)
                        (sub (contentWidth pageWidth) (int 5)))
            (firstn 8 (spec_bullets exp)) /\
    (List.length (drawn_bullets new) <= 8)%nat /\
    (forall lines,
       get "details" exp = Some (join nl lines) ->
       List.length lines = 10%nat ->
       Forall (fun t => no_sep LF t = true /\ trim t <> "") lines ->
       List.length (drawn_bullets new) = 8%nat).
Proof.
  intros Hz. destruct (experienceEntry_run exp s Hz) as (s' & new & E & C & D).
  exists s', new. split; [exact E|]. split; [exact C|]. split; [exact D|].
  rewrite D, length_map. split; [apply firstn_le_length|].
  intros lines Hd Hn Hl. rewrite length_firstn. apply Nat.min_l.
  unfold spec_bullets. rewrite Hd, length_app.
  rewrite split_join_lines.
  - assert (F : filter (fun t => negb (String.eqb t "")) (map trim lines) = map trim lines).
    { clear Hn Hd. induction Hl as [|t tl [_ Ht] _ IH]; simpl; [reflexivity|].
      destruct (String.eqb (trim t) "") eqn:Q; [apply String.eqb_eq in Q; contradiction|].
      simpl. now rewrite IH. }
    rewrite F, length_map, Hn. lia.
  - intros ->. discriminate Hn.
  - eapply Forall_impl; [|exact Hl]. now intros t [H _].
Qed.

(** The heading of an entry moves the cursor by one line height, and by one
    millimetre more exactly when the url is not empty; it draws a link exactly
    when both the title and the url are not empty. *)
Theorem experience_heading_advance exp s :
  exists s' new,
    experienceHeading pageWidth getTextWidth LocalTZA exp s = Ok (tt, s') /\
    calls s' = (new ++ calls s)%list /\
    y s' = (if truthy (Some (or_default (get "url" exp) ""))
            then add (add (y s) sectionLineHeight) (int 1)
            else add (y s) sectionLineHeight) /\
    links new = (if truthy (Some (or_default (get "title" exp) ""))
                    && truthy (Some (or_default (get "url" exp) ""))
                 then [ link margin (sub (y s) (int 4))
                          (getTextWidth italic (fontSize s) (or_default (get "title" exp) ""))
                          (int 5) (or_default (get "url" exp) "") ]
                 else []).
Proof.
  destruct (experienceHeading_run exp s) as (s' & new & E & C & Y & L & _).
  exists s', new. auto.
Qed.

End Entries.

(** ** The rule of the page-break checks *)

Lemma leads_ret {A} P (a : A) : leads P (ret a) P.
Proof. intros s a' s' H E. injection E as _ <-. exact H. Qed.

Lemma leads_bind {A B} P R Q (c : M A) (k : A -> M B) :
  leads P c R -> (forall a, leads R (k a) Q) -> leads P (bind c k) Q.
Proof.
  intros Hc Hk s b s' H E. unfold bind in E.
  destruct (c s) as [[a s1]|e] eqn:E1; [|discriminate E].
  exact (Hk a s1 b s' (Hc s a s1 H E1) E).
Qed.

Lemma leads_lift {A} P (r : result A) : leads P (lift r) P.
Proof. intros s a s' H E. unfold lift in E. destruct r; [|discriminate E]. now injection E as _ <-. Qed.

Lemma leads_when P b (c : M unit) : leads P c P -> leads P (when b c) P.
Proof. destruct b; simpl; auto using leads_ret. Qed.

Lemma leads_forEach_from {A} P (l : list A) (body : A -> nat -> M unit) :
  (forall x i, leads P (body x i) P) -> forall i, leads P (forEach_from i l body) P.
Proof.
  intros Hb. induction l as [|x tl IH]; intros i; cbn [forEach_from].
  - apply leads_ret.
  - apply (leads_bind P P P); auto.
Qed.

Lemma leads_forEach_acc_from {A V} P (l : list A) (body : A -> nat -> V -> M V) :
  (forall x i v, leads P (body x i v) P) ->
  forall i v, leads P (forEach_acc_from i l v body) P.
Proof.
  intros Hb. induction l as [|x tl IH]; intros i v; cbn [forEach_acc_from].
  - apply leads_ret.
  - apply (leads_bind P P P); auto.
Qed.

Section PageBreaks.

Variable pageWidth : number.
Variable getTextWidth : fontStyle -> number -> string -> number.
Variable splitTextToSize : fontStyle -> number -> string -> number -> list string.
Variable LocalTZA : Z -> bool -> Z.
Variable legacyParse : string -> option Z.
Variable localeCompare : string -> string -> number.
Variable clock : Z * Z.

(** The steps that keep the font size and add at most a plain call. *)
Ltac plain_step :=
  let s := fresh "s" in let a := fresh "a" in let s' := fresh "s'" in
  let H := fresh "H" in let E := fresh "E" in
  intros s a s' H E;
  lazy beta iota zeta delta
    [emit doc_setFont doc_setTextColor doc_setDrawColor doc_text doc_link doc_line
     get_y set_y doc_getTextWidth doc_splitTextToSize] in E;
  injection E as _ <-;
  first [ exact H
        | destruct H as [[H1 H2] H3]; split; [split|]; cbn [fontSize calls];
          [exact H1 || (cbn [size_after]; exact H1)
          |exact H2 || (cbn [break_sizes]; exact H2)
          |exact H3]
        | destruct H as [H1 H2]; split; cbn [fontSize calls];
          [exact H1 || (cbn [size_after]; exact H1)
          |exact H2 || (cbn [break_sizes]; exact H2)] ].

Lemma setFontSize_sized n : leads sized (doc_setFontSize n) (fun s => sized s /\ fontSize s = n).
Proof.
  intros s a s' [H1 H2] E. injection E as _ <-. split; [split|]; cbn; auto.
Qed.

Lemma setFontSize_in_section : leads in_section (doc_setFontSize sectionFontSize) in_section.
Proof. intros s a s' [H _] E. exact (setFontSize_sized _ s a s' H E). Qed.

Lemma setFontSize_keeps n : leads sized (doc_setFontSize n) sized.
Proof. intros s a s' H E. exact (proj1 (setFontSize_sized _ s a s' H E)). Qed.

Lemma addPage_in_section : leads in_section doc_addPage in_section.
Proof.
  intros s a s' [[H1 H2] H3] E. injection E as _ <-.
  split; [split|]; cbn [fontSize calls size_after break_sizes]; auto.
  constructor; [congruence|exact H2].
Qed.

Ltac leads_step P :=
  first
    [ apply leads_ret
    | apply leads_lift
    | apply leads_when
    | apply setFontSize_in_section
    | apply addPage_in_section
    | apply setFontSize_keeps
    | apply (leads_bind P P P); [|intros ?]
    | plain_step ].

Lemma advance_leads P d :
  (forall s v, P s -> P {| font := font s; fontSize := fontSize s; textColor := textColor s;
                           drawColor := drawColor s; calls := calls s; y := v |}) ->
  leads P (advance d) P.
Proof. intros HP s a s' H E. injection E as _ <-. now apply HP. Qed.

Lemma sized_y s v :
  sized s -> sized {| font := font s; fontSize := fontSize s; textColor := textColor s;
                      drawColor := drawColor s; calls := calls s; y := v |}.
Proof. intros H. exact H. Qed.

Lemma in_section_y s v :
  in_section s ->
  in_section {| font := font s; fontSize := fontSize s; textColor := textColor s;
                drawColor := drawColor s; calls := calls s; y := v |}.
Proof. intros H. exact H. Qed.

Lemma pageBreak_in_section : leads in_section pageBreak in_section.
Proof. unfold pageBreak. repeat leads_step in_section. Qed.

Lemma contactLine_sized parts : leads sized (contactLine pageWidth getTextWidth parts) sized.
Proof.
  unfold contactLine. apply leads_when.
  apply (leads_bind sized sized sized).
  - apply leads_forEach_acc_from. intros part i v.
    unfold doc_getTextWidth_value.
    apply (leads_bind sized sized sized);
      [apply (leads_bind sized sized sized); [apply leads_lift|intros ?; plain_step]|intros w].
    destruct (i <? _)%nat; repeat leads_step sized.
  - intros total. apply (leads_bind sized sized sized); [|intros ?; apply advance_leads, sized_y].
    apply leads_forEach_acc_from. intros part i v.
    unfold doc_getTextWidth_value, doc_text_value.
    apply (leads_bind sized sized sized); [plain_step|intros y0].
    apply (leads_bind sized sized sized); [plain_step|intros _].
    apply (leads_bind sized sized sized);
      [apply (leads_bind sized sized sized); [apply leads_lift|intros ?; plain_step]|intros w].
    apply (leads_bind sized sized sized).
    { destruct (part_text part); [plain_step|]. intros s a s' _ E. discriminate E. }
    intros _.
    apply (leads_bind sized sized sized); [apply leads_when; plain_step|intros _].
    destruct (i <? _)%nat; repeat leads_step sized.
Qed.

Lemma educationEntry_in_section edu :
  leads in_section (educationEntry pageWidth LocalTZA legacyParse clock edu) in_section.
Proof.
  unfold educationEntry.
  apply (leads_bind in_section in_section in_section); [plain_step|intros y0].
  apply (leads_bind in_section in_section in_section).
  - destruct (is_Certificate edu); [plain_step|]. repeat leads_step in_section.
  - intros _. apply (leads_bind in_section in_section in_section);
      [apply advance_leads, in_section_y|intros _].
    apply (leads_bind in_section in_section in_section); [plain_step|intros y1].
    apply leads_when.
    apply (leads_bind in_section in_section in_section);
      [apply addPage_in_section|intros _; plain_step].
Qed.

Lemma experienceHeading_in_section exp :
  leads in_section (experienceHeading pageWidth getTextWidth LocalTZA exp) in_section.
Proof.
  unfold experienceHeading.
  apply (leads_bind in_section in_section in_section); [plain_step|intros _].
  apply (leads_bind in_section in_section in_section); [plain_step|intros y0].
  apply (leads_bind in_section in_section in_section).
  - destruct (truthy (Some (or_default (get "title" exp) ""))); repeat leads_step in_section.
  - intros x.
    apply (leads_bind in_section in_section in_section); [apply leads_when; plain_step|intros _].
    apply (leads_bind in_section in_section in_section); [apply leads_lift|intros r].
    apply (leads_bind in_section in_section in_section); [plain_step|intros _].
    apply (leads_bind in_section in_section in_section);
      [apply advance_leads, in_section_y|intros _].
    apply leads_when. apply advance_leads, in_section_y.
Qed.

Lemma bulletEntry_in_section b :
  leads in_section (bulletEntry pageWidth splitTextToSize b) in_section.
Proof.
  unfold bulletEntry.
  apply (leads_bind in_section in_section in_section); [plain_step|intros l].
  apply (leads_bind in_section in_section in_section); [plain_step|intros y0].
  apply (leads_bind in_section in_section in_section); [plain_step|intros _].
  apply (leads_bind in_section in_section in_section);
    [apply advance_leads, in_section_y|intros _].
  apply pageBreak_in_section.
Qed.

Lemma experienceEntry_in_section exp :
  leads in_section (experienceEntry pageWidth getTextWidth splitTextToSize LocalTZA exp)
        in_section.
Proof.
  unfold experienceEntry.
  apply (leads_bind in_section in_section in_section);
    [apply experienceHeading_in_section|intros _].
  apply (leads_bind in_section in_section in_section); [plain_step|intros _].
  apply (leads_bind in_section in_section in_section); [apply leads_lift|intros bs].
  apply (leads_bind in_section in_section in_section).
  - apply leads_forEach_from. intros; apply bulletEntry_in_section.
  - intros _. apply (leads_bind in_section in_section in_section);
      [apply advance_leads, in_section_y|intros _].
    apply pageBreak_in_section.
Qed.

Lemma layout_in_section resume :
  leads sized
        (layout pageWidth getTextWidth splitTextToSize LocalTZA legacyParse localeCompare
           clock resume)
        in_section.
Proof.
  unfold layout.
  apply (leads_bind sized sized); [plain_step|intros _].
  apply (leads_bind sized sized); [apply setFontSize_keeps|intros _].
  apply (leads_bind sized sized); [plain_step|intros _].
  apply (leads_bind sized sized); [plain_step|intros y0].
  apply (leads_bind sized sized); [plain_step|intros _].
  apply (leads_bind sized sized); [apply advance_leads, sized_y|intros _].
  apply (leads_bind sized sized); [apply setFontSize_keeps|intros _].
  apply (leads_bind sized sized); [plain_step|intros _].
  apply (leads_bind sized sized); [apply leads_lift|intros parts].
  apply (leads_bind sized sized); [apply contactLine_sized|intros _].
  apply (leads_bind sized sized).
  { apply leads_when.
    apply (leads_bind sized sized sized); [plain_step|intros _].
    apply (leads_bind sized sized sized); [apply setFontSize_keeps|intros _].
    apply (leads_bind sized sized sized); [plain_step|intros lines].
    apply (leads_bind sized sized sized); [plain_step|intros y1].
    apply (leads_bind sized sized sized); [plain_step|intros _].
    apply advance_leads, sized_y. }
  intros _.
  apply (leads_bind sized sized); [apply advance_leads, sized_y|intros _].
  apply (leads_bind sized in_section); [apply setFontSize_sized|intros _].
  apply (leads_bind in_section in_section); [plain_step|intros _].
  apply (leads_bind in_section in_section); [plain_step|intros _].
  apply (leads_bind in_section in_section); [plain_step|intros y2].
  apply (leads_bind in_section in_section); [plain_step|intros _].
  apply (leads_bind in_section in_section); [apply advance_leads, in_section_y|intros _].
  apply (leads_bind in_section in_section); [plain_step|intros _].
  apply (leads_bind in_section in_section).
  { apply leads_forEach_from. intros; apply educationEntry_in_section. }
  intros _.
  apply (leads_bind in_section in_section); [apply advance_leads, in_section_y|intros _].
  apply (leads_bind in_section in_section); [plain_step|intros _].
  apply (leads_bind in_section in_section); [plain_step|intros y3].
  apply (leads_bind in_section in_section); [plain_step|intros _].
  apply (leads_bind in_section in_section); [apply advance_leads, in_section_y|intros _].
  apply leads_forEach_from. intros; apply experienceEntry_in_section.
Qed.

Ltac run_in s :=
  lazy beta iota zeta delta
    [bind ret lift when emit doc_setFont doc_setFontSize doc_setTextColor doc_setDrawColor
     doc_text doc_link doc_line doc_addPage get_y set_y advance doc_getTextWidth
     doc_splitTextToSize doc_getTextWidth_value doc_text_value
     font fontSize textColor drawColor calls y];
  fold (font s) (fontSize s) (textColor s) (drawColor s) (calls s) (y s).

Ltac new_calls := repeat first [ eapply new_calls_cons | apply new_calls_nil ].

(** The check of the education loop. *)
Lemma educationEntry_check edu s :
  fontSize s = sectionFontSize ->
  exists s' drawn,
    educationEntry pageWidth LocalTZA legacyParse clock edu s = Ok (tt, s') /\
    page_calls drawn = [] /\
    after_check [] (add (y s) sectionLineHeight) s s' drawn.
Proof.
  intros Hz. unfold educationEntry, after_check.
  destruct (educationRightText_returns LocalTZA legacyParse clock edu) as [r Hr]. rewrite Hr.
  destruct (is_Certificate edu); run_in s; [|destruct (truthy (Some r)); run_in s];
    destruct (gtb (add (y s) sectionLineHeight) (int 280)); run_in s;
    eexists; eexists; (split; [reflexivity|]); cbn [calls y font fontSize textColor drawColor];
    (split; [|repeat split; try exact Hz; cbn [app]; new_calls]); reflexivity.
Qed.

(** The check after a bullet. *)
Lemma bulletEntry_check b s :
  fontSize s = sectionFontSize ->
  exists s' drawn,
    bulletEntry pageWidth splitTextToSize b s = Ok (tt, s') /\
    page_calls drawn = [] /\
    after_check [ setFontSize sectionFontSize ]
      (add (y s)
         (mul (mul (int (Z.of_nat (List.length
                       (splitTextToSize (font s) (fontSize s) ("• " ++ b)
                          (sub (contentWidth pageWidth) (int 5))))))
                   sectionLineHeight)
              (lit (12 # 10))))
      s s' drawn.
Proof.
  intros Hz. unfold bulletEntry, pageBreak, after_check. run_in s.
  destruct (gtb _ (int 280)); run_in s;
    eexists;
    exists [ text (splitTextToSize (font s) (fontSize s) ("• " ++ b)
                     (sub (contentWidth pageWidth) (int 5)))
                  (add margin (int 5)) (y s) align_left ];
    (split; [reflexivity|]);
    cbn [calls y font fontSize textColor drawColor app];
    repeat split; try exact Hz; reflexivity.
Qed.

(** The check after the gap that ends an entry. *)
Lemma experienceEntry_check exp s :
  fontSize s = sectionFontSize ->
  exists m s',
    before_gap pageWidth getTextWidth splitTextToSize LocalTZA exp s = Ok (tt, m) /\
    experienceEntry pageWidth getTextWidth splitTextToSize LocalTZA exp s = Ok (tt, s') /\
    fontSize m = sectionFontSize /\
    after_check [ setFontSize sectionFontSize ]
      (add (y m) (div sectionLineHeight (lit (15 # 10)))) m s' [].
Proof.
  intros Hz.
  destruct (experienceHeading_run pageWidth getTextWidth LocalTZA exp s)
    as (s1 & n1 & E1 & _ & _ & _ & Z1 & _).
  set (s2 := {| font := normal; fontSize := fontSize s1; textColor := textColor s1;
                drawColor := drawColor s1; calls := setFont normal :: calls s1; y := y s1 |}).
  destruct (bulletLoop_run pageWidth splitTextToSize
              (firstn MAX_NUMBER_OF_BULLETS_TO_DISPLAY (spec_bullets exp)) 0%nat s2)
    as (s3 & n3 & E3 & _ & F3 & Z3 & _);
    [reflexivity|unfold s2; cbn [fontSize]; congruence|].
  exists s3.
  assert (B : before_gap pageWidth getTextWidth splitTextToSize LocalTZA exp s = Ok (tt, s3)).
  { unfold before_gap. unfold bind at 1. rewrite E1.
    unfold bind at 1. cbn [doc_setFont].
    rewrite bullets_spec. unfold bind at 1. cbn [lift]. exact E3. }
  unfold experienceEntry.
  unfold bind at 1. rewrite E1.
  unfold bind at 1. cbn [doc_setFont].
  rewrite bullets_spec. unfold bind at 1. cbn [lift].
  unfold forEach. fold s2.
  unfold bind at 1. rewrite E3.
  unfold after_check.
  unfold bind at 1, advance, bind at 1, get_y, set_y. rewrite pageBreak_run. cbn [y calls].
  destruct (gtb _ (int 280)); eexists; (split; [exact B|]); (split; [reflexivity|]);
    cbn [calls y font fontSize textColor drawColor app]; repeat split; auto.
Qed.

(** C2.  The three overflow checks follow one rule.  From a state in the font
    size of the sections, the check of an education record, of a bullet and
    of the gap that ends an entry each do this: when the cursor, advanced,
    exceeds 280, [addPage] is called and the cursor is set to 20; otherwise
    no call is made and the cursor stays where it was advanced to; either way
    the font size is that of the sections afterwards, and font style and
    colours are those before the check.  The checks of the experience loop
    set the font size again after [addPage]; the one of the education loop
    does not, and the new page keeps the size.  In a whole document every
    page break is made in the font size of the sections. *)
Theorem C2_page_break_checks :
  (forall s, fontSize s = sectionFontSize ->
     (forall edu, exists s' drawn,
        educationEntry pageWidth LocalTZA legacyParse clock edu s = Ok (tt, s') /\
        page_calls drawn = [] /\
        after_check [] (add (y s) sectionLineHeight) s s' drawn) /\
     (forall bullet, exists s' drawn,
        bulletEntry pageWidth splitTextToSize bullet s = Ok (tt, s') /\
        page_calls drawn = [] /\
        after_check [ setFontSize sectionFontSize ]
          (add (y s)
             (mul (mul (int (Z.of_nat (List.length
                           (splitTextToSize (font s) (fontSize s) ("• " ++ bullet)
                              (sub (contentWidth pageWidth) (int 5))))))
                       sectionLineHeight)
                  (lit (12 # 10))))
          s s' drawn) /\
     (forall exp, exists m s',
        before_gap pageWidth getTextWidth splitTextToSize LocalTZA exp s = Ok (tt, m) /\
        experienceEntry pageWidth getTextWidth splitTextToSize LocalTZA exp s = Ok (tt, s') /\
        fontSize m = sectionFontSize /\
        after_check [ setFontSize sectionFontSize ]
          (add (y m) (div sectionLineHeight (lit (15 # 10)))) m s' [])) /\
  (forall resume, exists d,
     generatePdf pageWidth getTextWidth splitTextToSize LocalTZA legacyParse localeCompare
       clock resume = Ok d /\
     Forall (fun size => size = sectionFontSize) (break_sizes (calls d))).
Proof.
  split.
  - intros s Hz. split; [|split].
    + intros edu. now apply educationEntry_check.
    + intros b. now apply bulletEntry_check.
    + intros exp. now apply experienceEntry_check.
  - intros resume. unfold generatePdf.
    destruct (layout_returns pageWidth getTextWidth splitTextToSize LocalTZA legacyParse
                localeCompare clock resume initial) as [[u d] E].
    rewrite E. exists d. split; [reflexivity|].
    assert (I : sized initial) by (split; [reflexivity|constructor]).
    exact (proj2 (proj1 (layout_in_section resume initial u d I E))).
Qed.

End PageBreaks.

(** ** [Array.prototype.sort] with a consistent comparator *)

Section SortFacts.

Variable cmp : obj -> obj -> number.

Let le (a b : obj) : bool := keeps_before cmp a b.

Lemma insert_perm x l : Permutation (x :: l) (insert cmp x l).
Proof.
  induction l as [|h tl IH]; simpl; [reflexivity|].
  destruct (keeps_before cmp x h); [reflexivity|].
  rewrite perm_swap. now constructor.
Qed.

Lemma sort_perm l : Permutation l (sort cmp l).
Proof.
  induction l as [|x tl IH]; simpl; [constructor|].
  etransitivity; [|apply insert_perm]. now constructor.
Qed.

(** The elements on which the comparator is an order. *)
Variable P : obj -> Prop.
Hypothesis le_total : forall a b, P a -> P b -> le a b = false -> le b a = true.
Hypothesis le_trans :
  forall a b c, P a -> P b -> P c -> le a b = true -> le b c = true -> le a c = true.

Lemma insert_Forall x l : P x -> Forall P l -> Forall P (insert cmp x l).
Proof.
  intros Hx Hl. rewrite Forall_forall in *. intros z Hz.
  apply (Permutation_in _ (Permutation_sym (insert_perm x l))) in Hz.
  destruct Hz as [<-|Hz]; auto.
Qed.

Lemma sort_Forall l : Forall P l -> Forall P (sort cmp l).
Proof.
  intros Hl. rewrite Forall_forall in *. intros z Hz.
  apply (Permutation_in _ (Permutation_sym (sort_perm l))) in Hz. auto.
Qed.

Lemma insert_sorted x l :
  P x -> Forall P l ->
  StronglySorted (fun a b => le a b = true) l ->
  StronglySorted (fun a b => le a b = true) (insert cmp x l).
Proof.
  intros Hx Hl Hs. induction Hs as [|h tl Hs IH Hh]; simpl.
  - repeat constructor.
  - inversion Hl as [|? ? Ph Ptl]; subst.
    fold (le x h). destruct (le x h) eqn:E.
    + constructor; [now constructor|].
      constructor; [assumption|].
      rewrite Forall_forall in *. intros z Hz. eauto.
    + constructor; [auto|].
      rewrite Forall_forall in *. intros z Hz.
      apply (Permutation_in _ (Permutation_sym (insert_perm x tl))) in Hz.
      destruct Hz as [<-|Hz]; auto.
Qed.

Lemma sort_sorted l :
  Forall P l -> StronglySorted (fun a b => le a b = true) (sort cmp l).
Proof.
  induction l as [|x tl IH]; intros Hl; simpl; [constructor|].
  inversion Hl; subst. apply insert_sorted; auto using sort_Forall.
Qed.

(** Stability: elements that the order does not separate keep their order. *)
Variable eqv : obj -> obj -> bool.
Hypothesis eqv_le :
  forall x a b, P a -> P b -> eqv x a = true -> eqv x b = true -> le a b = true.

Lemma insert_stable x0 x l :
  P x -> Forall P l ->
  filter (eqv x0) (insert cmp x l) = filter (eqv x0) (x :: l).
Proof.
  intros Hx Hl. induction Hl as [|h tl Ph Ptl IH]; simpl; [reflexivity|].
  fold (le x h). destruct (le x h) eqn:E; [reflexivity|].
  simpl. rewrite IH. simpl.
  destruct (eqv x0 x) eqn:Ex, (eqv x0 h) eqn:Eh; try reflexivity.
  rewrite (eqv_le x0 x h Hx Ph Ex Eh) in E. discriminate.
Qed.

Lemma sort_stable x0 l :
  Forall P l -> filter (eqv x0) (sort cmp l) = filter (eqv x0) l.
Proof.
  induction l as [|x tl IH]; intros Hl; simpl; [reflexivity|].
  inversion Hl; subst.
  rewrite insert_stable; auto using sort_Forall. simpl. now rewrite IH.
Qed.

End SortFacts.

(** ** The order of the experience entries *)

Section ExperienceOrder.

Variable localeCompare : string -> string -> number.

Lemma keeps_before_sgn cmp a b : keeps_before cmp a b = (sgn (cmp a b) <=? 0).
Proof.
  unfold keeps_before. destruct (cmp a b) as [|n|q]; [reflexivity|now destruct n|].
  change (int 0) with (Fin 0). unfold gtb, ltb, sgn. simpl Qnum. simpl Qden.
  destruct (Qnum q); reflexivity.
Qed.

Lemma priority_values e : In (priority e) [1; 2; 3; 4; 5; 99].
Proof.
  unfold priority, categoryOrder. cbn [get].
  repeat match goal with
  | |- context [if ?b then _ else _] => destruct b
  end; simpl; tauto.
Qed.

Lemma orderOf_plain e : plain_category e -> orderOf e = Num (priority e).
Proof.
  unfold plain_category, orderOf, lookup, priority. fold (category_of e). intros Hp.
  destruct (get (category_of e) categoryOrder) as [n|] eqn:G; [|now rewrite Hp].
  assert (Hn : In n [1; 2; 3; 4; 5; 99]).
  { pose proof (priority_values e) as H. unfold priority in H. now rewrite G in H. }
  simpl in Hn. destruct Hn as [<-|[<-|[<-|[<-|[<-|[<-|[]]]]]]]; reflexivity.
Qed.

Lemma order_sub_sgn p q :
  In p [1; 2; 3; 4; 5; 99] -> In q [1; 2; 3; 4; 5; 99] ->
  sgn (sub (int p) (int q)) = Z.sgn (p - q).
Proof.
  simpl. intros Hp Hq.
  destruct Hp as [<-|[<-|[<-|[<-|[<-|[<-|[]]]]]]];
    destruct Hq as [<-|[<-|[<-|[<-|[<-|[<-|[]]]]]]]; reflexivity.
Qed.

(** On entries with plain categories the comparator reads the two keys. *)
Lemma experienceCompare_sgn a b :
  plain_category a -> plain_category b ->
  sgn (experienceCompare localeCompare a b) =
  if priority a =? priority b
  then sgn (localeCompare (startDate_of b) (startDate_of a))
  else Z.sgn (priority a - priority b).
Proof.
  intros Ha Hb. unfold experienceCompare.
  rewrite (orderOf_plain a Ha), (orderOf_plain b Hb). cbn [strict_ne order_sub].
  destruct (priority a =? priority b); cbn [negb]; [reflexivity|].
  apply order_sub_sgn; apply priority_values.
Qed.

Lemma keeps_before_comes_first a b :
  plain_category a -> plain_category b ->
  (keeps_before (experienceCompare localeCompare) a b = true <-> comes_first localeCompare a b).
Proof.
  intros Ha Hb. rewrite keeps_before_sgn, (experienceCompare_sgn a b Ha Hb).
  unfold comes_first.
  destruct (priority a =? priority b) eqn:E.
  - apply Z.eqb_eq in E. rewrite Z.leb_le. split; [intros; right; auto|].
    intros [H|[_ H]]; [lia|exact H].
  - apply Z.eqb_neq in E. rewrite Z.leb_le. split.
    + intros H. left. destruct (Z.sgn_spec (priority a - priority b)) as [[? ?]|[[? ?]|[? ?]]]; lia.
    + intros [H|[H _]]; [|contradiction].
      destruct (Z.sgn_spec (priority a - priority b)) as [[? ?]|[[? ?]|[? ?]]]; lia.
Qed.

Hypothesis collation : consistent localeCompare.

Lemma experience_total a b :
  plain_category a -> plain_category b ->
  keeps_before (experienceCompare localeCompare) a b = false ->
  keeps_before (experienceCompare localeCompare) b a = true.
Proof.
  intros Ha Hb H. apply keeps_before_comes_first; auto.
  assert (N : ~ comes_first localeCompare a b).
  { intros C. apply keeps_before_comes_first in C; auto. congruence. }
  destruct collation as [anti _]. unfold comes_first in *.
  destruct (Z.lt_trichotomy (priority a) (priority b)) as [L|[E|G]]; [tauto| |lia].
  right. split; [lia|].
  specialize (anti (startDate_of a) (startDate_of b)).
  assert (~ sgn (localeCompare (startDate_of b) (startDate_of a)) <= 0) by tauto. lia.
Qed.

Lemma experience_trans a b c :
  plain_category a -> plain_category b -> plain_category c ->
  keeps_before (experienceCompare localeCompare) a b = true ->
  keeps_before (experienceCompare localeCompare) b c = true ->
  keeps_before (experienceCompare localeCompare) a c = true.
Proof.
  intros Ha Hb Hc H1 H2.
  apply keeps_before_comes_first in H1; auto. apply keeps_before_comes_first in H2; auto.
  apply keeps_before_comes_first; auto.
  destruct collation as [_ trans]. unfold comes_first in *.
  destruct H1 as [L1|[E1 S1]], H2 as [L2|[E2 S2]]; try (left; lia).
  right. split; [lia|]. eapply trans; eauto.
Qed.

Lemma same_key_keeps x a b :
  plain_category a -> plain_category b ->
  same_key localeCompare x a = true -> same_key localeCompare x b = true ->
  keeps_before (experienceCompare localeCompare) a b = true.
Proof.
  intros Ha Hb Ka Kb. apply keeps_before_comes_first; auto.
  unfold same_key in *. apply andb_prop in Ka, Kb.
  destruct Ka as [Pa Sa], Kb as [Pb Sb].
  apply Z.eqb_eq in Pa, Pb, Sa, Sb.
  destruct collation as [anti trans]. right. split; [lia|].
  apply (trans _ (startDate_of x)); [lia|].
  rewrite anti. lia.
Qed.

End ExperienceOrder.

(** Collation by code unit is consistent. *)
Lemma compare_le_trans (a b c : string) :
  String.compare a b <> Gt -> String.compare b c <> Gt -> String.compare a c <> Gt.
Proof.
  revert b c. induction a as [|x a IH]; intros [|y b] [|z c]; simpl; try congruence.
  unfold Ascii.compare.
  destruct (N.compare_spec (N_of_ascii x) (N_of_ascii y)) as [Exy|Lxy|Gxy]; try congruence;
    destruct (N.compare_spec (N_of_ascii y) (N_of_ascii z)) as [Eyz|Lyz|Gyz]; try congruence;
    intros H1 H2.
  - rewrite Exy, Eyz, N.compare_refl. eauto.
  - rewrite Exy. apply N.compare_lt_iff in Lyz. rewrite Lyz. congruence.
  - rewrite <- Eyz. apply N.compare_lt_iff in Lxy. rewrite Lxy. congruence.
  - assert (L : (N_of_ascii x < N_of_ascii z)%N) by lia.
    apply N.compare_lt_iff in L. rewrite L. congruence.
Qed.

Lemma by_code_unit_sgn a b :
  sgn (by_code_unit a b) = match String.compare a b with Lt => -1 | Eq => 0 | Gt => 1 end.
Proof. unfold by_code_unit. destruct (String.compare a b); reflexivity. Qed.

Lemma by_code_unit_consistent : consistent by_code_unit.
Proof.
  split.
  - intros a b. rewrite !by_code_unit_sgn, (String.compare_antisym a b).
    destruct (String.compare b a); reflexivity.
  - intros a b c. rewrite !by_code_unit_sgn. intros H1 H2.
    pose proof (compare_le_trans a b c) as T.
    destruct (String.compare a b), (String.compare b c), (String.compare a c);
      try lia; exfalso; apply T; congruence.
Qed.

Lemma StronglySorted_on {A} (P : A -> Prop) (R R' : A -> A -> Prop) l :
  (forall a b, P a -> P b -> R a b -> R' a b) ->
  Forall P l -> StronglySorted R l -> StronglySorted R' l.
Proof.
  intros H Hl Hs. induction Hs as [|h tl Hs IH Hh]; [constructor|].
  inversion Hl; subst. constructor; [auto|].
  rewrite Forall_forall in *. auto.
Qed.

Lemma StronglySorted_before {A} (R : A -> A -> Prop) l1 a l2 b l3 :
  StronglySorted R (l1 ++ a :: l2 ++ b :: l3)%list -> R a b.
Proof.
  induction l1 as [|h l1 IH]; simpl; intros H; inversion H; subst; [|auto].
  match goal with F : Forall _ _ |- _ => rewrite Forall_forall in F; apply F end.
  apply in_or_app. right. now left.
Qed.

Section ExperienceSort.

Variable localeCompare : string -> string -> number.
Hypothesis collation : consistent localeCompare.

(** The experience entries come out ordered by category priority, lowest
    first, then by start date, latest first, entries with equal keys in
    their original order; inside a group nothing follows an undated entry
    but entries whose start date does not collate after the empty string.
    The categories are taken not to name a member of [Object.prototype]. *)
Theorem experience_sort_order (resume : Resume) :
  Forall plain_category (Array_from (experience resume)) ->
  Permutation (Array_from (experience resume)) (sortedExperience localeCompare resume) /\
  StronglySorted (comes_first localeCompare) (sortedExperience localeCompare resume) /\
  (forall x, filter (same_key localeCompare x) (sortedExperience localeCompare resume)
             = filter (same_key localeCompare x) (Array_from (experience resume))) /\
  (forall l1 a l2 b l3,
     sortedExperience localeCompare resume = (l1 ++ a :: l2 ++ b :: l3)%list ->
     priority a = priority b -> startDate_of a = "" ->
     sgn (localeCompare (startDate_of b) "") <= 0).
Proof.
  intros Hp. unfold sortedExperience.
  assert (Hs : StronglySorted (comes_first localeCompare)
                 (sort (experienceCompare localeCompare) (Array_from (experience resume)))).
  { apply (StronglySorted_on plain_category
             (fun a b => keeps_before (experienceCompare localeCompare) a b = true)).
    - intros a b Ha Hb. now apply keeps_before_comes_first.
    - now apply sort_Forall.
    - apply (sort_sorted _ plain_category); auto.
      + intros a b. now apply experience_total.
      + intros a b c. now apply experience_trans. }
  split; [apply sort_perm|]. split; [exact Hs|]. split.
  - intros x. apply (sort_stable _ plain_category); auto.
    intros x0 a b. now apply same_key_keeps.
  - intros l1 a l2 b l3 E Hpr Hd. rewrite E in Hs.
    apply StronglySorted_before in Hs. destruct Hs as [L|[_ S]]; [lia|].
    now rewrite Hd in S.
Qed.

End ExperienceSort.

(** C6 (the code departs from the claim).  A category that names a member
    every object inherits is not given priority 99: the lookup in
    [categoryOrder] finds the inherited member, the subtraction yields [NaN],
    and the entry ties with every other one.  Such an entry stays before a
    "Work Experience" entry that follows it.  The example of the claim itself
    comes out as stated. *)
Theorem C6_inherited_category_is_not_ranked_last (localeCompare : string -> string -> number) :
  orderOf [ ("category", "constructor") ] = Member "constructor" /\
  experienceCompare localeCompare [ ("category", "constructor") ]
    [ ("category", "Work Experience") ] = NaN /\
  sortedExperience localeCompare (with_categories [ "constructor"; "Work Experience" ])
    = [ [ ("category", "constructor") ]; [ ("category", "Work Experience") ] ] /\
  sortedExperience localeCompare (with_categories [ "Project"; "Work Experience"; "Volunteer" ])
    = [ [ ("category", "Work Experience") ]; [ ("category", "Project") ];
        [ ("category", "Volunteer") ] ].
Proof. repeat split; vm_compute; reflexivity. Qed.

Lemma experience_sort_order_witness :
  Permutation
    (Array_from (experience (with_categories [ "Project"; "Work Experience"; "Volunteer" ])))
    (sortedExperience by_code_unit
       (with_categories [ "Project"; "Work Experience"; "Volunteer" ])) /\
  sortedExperience by_code_unit (with_categories [ "Project"; "Work Experience"; "Volunteer" ])
    = [ [ ("category", "Work Experience") ]; [ ("category", "Project") ];
        [ ("category", "Volunteer") ] ].
Proof.
  split; [|reflexivity].
  apply (experience_sort_order by_code_unit by_code_unit_consistent
           (with_categories [ "Project"; "Work Experience"; "Volunteer" ])).
  repeat constructor.
Defined.

(** ** [formatDate] on well-formed dates *)

Lemma range_check_spec lo hi f z :
  range_check lo hi f = true -> lo <= z <= hi -> f z = true.
Proof.
  unfold range_check. rewrite forallb_forall. intros H Hz. apply H.
  apply in_map_iff. exists (Z.to_nat (z - lo)). split; [lia|].
  apply in_seq. lia.
Qed.

Lemma number_eqb_eq a b : number_eqb a b = true -> a = b.
Proof.
  destruct a as [|x|[p1 q1]], b as [|y|[p2 q2]]; simpl; try discriminate; auto.
  - intros H. apply Bool.eqb_prop in H. now subst.
  - intros H. apply andb_prop in H. destruct H as [H1 H2].
    apply Z.eqb_eq in H1. apply Pos.eqb_eq in H2. now subst.
Qed.

Lemma years_read : range_check 1000 9999 year_reads = true.
Proof. vm_compute. reflexivity. Qed.

Lemma months_read : range_check 0 99 month_reads = true.
Proof. vm_compute. reflexivity. Qed.


(** *** The calendar *)

Lemma DayFromYear_next y :
  DayFromYear (y + 1) - DayFromYear y = if InLeapYear y then 366 else 365.
Proof.
  unfold DayFromYear, InLeapYear.
  destruct (y mod 4 =? 0) eqn:E4; destruct (y mod 100 =? 0) eqn:E100;
    destruct (y mod 400 =? 0) eqn:E400; cbn [andb orb negb];
    rewrite ?Z.eqb_eq, ?Z.eqb_neq in *; Z.to_euclidean_division_equations; lia.
Qed.

(** [YearFromDay] finds the year of every day. *)
Lemma YearFromDay_spec y j :
  0 <= j < DayFromYear (y + 1) - DayFromYear y -> YearFromDay (DayFromYear y + j) = y.
Proof.
  intros Hj. pose proof (DayFromYear_next y) as N.
  pose proof (DayFromYear_next (y - 1)) as N1.
  pose proof (DayFromYear_next (y + 1)) as N2.
  replace (y - 1 + 1) with y in N1 by lia.
  assert (B : 365 <= DayFromYear (y + 1) - DayFromYear y <= 366)
    by (destruct (InLeapYear y); lia).
  assert (B1 : 365 <= DayFromYear y - DayFromYear (y - 1) <= 366)
    by (destruct (InLeapYear (y - 1)); lia).
  assert (B2 : 365 <= DayFromYear (y + 1 + 1) - DayFromYear (y + 1) <= 366)
    by (destruct (InLeapYear (y + 1)); lia).
  unfold YearFromDay.
  set (d := DayFromYear y + j).
  set (y0 := 1970 + d * 400 / 146097).
  assert (E : y - 1 <= y0 <= y + 1).
  { subst y0 d. clear N N1 N2 B1 B2. unfold DayFromYear in *.
    Z.to_euclidean_division_equations; lia. }
  assert (C : y0 = y - 1 \/ y0 = y \/ y0 = y + 1) by lia.
  destruct C as [C|[C|C]]; rewrite C.
  - destruct (Z.ltb_spec d (DayFromYear (y - 1))); [lia|].
    replace (y - 1 + 1) with y by lia.
    destruct (Z.leb_spec (DayFromYear y) d); lia.
  - destruct (Z.ltb_spec d (DayFromYear y)); [lia|].
    destruct (Z.leb_spec (DayFromYear (y + 1)) d); lia.
  - destruct (Z.ltb_spec d (DayFromYear (y + 1))); lia.
Qed.

(** The first day of a month, as [MakeDay] numbers it, is the first day of
    that month: months outside 0..11 carry into the year. *)
Lemma first_day_fields y k :
  YearFromDay (MakeDay y k 1) = y + k / 12 /\
  MonthFromDay (MakeDay y k 1) = k mod 12 /\
  DateFromDay (MakeDay y k 1) = 1.
Proof.
  unfold MakeDay. set (ym := y + k / 12). set (mn := k mod 12).
  assert (Hm : 0 <= mn < 12) by (subst mn; apply Z.mod_pos_bound; lia).
  pose proof (DayFromYear_next ym) as N.
  assert (Y : YearFromDay (DayFromYear ym + month_start (InLeapYear ym) mn + 1 - 1) = ym).
  { replace (DayFromYear ym + month_start (InLeapYear ym) mn + 1 - 1)
      with (DayFromYear ym + month_start (InLeapYear ym) mn) by lia.
    apply YearFromDay_spec. rewrite N.
    assert (C : mn = 0 \/ mn = 1 \/ mn = 2 \/ mn = 3 \/ mn = 4 \/ mn = 5 \/ mn = 6 \/
                mn = 7 \/ mn = 8 \/ mn = 9 \/ mn = 10 \/ mn = 11) by lia.
    destruct (InLeapYear ym);
      repeat (destruct C as [C|C]; [rewrite C; simpl; lia|]); rewrite C; simpl; lia. }
  assert (M : MonthFromDay (DayFromYear ym + month_start (InLeapYear ym) mn + 1 - 1) = mn).
  { unfold MonthFromDay. rewrite Y.
    replace (DayFromYear ym + month_start (InLeapYear ym) mn + 1 - 1 - DayFromYear ym)
      with (month_start (InLeapYear ym) mn) by lia.
    assert (C : mn = 0 \/ mn = 1 \/ mn = 2 \/ mn = 3 \/ mn = 4 \/ mn = 5 \/ mn = 6 \/
                mn = 7 \/ mn = 8 \/ mn = 9 \/ mn = 10 \/ mn = 11) by lia.
    destruct (InLeapYear ym);
      repeat (destruct C as [C|C]; [rewrite C; reflexivity|]); rewrite C; reflexivity. }
  split; [exact Y|]. split; [exact M|].
  unfold DateFromDay. rewrite Y, M. lia.
Qed.

Lemma Day_within t d : d * msPerDay <= t < d * msPerDay + msPerDay -> Day t = d.
Proof.
  unfold Day, msPerDay. intros H. symmetry. apply (Z.div_unique t 86400000 d (t - d * 86400000)); lia.
Qed.

Lemma append_sep_nonempty a c b : (a ++ String c b)%string <> "".
Proof. destruct a; discriminate. Qed.

Lemma truthy_nonempty t : t <> "" -> truthy (Some t) = true.
Proof. intros H. simpl. destruct (String.eqb_spec t ""); [contradiction|reflexivity]. Qed.

Lemma trunc_integer z : trunc (z # 1) = z.
Proof. unfold trunc. simpl. apply Z.quot_1_r. Qed.

Section WellFormedDates.

Variable LocalTZA : Z -> bool -> Z.
Hypothesis zone : sane_time_zone LocalTZA.

(** A Date built at the first of a month reads back as that month and year. *)
Lemma first_of_month_reads y k :
  1000 <= y <= 9999 -> 0 <= k <= 98 ->
  toLocaleDateString_short LocalTZA (Date_ym LocalTZA (Fin (y # 1)) (Fin (k # 1)))
  = month_abbr (k mod 12) ++ " " ++ decimal (y + k / 12).
Proof.
  intros Hy Hk. destruct zone as [Hoff Hback].
  unfold Date_ym. rewrite !trunc_integer.
  replace ((0 <=? y) && (y <=? 99)) with false by (symmetry; apply andb_false_iff; right; lia).
  destruct (first_day_fields y k) as (FY & FM & _).
  set (d := MakeDay y k 1) in *.
  assert (Hd : Z.abs d < 10000000).
  { assert (Q : 0 <= k / 12 <= 8) by (Z.to_euclidean_division_equations; lia).
    assert (R : 0 <= k mod 12 < 12) by (apply Z.mod_pos_bound; lia).
    subst d. unfold MakeDay.
    assert (S : 0 <= month_start (InLeapYear (y + k / 12)) (k mod 12) <= 366).
    { assert (C : k mod 12 = 0 \/ k mod 12 = 1 \/ k mod 12 = 2 \/ k mod 12 = 3 \/
                  k mod 12 = 4 \/ k mod 12 = 5 \/ k mod 12 = 6 \/ k mod 12 = 7 \/
                  k mod 12 = 8 \/ k mod 12 = 9 \/ k mod 12 = 10 \/ k mod 12 = 11) by lia.
      destruct (InLeapYear (y + k / 12));
        repeat (destruct C as [C|C]; [rewrite C; simpl; lia|]); rewrite C; simpl; lia. }
    unfold DayFromYear. Z.to_euclidean_division_equations; lia. }
  unfold MakeDate. rewrite Z.add_0_r.
  pose proof (Hoff (d * msPerDay) false) as O1.
  pose proof (Hback (d * msPerDay)) as B.
  unfold TimeClip.
  replace (8640000000000000 <? Z.abs (UTC LocalTZA (d * msPerDay))) with false
    by (symmetry; apply Z.ltb_ge; unfold UTC, msPerDay in *; lia).
  unfold toLocaleDateString_short, YearFromTime, MonthFromTime.
  rewrite (Day_within _ d) by lia. rewrite FY, FM.
  unfold year_numeric.
  replace (y + k / 12 <=? 0) with false; [reflexivity|].
  symmetry. apply Z.leb_gt.
  assert (0 <= k / 12) by (apply Z.div_pos; lia). lia.
Qed.

(** [formatDate] on [YYYY-MM] with a four-digit year and a month number from
    01 to 99. *)
Lemma formatDate_year_month y m :
  1000 <= y <= 9999 -> 1 <= m <= 99 ->
  formatDate LocalTZA (Some (year_month y m))
  = Ok (month_abbr ((m - 1) mod 12) ++ " " ++ decimal (y + (m - 1) / 12)).
Proof.
  intros Hy Hm.
  pose proof (range_check_spec _ _ _ y years_read Hy) as RY.
  pose proof (range_check_spec _ _ _ m months_read ltac:(lia)) as RM.
  unfold year_reads in RY. unfold month_reads in RM.
  apply andb_prop in RY. destruct RY as [RY _]. apply andb_prop in RY. destruct RY as [Sy Ny].
  apply andb_prop in RM. destruct RM as [RM Dm]. apply andb_prop in RM. destruct RM as [Sm Nm].
  apply number_eqb_eq in Ny, Nm, Dm.
  assert (Sp : split "-" (year_month y m) = [decimal y; pad2 m]).
  { unfold year_month. change ("-" ++ pad2 m) with (String "-" (pad2 m)).
    rewrite split_at_sep by assumption. now rewrite split_no_sep. }
  unfold formatDate.
  rewrite truthy_nonempty by apply append_sep_nonempty. cbn [negb orb].
  destruct (String.eqb_spec (year_month y m) "Present") as [E|_].
  { rewrite E in Sp. discriminate Sp. }
  cbn [receiver]. rewrite Sp. cbn [map nth_error]. rewrite Ny, Nm, Dm.
  replace (truthy_number (Fin (y # 1))) with true
    by (unfold truthy_number, is_zero; simpl; symmetry; apply negb_true_iff, Z.eqb_neq; lia).
  replace (truthy_number (Fin (m # 1))) with true
    by (unfold truthy_number, is_zero; simpl; symmetry; apply negb_true_iff, Z.eqb_neq; lia).
  cbn [negb orb]. f_equal. apply first_of_month_reads; lia.
Qed.

End WellFormedDates.

(** ** [formatDate]: the fallback *)

Lemma unusable_is_falsy c : missing_or_non_numeric c -> falsy_component c.
Proof.
  destruct c as [x|]; simpl; [|trivial]. intros [E | E]; rewrite E; reflexivity.
Qed.

Lemma formatDate_falsy LocalTZA t :
  t <> "" ->
  falsy_component (component 0 t) \/ falsy_component (component 1 t) ->
  formatDate LocalTZA (Some t) = Ok t.
Proof.
  intros Ht H. unfold formatDate. rewrite truthy_nonempty by assumption. cbn [negb orb].
  destruct (String.eqb_spec t "Present") as [->|_]; [reflexivity|].
  cbn [receiver]. unfold component in H. rewrite !nth_error_map.
  destruct (nth_error (split "-" t) 0) as [a|]; cbn [option_map falsy_component] in *;
    destruct (nth_error (split "-" t) 1) as [b|]; cbn [option_map falsy_component] in *;
    try reflexivity.
  destruct H as [H|H]; rewrite H; cbn [negb orb]; [reflexivity|now rewrite orb_true_r].
Qed.

Lemma formatDate_fallback LocalTZA t :
  t <> "" ->
  missing_or_non_numeric (component 0 t) \/ missing_or_non_numeric (component 1 t) ->
  formatDate LocalTZA (Some t) = Ok t.
Proof.
  intros Ht [H|H]; apply formatDate_falsy; auto using unusable_is_falsy.
Qed.

Section FormatDateClaims.

Variable LocalTZA : Z -> bool -> Z.
Hypothesis zone : sane_time_zone LocalTZA.

(** C5.  [formatDate] turns [YYYY-MM], a year of four digits (1000 to 9999)
    and a month from 01 to 12, into the month's English abbreviation, a space
    and the year; it returns its input when the year or the month is
    missing, empty or not a number; it returns ["Present"] for ["Present"];
    and it never throws.  The host's time zone is taken to be a real one. *)
Theorem C5_formatDate :
  (forall y m, 1000 <= y <= 9999 -> 1 <= m <= 12 ->
     formatDate LocalTZA (Some (year_month y m))
     = Ok (nth (Z.to_nat (m - 1)) month_names "" ++ " " ++ decimal y)) /\
  formatDate LocalTZA (Some "2021-06") = Ok "Jun 2021" /\
  (forall t, t <> "" ->
     missing_or_non_numeric (component 0 t) \/ missing_or_non_numeric (component 1 t) ->
     formatDate LocalTZA (Some t) = Ok t) /\
  (forall v, exists r, formatDate LocalTZA v = Ok r) /\
  formatDate LocalTZA (Some "Present") = Ok "Present".
Proof.
  assert (A : forall y m, 1000 <= y <= 9999 -> 1 <= m <= 12 ->
     formatDate LocalTZA (Some (year_month y m))
     = Ok (nth (Z.to_nat (m - 1)) month_names "" ++ " " ++ decimal y)).
  { intros y m Hy Hm. rewrite (formatDate_year_month LocalTZA zone y m) by lia.
    rewrite Z.mod_small, Z.div_small, Z.add_0_r by lia.
    unfold month_abbr. f_equal. f_equal. apply nth_indep.
    change (List.length month_names) with 12%nat. lia. }
  split; [exact A|]. split; [exact (A 2021 6 ltac:(lia) ltac:(lia))|].
  split; [intros; now apply formatDate_fallback|].
  split; [apply formatDate_returns|reflexivity].
Qed.

(** C10.  With a numeric month outside 1..12 [formatDate] does not fall back
    uniformly: month 00 counts as missing, and the input comes back; a month
    from 13 to 99 carries into the following years. *)
Theorem C10_month_out_of_range :
  (forall ys, no_sep "-" ys = true ->
     formatDate LocalTZA (Some (ys ++ "-00")) = Ok (ys ++ "-00")) /\
  formatDate LocalTZA (Some "2021-00") = Ok "2021-00" /\
  (forall y m, 1000 <= y <= 9999 -> 13 <= m <= 99 ->
     formatDate LocalTZA (Some (year_month y m))
     = Ok (month_abbr ((m - 1) mod 12) ++ " " ++ decimal (y + (m - 1) / 12)) /\
     y < y + (m - 1) / 12) /\
  formatDate LocalTZA (Some "2021-13") = Ok "Jan 2022".
Proof.
  assert (A : forall y m, 1000 <= y <= 9999 -> 13 <= m <= 99 ->
     formatDate LocalTZA (Some (year_month y m))
     = Ok (month_abbr ((m - 1) mod 12) ++ " " ++ decimal (y + (m - 1) / 12)) /\
     y < y + (m - 1) / 12).
  { intros y m Hy Hm. split; [apply (formatDate_year_month LocalTZA zone); lia|].
    assert (1 <= (m - 1) / 12) by (apply Z.div_le_lower_bound; lia). lia. }
  split; [|split; [reflexivity|split; [exact A|]]].
  - intros ys Hs. apply formatDate_falsy; [apply append_sep_nonempty|].
    right. unfold component. change (ys ++ "-00") with (ys ++ String "-" "00").
    rewrite split_at_sep by assumption. reflexivity.
  - exact (proj1 (A 2021 13 ltac:(lia) ltac:(lia))).
Qed.

End FormatDateClaims.

(** ** The education date *)

Lemma years_written : range_check 1000 9999 year_written = true.
Proof. vm_compute. reflexivity. Qed.

Lemma months_written : range_check 1 12 month_written = true.
Proof. vm_compute. reflexivity. Qed.

Lemma substring_all r : substring 0 (String.length r) r = r.
Proof. induction r as [|c r IH]; simpl; [reflexivity|now rewrite IH]. Qed.

Lemma append_assoc (a b c : string) : ((a ++ b) ++ c = a ++ (b ++ c))%string.
Proof. induction a as [|x a IH]; simpl; [reflexivity|now rewrite IH]. Qed.

Lemma substring_none r : substring 0 0 r = "".
Proof. destruct r; reflexivity. Qed.

Lemma span_digits_all t :
  forallb is_digit (list_ascii_of_string t) = true ->
  span_digits t = (t, "").
Proof.
  induction t as [|c t IH]; simpl; [reflexivity|].
  intros H. apply andb_prop in H. destruct H as [Hc Ht].
  rewrite Hc, IH by assumption. reflexivity.
Qed.

Lemma fixed_digits_4 t v r :
  String.length t = 4%nat -> digits_read t v = true ->
  fixed_digits 4 (t ++ r) = Some (v, r).
Proof.
  intros Hl Hd. unfold digits_read in Hd. apply andb_prop in Hd. destruct Hd as [Hs Hv].
  destruct t as [|a [|b [|c [|d [|e t]]]]]; try discriminate Hl.
  unfold fixed_digits.
  cbn [substring append String.length Nat.sub].
  rewrite substring_none, Nat.sub_0_r, substring_all, (span_digits_all _ Hs). cbn [fst String.length Nat.eqb].
  rewrite String.eqb_refl. cbn [andb].
  destruct (digits_value 10 0 (String a (String b (String c (String d ""))))) as [v'|];
    [|discriminate]. apply Z.eqb_eq in Hv. now subst.
Qed.

Lemma fixed_digits_2 t v r :
  String.length t = 2%nat -> digits_read t v = true ->
  fixed_digits 2 (t ++ r) = Some (v, r).
Proof.
  intros Hl Hd. unfold digits_read in Hd. apply andb_prop in Hd. destruct Hd as [Hs Hv].
  destruct t as [|a [|b [|e t]]]; try discriminate Hl.
  unfold fixed_digits.
  cbn [substring append String.length Nat.sub].
  rewrite substring_none, Nat.sub_0_r, substring_all, (span_digits_all _ Hs). cbn [fst String.length Nat.eqb].
  rewrite String.eqb_refl. cbn [andb].
  destruct (digits_value 10 0 (String a (String b ""))) as [v'|];
    [|discriminate]. apply Z.eqb_eq in Hv. now subst.
Qed.

Lemma days_in_month y k : 0 <= k <= 11 -> 28 <= DaysInMonth y k.
Proof.
  intros Hk. unfold DaysInMonth.
  assert (C : k = 0 \/ k = 1 \/ k = 2 \/ k = 3 \/ k = 4 \/ k = 5 \/ k = 6 \/
              k = 7 \/ k = 8 \/ k = 9 \/ k = 10 \/ k = 11) by lia.
  destruct (InLeapYear y);
    repeat (destruct C as [C|C]; [rewrite C; simpl; lia|]); rewrite C; simpl; lia.
Qed.

Lemma DayFromYear_bound y : 1000 <= y <= 10008 -> Z.abs (DayFromYear y) < 9000000.
Proof. intros H. unfold DayFromYear. Z.to_euclidean_division_equations; lia. Qed.

(** [YYYY-MM-01] is midnight UTC on the first day of that month. *)
Lemma first_of_month_parses legacyParse y m :
  1000 <= y <= 9999 -> 1 <= m <= 12 ->
  Date_parse legacyParse (year_month y m ++ "-01") = Some (MakeDay y (m - 1) 1 * msPerDay).
Proof.
  intros Hy Hm.
  pose proof (range_check_spec _ _ _ y years_written Hy) as RY.
  pose proof (range_check_spec _ _ _ m months_written Hm) as RM.
  unfold year_written in RY. unfold month_written in RM.
  apply andb_prop in RY, RM. destruct RY as [Ly Dy], RM as [Lm Dm].
  apply Nat.eqb_eq in Ly, Lm.
  assert (F : iso_fields (year_month y m ++ "-01") = Some (y, m, 1)).
  { unfold iso_fields, iso_year, year_month.
    rewrite !append_assoc.
    destruct (decimal y) as [|c t] eqn:E; [discriminate Ly|].
    assert (Hc : is_digit c = true).
    { unfold digits_read in Dy. apply andb_prop in Dy. destruct Dy as [Dy _].
      simpl in Dy. now apply andb_prop in Dy. }
    cbn [append]. unfold is_digit in Hc. apply andb_prop in Hc. destruct Hc as [Hc _].
    apply Z.leb_le in Hc.
    replace (code c =? 43) with false by (symmetry; apply Z.eqb_neq; lia).
    replace (code c =? 45) with false by (symmetry; apply Z.eqb_neq; lia).
    change (String c (t ++ String "-" (pad2 m ++ "-01")))
      with (String c t ++ String "-" (pad2 m ++ "-01")).
    rewrite (fixed_digits_4 _ y) by assumption.
    cbn [dash_field]. change (code "-" =? 45) with true. cbv iota.
    rewrite (fixed_digits_2 _ m) by assumption. reflexivity. }
  unfold Date_parse, iso_date_only. rewrite F.
  pose proof (days_in_month y (m - 1) ltac:(lia)) as D.
  replace ((1 <=? m) && (m <=? 12) && (1 <=? 1) && (1 <=? DaysInMonth y (m - 1))) with true
    by (symmetry; rewrite !andb_true_iff, !Z.leb_le; lia).
  unfold MakeDate, TimeClip. rewrite Z.add_0_r.
  replace (8640000000000000 <? Z.abs (MakeDay y (m - 1) 1 * msPerDay)) with false;
    [reflexivity|].
  symmetry. apply Z.ltb_ge. unfold MakeDay.
  rewrite Z.div_small, Z.mod_small, Z.add_0_r by lia.
  pose proof (DayFromYear_bound y ltac:(lia)) as B.
  assert (S : 0 <= month_start (InLeapYear y) (m - 1) <= 366).
  { assert (C : m = 1 \/ m = 2 \/ m = 3 \/ m = 4 \/ m = 5 \/ m = 6 \/ m = 7 \/
                m = 8 \/ m = 9 \/ m = 10 \/ m = 11 \/ m = 12) by lia.
    destruct (InLeapYear y);
      repeat (destruct C as [C|C]; [rewrite C; simpl; lia|]); rewrite C; simpl; lia. }
  unfold msPerDay. lia.
Qed.

Lemma formatDate_nonempty LocalTZA d r :
  formatDate LocalTZA (Some d) = Ok r -> r <> "".
Proof.
  unfold formatDate.
  destruct (negb (truthy (Some d)) || String.eqb d "Present") eqn:E.
  - intros H. inversion H. simpl. destruct (String.eqb_spec d ""); congruence.
  - apply orb_false_elim in E. destruct E as [E _]. apply negb_false_iff in E.
    simpl in E. apply negb_true_iff in E. apply String.eqb_neq in E.
    cbn [receiver].
    destruct (nth_error (map Number (split "-" d)) 0) as [yr|]; [|congruence].
    destruct (nth_error (map Number (split "-" d)) 1) as [mo|]; [|congruence].
    destruct (negb (truthy_number yr) || negb (truthy_number mo)); [congruence|].
    intros H. inversion H. unfold toLocaleDateString_short.
    destruct (Date_ym LocalTZA yr (sub mo (int 1))); [|discriminate].
    apply append_sep_nonempty.
Qed.

Lemma DayFromYear_mono y y' : y <= y' -> DayFromYear y <= DayFromYear y'.
Proof. intros H. unfold DayFromYear. Z.to_euclidean_division_equations; lia. Qed.

Lemma year_length y : 365 <= DayFromYear (y + 1) - DayFromYear y <= 366.
Proof. rewrite DayFromYear_next. destruct (InLeapYear y); lia. Qed.

(** The year of a day holds the day. *)
Lemma YearFromDay_holds d :
  DayFromYear (YearFromDay d) <= d < DayFromYear (YearFromDay d + 1).
Proof.
  unfold YearFromDay. set (y0 := 1970 + d * 400 / 146097).
  assert (E : DayFromYear (y0 - 1) <= d < DayFromYear (y0 + 2)).
  { subst y0. unfold DayFromYear. Z.to_euclidean_division_equations; lia. }
  destruct (Z.ltb_spec d (DayFromYear y0)).
  - replace (y0 - 1 + 1) with y0 by lia. lia.
  - destruct (Z.leb_spec (DayFromYear (y0 + 1)) d).
    + replace (y0 + 1 + 1) with (y0 + 2) by lia. lia.
    + lia.
Qed.

Lemma month_start_steps leap :
  month_start leap 0 = 0 /\
  month_start leap 0 < month_start leap 1 /\ month_start leap 1 < month_start leap 2 /\
  month_start leap 2 < month_start leap 3 /\ month_start leap 3 < month_start leap 4 /\
  month_start leap 4 < month_start leap 5 /\ month_start leap 5 < month_start leap 6 /\
  month_start leap 6 < month_start leap 7 /\ month_start leap 7 < month_start leap 8 /\
  month_start leap 8 < month_start leap 9 /\ month_start leap 9 < month_start leap 10 /\
  month_start leap 10 < month_start leap 11 /\ month_start leap 11 < month_start leap 12 /\
  month_start leap 12 = if leap then 366 else 365.
Proof. destruct leap; cbn; lia. Qed.

(** The month of a day holds the day. *)
Lemma MonthFromDay_holds d :
  let y := YearFromDay d in
  let m := MonthFromDay d in
  0 <= m <= 11 /\
  month_start (InLeapYear y) m <= d - DayFromYear y < month_start (InLeapYear y) (m + 1).
Proof.
  cbv zeta. pose proof (YearFromDay_holds d) as Y.
  pose proof (DayFromYear_next (YearFromDay d)) as N.
  unfold MonthFromDay.
  set (y := YearFromDay d) in *. set (k := d - DayFromYear y).
  set (leap := InLeapYear y) in *.
  pose proof (month_start_steps leap) as S.
  assert (K : 0 <= k < month_start leap 12) by (subst k; destruct leap; lia).
  clearbody k leap. clear N Y.
  repeat match goal with
         | |- context [ ?a <? ?b ] => destruct (Z.ltb_spec a b)
         end; cbn [Z.add Pos.add Pos.succ]; lia.
Qed.

Lemma valid_day_of_month d :
  day_exists (YearFromDay d) (MonthFromDay d + 1) (DateFromDay d).
Proof.
  unfold day_exists, DaysInMonth, DateFromDay.
  pose proof (MonthFromDay_holds d) as M. cbv zeta in M.
  replace (MonthFromDay d + 1 - 1) with (MonthFromDay d) by lia. lia.
Qed.

(** A day is the day of its year, month and day of the month. *)
Lemma day_of_fields d :
  d = MakeDay (YearFromDay d) (MonthFromDay d) (DateFromDay d).
Proof.
  pose proof (MonthFromDay_holds d) as M. cbv zeta in M.
  unfold MakeDay. rewrite Z.div_small, Z.mod_small, Z.add_0_r by lia.
  unfold DateFromDay. lia.
Qed.

Lemma month_start_mono leap a b :
  0 <= a -> a <= b -> b <= 12 -> month_start leap a <= month_start leap b.
Proof.
  intros H0 H1 H2.
  assert (Ca : a = 0 \/ a = 1 \/ a = 2 \/ a = 3 \/ a = 4 \/ a = 5 \/ a = 6 \/ a = 7 \/
               a = 8 \/ a = 9 \/ a = 10 \/ a = 11 \/ a = 12) by lia.
  assert (Cb : b = 0 \/ b = 1 \/ b = 2 \/ b = 3 \/ b = 4 \/ b = 5 \/ b = 6 \/ b = 7 \/
               b = 8 \/ b = 9 \/ b = 10 \/ b = 11 \/ b = 12) by lia.
  pose proof (month_start_steps leap) as S.
  repeat (destruct Ca as [Ca|Ca]; [rewrite Ca in *;
    repeat (destruct Cb as [Cb|Cb]; [rewrite Cb in *; lia|]); rewrite Cb in *; lia|]).
  rewrite Ca in *.
  repeat (destruct Cb as [Cb|Cb]; [rewrite Cb in *; lia|]); rewrite Cb in *; lia.
Qed.

(** The fields of a day that exists. *)
Lemma fields_of_day y m d :
  1 <= m <= 12 -> day_exists y m d ->
  YearFromDay (MakeDay y (m - 1) d) = y /\
  MonthFromDay (MakeDay y (m - 1) d) = m - 1 /\
  DateFromDay (MakeDay y (m - 1) d) = d.
Proof.
  intros Hm [D1 D2]. unfold DaysInMonth in D2. replace (m - 1 + 1) with m in D2 by lia.
  unfold MakeDay. rewrite Z.div_small, Z.mod_small, Z.add_0_r by lia.
  set (leap := InLeapYear y) in *.
  pose proof (month_start_mono leap 0 (m - 1) ltac:(lia) ltac:(lia) ltac:(lia)) as L0.
  pose proof (month_start_mono leap m 12 ltac:(lia) ltac:(lia) ltac:(lia)) as L1.
  pose proof (month_start_steps leap) as S.
  pose proof (DayFromYear_next y) as N. fold leap in N.
  assert (Y : YearFromDay (DayFromYear y + month_start leap (m - 1) + d - 1) = y).
  { replace (DayFromYear y + month_start leap (m - 1) + d - 1)
      with (DayFromYear y + (month_start leap (m - 1) + d - 1)) by lia.
    apply YearFromDay_spec. rewrite N. destruct leap; lia. }
  assert (M : MonthFromDay (DayFromYear y + month_start leap (m - 1) + d - 1) = m - 1).
  { pose proof (MonthFromDay_holds (DayFromYear y + month_start leap (m - 1) + d - 1)) as H.
    cbv zeta in H. rewrite Y in H. fold leap in H.
    set (k := MonthFromDay _) in *. destruct H as [Hk [Hlo Hhi]].
    destruct (Z.lt_trichotomy k (m - 1)) as [C|[C|C]]; [|exact C|].
    - pose proof (month_start_mono leap (k + 1) (m - 1) ltac:(lia) ltac:(lia) ltac:(lia)). lia.
    - pose proof (month_start_mono leap m k ltac:(lia) ltac:(lia) ltac:(lia)). lia. }
  split; [exact Y|]. split; [exact M|].
  unfold DateFromDay. rewrite Y, M. fold leap. lia.
Qed.

(** Days are in the order of the calendar. *)
Lemma day_order a b :
  (a <? b) =
  (YearFromDay a <? YearFromDay b) || ((YearFromDay a =? YearFromDay b) &&
    ((MonthFromDay a <? MonthFromDay b) || ((MonthFromDay a =? MonthFromDay b) &&
      (DateFromDay a <? DateFromDay b)))).
Proof.
  pose proof (YearFromDay_holds a) as Ya. pose proof (YearFromDay_holds b) as Yb.
  pose proof (MonthFromDay_holds a) as Ma. pose proof (MonthFromDay_holds b) as Mb.
  cbv zeta in Ma, Mb. unfold DateFromDay.
  set (ya := YearFromDay a) in *. set (yb := YearFromDay b) in *.
  set (ma := MonthFromDay a) in *. set (mb := MonthFromDay b) in *.
  destruct (Z.ltb_spec ya yb) as [Hy|Hy]; cbn [orb].
  { pose proof (DayFromYear_mono (ya + 1) yb ltac:(lia)). apply Z.ltb_lt. lia. }
  destruct (Z.eqb_spec ya yb) as [Ey|Ey]; cbn [andb].
  2:{ pose proof (DayFromYear_mono (yb + 1) ya ltac:(lia)). apply Z.ltb_ge. lia. }
  rewrite Ey in *. set (leap := InLeapYear yb) in *.
  destruct (Z.ltb_spec ma mb) as [Hm|Hm]; cbn [orb].
  { pose proof (month_start_mono leap (ma + 1) mb ltac:(lia) ltac:(lia) ltac:(lia)).
    apply Z.ltb_lt. lia. }
  destruct (Z.eqb_spec ma mb) as [Em|Em]; cbn [andb].
  2:{ pose proof (month_start_mono leap (mb + 1) ma ltac:(lia) ltac:(lia) ltac:(lia)).
      apply Z.ltb_ge. lia. }
  rewrite Em.
  destruct (Z.ltb_spec a b), (Z.ltb_spec (a - DayFromYear yb - month_start leap mb + 1)
                                          (b - DayFromYear yb - month_start leap mb + 1));
    try reflexivity; lia.
Qed.

(** Time values are in the order of calendar and clock. *)
Lemma time_order a b : (a <? b) = civil_ltb (fields a) (fields b).
Proof.
  unfold fields, civil_ltb, YearFromTime, MonthFromTime, DateFromTime, TimeWithinDay.
  pose proof (day_order (Day a) (Day b)) as D.
  assert (A : a = Day a * msPerDay + a mod msPerDay)
    by (unfold Day, msPerDay; Z.to_euclidean_division_equations; lia).
  assert (B : b = Day b * msPerDay + b mod msPerDay)
    by (unfold Day, msPerDay; Z.to_euclidean_division_equations; lia).
  assert (Ra : 0 <= a mod msPerDay < msPerDay) by (apply Z.mod_pos_bound; reflexivity).
  assert (Rb : 0 <= b mod msPerDay < msPerDay) by (apply Z.mod_pos_bound; reflexivity).
  set (da := Day a) in *. set (db := Day b) in *.
  set (ta := a mod msPerDay) in *. set (tb := b mod msPerDay) in *.
  assert (E : (a <? b) = (da <? db) || ((da =? db) && (ta <? tb))).
  { rewrite A, B. unfold msPerDay in *.
    destruct (Z.ltb_spec da db), (Z.eqb_spec da db), (Z.ltb_spec ta tb); cbn;
      first [apply Z.ltb_lt|apply Z.ltb_ge]; lia. }
  rewrite E, D.
  assert (Q : (da =? db) =
              (YearFromDay da =? YearFromDay db) && ((MonthFromDay da =? MonthFromDay db) &&
                (DateFromDay da =? DateFromDay db))).
  { destruct (Z.eqb_spec da db) as [->|N].
    - now rewrite !Z.eqb_refl.
    - symmetry. apply andb_false_iff.
      destruct (Z.eqb_spec (YearFromDay da) (YearFromDay db)) as [Ey|]; [right|now left].
      apply andb_false_iff.
      destruct (Z.eqb_spec (MonthFromDay da) (MonthFromDay db)) as [Em|]; [right|now left].
      apply Z.eqb_neq. intros Ed. apply N.
      rewrite (day_of_fields da), (day_of_fields db). congruence. }
  rewrite Q.
  replace (MonthFromDay da + 1 <? MonthFromDay db + 1) with (MonthFromDay da <? MonthFromDay db)
    by (destruct (Z.ltb_spec (MonthFromDay da) (MonthFromDay db)),
                 (Z.ltb_spec (MonthFromDay da + 1) (MonthFromDay db + 1)); try reflexivity; lia).
  replace (MonthFromDay da + 1 =? MonthFromDay db + 1) with (MonthFromDay da =? MonthFromDay db)
    by (destruct (Z.eqb_spec (MonthFromDay da) (MonthFromDay db)),
                 (Z.eqb_spec (MonthFromDay da + 1) (MonthFromDay db + 1)); try reflexivity; lia).
  destruct (YearFromDay da <? YearFromDay db), (YearFromDay da =? YearFromDay db),
           (MonthFromDay da <? MonthFromDay db), (MonthFromDay da =? MonthFromDay db),
           (DateFromDay da <? DateFromDay db), (DateFromDay da =? DateFromDay db),
           (ta <? tb); reflexivity.
Qed.

Lemma fields_of_time y m d t :
  1 <= m <= 12 -> day_exists y m d -> 0 <= t < msPerDay ->
  fields (MakeDate (MakeDay y (m - 1) d) t) = (y, m, d, t).
Proof.
  intros Hm Hd Ht. destruct (fields_of_day y m d Hm Hd) as (Y & M & D).
  unfold fields, YearFromTime, MonthFromTime, DateFromTime, TimeWithinDay, MakeDate.
  rewrite (Day_within _ (MakeDay y (m - 1) d)) by lia.
  rewrite Y, M, D. repeat f_equal; [lia|].
  rewrite Z.add_comm, Z.mod_add by discriminate. apply Z.mod_small. exact Ht.
Qed.

Lemma first_day_exists y m : 1 <= m <= 12 -> day_exists y m 1.
Proof.
  intros Hm. unfold day_exists. pose proof (days_in_month y (m - 1) ltac:(lia)). lia.
Qed.

Section EducationDate.

Variable pageWidth : number.
Variable LocalTZA : Z -> bool -> Z.
Variable legacyParse : string -> option Z.
Variable clock : Z * Z.

(** [threeYearsAgo] is three years before the clock. *)
Lemma threeYearsAgo_spec : threeYearsAgo LocalTZA clock = years_before LocalTZA 3 clock.
Proof.
  unfold threeYearsAgo, setFullYear, getFullYear, years_before, reading, shown, fields.
  now rewrite Z.add_simpl_r.
Qed.

(** In a zone of constant offset, the test of the education date compares
    calendar dates: what the local clock shows at midnight UTC on the first
    day of the month, and the reading of the clock with its year lowered by
    three. *)
Lemma threshold_on_the_clock off y m :
  (forall t b, LocalTZA t b = off) ->
  (let '(Y, M, D, _) := reading LocalTZA clock in day_exists (Y - 3) M D) ->
  years_before LocalTZA 3 clock <> None ->
  date_ltb (Some (first_day_utc y m)) (years_before LocalTZA 3 clock)
  = isOlderThanThreshold (shown LocalTZA (first_day_utc y m)) (reading LocalTZA clock) 3.
Proof.
  intros Hz. unfold years_before, isOlderThanThreshold.
  assert (R : exists Y M D T, reading LocalTZA clock = (Y, M, D, T) /\
                              1 <= M <= 12 /\ 0 <= T < msPerDay).
  { unfold reading, shown, fields. do 4 eexists. split; [reflexivity|]. split.
    - pose proof (MonthFromDay_holds (Day (LocalTime LocalTZA (snd clock)))) as H.
      cbv zeta in H. unfold MonthFromTime. lia.
    - apply Z.mod_pos_bound. reflexivity. }
  destruct R as (Y & M & D & T & -> & HM & HT). intros Hd Hc.
  set (L := MakeDate (MakeDay (Y - 3) (M - 1) D) T) in *.
  unfold UTC in *. rewrite Hz in *.
  unfold TimeClip in *. destruct (8640000000000000 <? Z.abs (L - off)); [now elim Hc|].
  cbn [date_ltb].
  replace (first_day_utc y m <? L - off) with (first_day_utc y m + off <? L)
    by (destruct (Z.ltb_spec (first_day_utc y m + off) L),
                 (Z.ltb_spec (first_day_utc y m) (L - off)); try reflexivity; lia).
  rewrite time_order. unfold L. rewrite fields_of_time by assumption.
  unfold shown, LocalTime. rewrite Hz. reflexivity.
Qed.

(** East of Greenwich the local clock shows the offset on the first day of
    the month at midnight UTC; in the zone UTC it shows midnight. *)
Lemma first_day_shown off y m :
  (forall t b, LocalTZA t b = off) -> 0 <= off < msPerDay -> 1 <= m <= 12 ->
  shown LocalTZA (first_day_utc y m) = (y, m, 1, off).
Proof.
  intros Hz Ho Hm. unfold shown, LocalTime. rewrite Hz. unfold first_day_utc.
  replace (MakeDate (MakeDay y (m - 1) 1) 0 + off) with (MakeDate (MakeDay y (m - 1) 1) off)
    by (unfold MakeDate; lia).
  exact (fields_of_time y m 1 off Hm (first_day_exists y m Hm) Ho).
Qed.


End EducationDate.


(** ** Loading and saving *)

Lemma get_None {V} k (o : list (string * V)) : ~ In k (map fst o) -> get k o = None.
Proof.
  induction o as [|[k' v] tl IH]; simpl; [reflexivity|]. intros H.
  destruct (String.eqb_spec k' k); [exfalso; auto|]. apply IH. tauto.
Qed.

Lemma schema_keys_plain k :
  In k (contact_fields ++ education_fields ++ experience_fields)%list -> plain_key k = true.
Proof.
  revert k. apply forallb_forall. vm_compute. reflexivity.
Qed.

Lemma new_Set_fresh_from {A} (l acc : list (addr * A)) :
  NoDup (map fst (acc ++ l)%list) ->
  fold_left (fun s x => set_add x s) l acc = (acc ++ l)%list.
Proof.
  revert acc. induction l as [|x tl IH]; intros acc H; simpl; [now rewrite app_nil_r|].
  unfold set_add at 2.
  assert (N : existsb (Nat.eqb (fst x)) (map fst acc) = false).
  { apply not_true_is_false. intros E. apply existsb_exists in E.
    destruct E as [a [Ha E]]. apply Nat.eqb_eq in E. subst a.
    rewrite map_app in H. simpl in H. apply NoDup_remove_2 in H.
    apply H. apply in_or_app. now left. }
  rewrite N, IH; [now rewrite <- app_assoc|]. now rewrite <- app_assoc.
Qed.

(** A [Set] built from objects at distinct addresses keeps them all. *)
Lemma new_Set_fresh {A} (l : list (addr * A)) : NoDup (map fst l) -> new_Set l = l.
Proof. intros H. unfold new_Set. now rewrite new_Set_fresh_from. Qed.

Lemma map_alloc_spec {A B} (f : A -> B) l : forall next,
  map_alloc f next l = (combine (seq next (List.length l)) (map f l), (next + List.length l)%nat).
Proof.
  induction l as [|x tl IH]; intros next; simpl; [now rewrite Nat.add_0_r|].
  rewrite IH. f_equal. lia.
Qed.

Lemma allocated_addresses {A} (l : list A) : forall next,
  map fst (combine (seq next (List.length l)) l) = seq next (List.length l) /\
  map snd (combine (seq next (List.length l)) l) = l.
Proof.
  induction l as [|x tl IH]; intros next; simpl; [split; reflexivity|].
  destruct (IH (S next)) as [F S]. now rewrite F, S.
Qed.

Lemma allocated_set {A} next (l : list A) :
  Array_from (new_Set (combine (seq next (List.length l)) l)) = l.
Proof.
  destruct (allocated_addresses l next) as [F S].
  assert (N : NoDup (map fst (combine (seq next (List.length l)) l)))
    by (rewrite F; apply seq_NoDup).
  rewrite (new_Set_fresh (combine (seq next (List.length l)) l) N). exact S.
Qed.

Lemma allocated_map_set {A B} (f : A -> B) next (l : list A) :
  Array_from (new_Set (combine (seq next (List.length l)) (map f l))) = map f l.
Proof. rewrite <- (length_map f l). apply allocated_set. Qed.

Section RoundTrip.

Variable builtin_text : string -> string.
Variable capitalize_unicode : string -> string.

Lemma mapKeyToProperty_plain k :
  plain_key k = true -> mapKeyToProperty builtin_text capitalize_unicode k = k.
Proof.
  unfold plain_key. intros H. apply andb_prop in H. destruct H as [H _].
  apply andb_prop in H. destruct H as [Hs Hi]. apply negb_true_iff in Hi.
  unfold mapKeyToProperty, lookup.
  assert (G : get k overrides = None).
  { unfold overrides. cbn [get].
    destruct (String.eqb_spec "contact-form-name-input" k) as [<-|_]; [discriminate Hs|].
    destruct (String.eqb_spec "contact-form-url-input" k) as [<-|_]; [discriminate Hs|].
    reflexivity. }
  rewrite G, Hi, (split_no_sep _ _ Hs). reflexivity.
Qed.

Lemma set_plain k v (o : obj) :
  plain_key k = true -> ~ In k (map fst o) -> set k v o = (o ++ [ (k, v) ])%list.
Proof.
  intros H Hn. unfold set. rewrite (get_None k o Hn).
  unfold plain_key in H. apply andb_prop in H. destruct H as [H Ha].
  apply andb_prop in H. destruct H as [_ Hi].
  destruct (String.eqb_spec k "__proto__") as [->|_]; [discriminate Hi|].
  destruct (array_index k); [discriminate Ha|reflexivity].
Qed.

Lemma migrate_from (item acc : obj) :
  NoDup (map fst (acc ++ item)%list) ->
  Forall (fun k => plain_key k = true) (map fst item) ->
  fold_left (fun migrated kv =>
               set (mapKeyToProperty builtin_text capitalize_unicode (fst kv)) (snd kv) migrated)
            item acc
  = (acc ++ item)%list.
Proof.
  revert acc. induction item as [|[k v] tl IH]; intros acc Hd Hp; simpl;
    [now rewrite app_nil_r|].
  inversion Hp as [|? ? Pk Ptl]; subst.
  rewrite (mapKeyToProperty_plain k Pk), set_plain; [|assumption|].
  - rewrite IH; [now rewrite <- app_assoc| |assumption]. now rewrite <- app_assoc.
  - rewrite map_app in Hd. simpl in Hd. apply NoDup_remove_2 in Hd.
    intros Hin. apply Hd. apply in_or_app. now left.
Qed.

(** A record of the schema migrates to itself. *)
Lemma migrateItem_record fields item :
  incl fields (contact_fields ++ education_fields ++ experience_fields)%list ->
  record_of fields item ->
  migrateItem builtin_text capitalize_unicode item = item.
Proof.
  intros Hf [Hd Hk]. unfold migrateItem. rewrite migrate_from; [reflexivity|exact Hd|].
  eapply Forall_impl; [|exact Hk]. intros k Hin. apply schema_keys_plain. now apply Hf.
Qed.

Lemma migrate_records fields l :
  incl fields (contact_fields ++ education_fields ++ experience_fields)%list ->
  Forall (record_of fields) l ->
  map (migrateItem builtin_text capitalize_unicode) l = l.
Proof.
  intros Hf H. induction H as [|x tl Hx _ IH]; simpl; [reflexivity|].
  now rewrite (migrateItem_record fields x Hf Hx), IH.
Qed.

Lemma or_default_Some v : v <> None -> Some (or_default v "") = v.
Proof.
  destruct v as [t|]; [|congruence]. intros _. simpl.
  destruct (String.eqb_spec t ""); [now subst|reflexivity].
Qed.

(** C4, as amended.  Loading a document that conforms to the schema and
    saving the state again gives back every field of the document but the
    version: the saved version is the one the state had before the load. *)
Theorem C4_round_trip_but_version next resume j :
  conforming j ->
  load_then_save builtin_text capitalize_unicode next resume j
  = with_version (version resume) j.
Proof.
  intros (Hv & Hn & He & Hp & Ha & (cs & Ec & Hc) & (es & Ee & Hes) & (xs & Ex & Hx) & Ht).
  destruct j as [jv jn je jp ja jc jed jx jt]. cbn [j_version j_name j_email j_phone
    j_additionalText j_contacts j_education j_experience j_tags] in *. subst jc jed jx.
  destruct jt as [ts|]; [|congruence].
  unfold load_then_save, JSON_parse. cbn [j_tags]. rewrite map_alloc_spec.
  unfold safeLoadResume. cbn [p_doc p_tags j_contacts j_education j_experience j_name j_email
    j_phone j_additionalText or_empty fst]. rewrite !map_alloc_spec.
  unfold resumeToSave, with_version.
  cbn [fst version name email phone additionalText contacts education experience tags].
  rewrite !allocated_map_set, map_id.
  rewrite (migrate_records contact_fields), (migrate_records education_fields),
    (migrate_records experience_fields); try assumption;
    try (intros k Hk; apply in_or_app; simpl in *; tauto).
  now rewrite !or_default_Some.
Qed.

End RoundTrip.

Lemma distinct_NoDup l : distinct l = true -> NoDup l.
Proof.
  induction l as [|x tl IH]; simpl; [constructor|].
  intros H. apply andb_prop in H. destruct H as [Hx Ht]. constructor; [|auto].
  intros Hin. apply negb_true_iff in Hx.
  assert (E : existsb (String.eqb x) tl = true).
  { apply existsb_exists. exists x. split; [assumption|apply String.eqb_refl]. }
  congruence.
Qed.

Lemma is_record_of_spec fields o : is_record_of fields o = true -> record_of fields o.
Proof.
  unfold is_record_of, record_of. intros H. apply andb_prop in H. destruct H as [Hd Hf].
  split; [now apply distinct_NoDup|].
  apply Forall_forall. intros k Hk. rewrite forallb_forall in Hf.
  specialize (Hf k Hk). apply existsb_exists in Hf. destruct Hf as [f [Hin E]].
  apply String.eqb_eq in E. now subst.
Qed.

Lemma are_records_of fields l :
  forallb (is_record_of fields) l = true -> Forall (record_of fields) l.
Proof.
  intros H. apply Forall_forall. intros o Ho. apply is_record_of_spec.
  rewrite forallb_forall in H. auto.
Qed.

Lemma old_document_conforms : conforming old_document.
Proof.
  unfold conforming, old_document.
  cbn [j_version j_name j_email j_phone j_additionalText j_contacts j_education
       j_experience j_tags].
  do 5 (split; [discriminate|]).
  split; [eexists; split; [reflexivity|apply are_records_of; reflexivity]|].
  split; [eexists; split; [reflexivity|apply are_records_of; reflexivity]|].
  split; [eexists; split; [reflexivity|apply are_records_of; reflexivity]|].
  discriminate.
Qed.

(** C4, as stated, fails: a document of version 0.9.0 conforms to the schema,
    and comes back from the initial state with version 1.0.0. *)
Lemma C4_version_is_not_restored :
  conforming old_document /\
  j_version (load_then_save (fun k => k) (fun k => k) 0%nat initial_resume old_document)
    = Some "1.0.0" /\
  load_then_save (fun k => k) (fun k => k) 0%nat initial_resume old_document <> old_document.
Proof.
  split; [exact old_document_conforms|]. split; [reflexivity|].
  intros H. apply (f_equal j_version) in H. vm_compute in H. discriminate H.
Qed.

(** ** The claims at concrete inputs *)

Lemma utc_is_sane : sane_time_zone utc.
Proof. unfold sane_time_zone, utc, LocalTime, UTC, msPerDay. split; intros; lia. Qed.

Lemma C4_round_trip_witness :
  conforming old_document /\
  load_then_save (fun k => k) (fun k => k) 0%nat initial_resume old_document
    = with_version (Some "1.0.0") old_document.
Proof.
  split; [exact old_document_conforms|].
  exact (C4_round_trip_but_version (fun k => k) (fun k => k) 0%nat initial_resume
           old_document old_document_conforms).
Defined.

Lemma C5_formatDate_witness :
  sane_time_zone utc /\ formatDate utc (Some "2021-06") = Ok "Jun 2021".
Proof.
  split; [exact utc_is_sane|].
  exact (proj1 (proj2 (C5_formatDate utc utc_is_sane))).
Defined.

Lemma C10_month_out_of_range_witness :
  sane_time_zone utc /\ formatDate utc (Some "2021-13") = Ok "Jan 2022".
Proof.
  split; [exact utc_is_sane|].
  exact (proj2 (proj2 (proj2 (C10_month_out_of_range utc utc_is_sane)))).
Defined.


(** C2 at the foot of a page: a certificate drawn at y = 279 breaks the
    page. *)
Lemma C2_page_break_checks_witness :
  fontSize foot_of_page = sectionFontSize /\
  exists s' drawn,
    educationEntry a4_width utc no_legacy a_clock a_certificate foot_of_page = Ok (tt, s') /\
    page_calls drawn = [] /\
    after_check [] (add (y foot_of_page) sectionLineHeight) foot_of_page s' drawn.
Proof.
  split; [reflexivity|].
  exact (proj1 (proj1 (C2_page_break_checks a4_width fixed_pitch no_wrap utc no_legacy
                         by_code_unit a_clock) foot_of_page eq_refl) a_certificate).
Defined.

Lemma C8_bullets_rendered_witness :
  fontSize section_state = sectionFontSize /\
  exists s' new,
    experienceEntry a4_width fixed_pitch no_wrap utc ten_lines_entry section_state
      = Ok (tt, s') /\
    calls s' = (new ++ calls section_state)%list /\
    List.length (drawn_bullets new) = 8%nat.
Proof.
  split; [reflexivity|].
  destruct (C8_bullets_rendered a4_width fixed_pitch no_wrap utc ten_lines_entry section_state
              eq_refl) as (s' & new & E & C & _ & _ & T).
  exists s', new. split; [exact E|]. split; [exact C|].
  apply (T ten_lines); [reflexivity|reflexivity|].
  unfold ten_lines.
  repeat (constructor; [split; [reflexivity|vm_compute; discriminate]|]). constructor.
Defined.

(** ** Further properties *)

(** With an empty or missing start date the range at the right of an entry
    reads "Present - " and the formatted end. *)
Theorem experienceRightText_empty_start LocalTZA exp :
  or_default (get "startDate" exp) "" = "" ->
  exists e,
    formatDate LocalTZA (Some (or_default (get "endDate" exp) "Present")) = Ok e /\
    experienceRightText LocalTZA exp = Ok ("Present - " ++ e).
Proof.
  intros H. unfold experienceRightText. rewrite H.
  destruct (formatDate_returns LocalTZA (Some (or_default (get "endDate" exp) "Present")))
    as [e He].
  exists e. split; [exact He|]. rewrite He. reflexivity.
Qed.

Lemma experienceRightText_empty_start_witness :
  or_default (get "startDate" untitled_link) "" = "" /\
  experienceRightText utc untitled_link = Ok "Present - Present".
Proof.
  split; [reflexivity|].
  destruct (experienceRightText_empty_start utc untitled_link eq_refl) as (e & He & R).
  rewrite R. f_equal. inversion He. reflexivity.
Defined.

Section EducationSort.

Variable localeCompare : string -> string -> number.
Hypothesis collation : consistent localeCompare.

(** The education records come out by date, latest first, records whose
    dates collate equal in their original order; nothing follows an undated
    record but records whose date does not collate after the empty string. *)
Theorem education_sort_order (resume : Resume) :
  Permutation (Array_from (education resume)) (sortedEducation localeCompare resume) /\
  StronglySorted (not_older localeCompare) (sortedEducation localeCompare resume) /\
  (forall x, filter (same_date localeCompare x) (sortedEducation localeCompare resume)
             = filter (same_date localeCompare x) (Array_from (education resume))) /\
  (forall l1 a l2 b l3,
     sortedEducation localeCompare resume = (l1 ++ a :: l2 ++ b :: l3)%list ->
     date_of a = "" -> sgn (localeCompare (date_of b) "") <= 0).
Proof.
  destruct collation as [anti trans]. unfold sortedEducation.
  assert (K : forall a b, keeps_before (educationCompare localeCompare) a b = true
                          <-> not_older localeCompare a b).
  { intros a b. rewrite keeps_before_sgn. unfold educationCompare, not_older, date_of.
    apply Z.leb_le. }
  assert (Hs : StronglySorted (not_older localeCompare)
                 (sort (educationCompare localeCompare) (Array_from (education resume)))).
  { apply (StronglySorted_on (fun _ => True)
             (fun a b => keeps_before (educationCompare localeCompare) a b = true)).
    - intros a b _ _. apply K.
    - apply Forall_forall. trivial.
    - apply (sort_sorted _ (fun _ => True)).
      + intros a b _ _ H. apply K.
        assert (N : ~ not_older localeCompare a b) by (intros C; apply K in C; congruence).
        unfold not_older in *. specialize (anti (date_of a) (date_of b)). lia.
      + intros a b c _ _ _ H1 H2. apply K. apply K in H1, H2. unfold not_older in *.
        eapply trans; eassumption.
      + apply Forall_forall. trivial. }
  split; [apply sort_perm|]. split; [exact Hs|]. split.
  - intros x. apply (sort_stable _ (fun _ => True)).
    + intros x0 a b _ _ Ha Hb. apply K. unfold same_date, not_older in *.
      apply Z.eqb_eq in Ha, Hb. apply (trans _ (date_of x0)); [lia|].
      rewrite anti. lia.
    + apply Forall_forall. trivial.
  - intros l1 a l2 b l3 E Hd. rewrite E in Hs. apply StronglySorted_before in Hs.
    unfold not_older in Hs. now rewrite Hd in Hs.
Qed.

End EducationSort.

Lemma education_sort_order_witness :
  consistent by_code_unit /\
  Permutation (Array_from (education many_certificates))
    (sortedEducation by_code_unit many_certificates).
Proof.
  split; [exact by_code_unit_consistent|].
  exact (proj1 (education_sort_order by_code_unit by_code_unit_consistent many_certificates)).
Defined.

Lemma padded_years_read : range_check 0 999 padded_year_reads = true.
Proof. vm_compute. reflexivity. Qed.

Section EarlyYears.

Variable LocalTZA : Z -> bool -> Z.
Hypothesis zone : sane_time_zone LocalTZA.

(** A Date built at the first of a month of a year from 100 on reads back as
    that month and year. *)
Lemma first_of_month_shown y k :
  100 <= y <= 9999 -> 0 <= k <= 11 ->
  toLocaleDateString_short LocalTZA (TimeClip (UTC LocalTZA (MakeDate (MakeDay y k 1) 0)))
  = month_abbr k ++ " " ++ decimal y.
Proof.
  intros Hy Hk. destruct zone as [Hoff Hback].
  destruct (first_day_fields y k) as (FY & FM & _).
  rewrite Z.div_small, Z.add_0_r in FY by lia. rewrite Z.mod_small in FM by lia.
  set (d := MakeDay y k 1) in *.
  assert (Hd : Z.abs d < 10000000).
  { subst d. unfold MakeDay. rewrite Z.div_small, Z.mod_small, Z.add_0_r by lia.
    assert (S : 0 <= month_start (InLeapYear y) k <= 366).
    { assert (C : k = 0 \/ k = 1 \/ k = 2 \/ k = 3 \/ k = 4 \/ k = 5 \/ k = 6 \/ k = 7 \/
                  k = 8 \/ k = 9 \/ k = 10 \/ k = 11) by lia.
      destruct (InLeapYear y);
        repeat (destruct C as [C|C]; [rewrite C; simpl; lia|]); rewrite C; simpl; lia. }
    unfold DayFromYear. Z.to_euclidean_division_equations; lia. }
  unfold MakeDate. rewrite Z.add_0_r.
  pose proof (Hoff (d * msPerDay) false) as O1.
  pose proof (Hback (d * msPerDay)) as B.
  unfold TimeClip.
  replace (8640000000000000 <? Z.abs (UTC LocalTZA (d * msPerDay))) with false
    by (symmetry; apply Z.ltb_ge; unfold UTC, msPerDay in *; lia).
  unfold toLocaleDateString_short, YearFromTime, MonthFromTime.
  rewrite (Day_within _ d) by lia. rewrite FY, FM.
  unfold year_numeric.
  replace (y <=? 0) with false; [reflexivity|]. symmetry. apply Z.leb_gt. lia.
Qed.

(** [formatDate] on a year from 1 to 999 written with four digits. *)
Lemma formatDate_padded_year y m :
  1 <= y <= 999 -> 1 <= m <= 12 ->
  formatDate LocalTZA (Some (pad4 y ++ "-" ++ pad2 m))
  = Ok (month_abbr (m - 1) ++ " " ++ decimal (if y <=? 99 then 1900 + y else y)).
Proof.
  intros Hy Hm.
  pose proof (range_check_spec _ _ _ y padded_years_read ltac:(lia)) as RY.
  pose proof (range_check_spec _ _ _ m months_read ltac:(lia)) as RM.
  unfold padded_year_reads in RY. unfold month_reads in RM.
  apply andb_prop in RY. destruct RY as [Sy Ny].
  apply andb_prop in RM. destruct RM as [RM Dm]. apply andb_prop in RM. destruct RM as [Sm Nm].
  apply number_eqb_eq in Ny, Nm, Dm.
  assert (Sp : split "-" (pad4 y ++ "-" ++ pad2 m) = [pad4 y; pad2 m]).
  { change ("-" ++ pad2 m) with (String "-" (pad2 m)).
    rewrite split_at_sep by assumption. now rewrite split_no_sep. }
  unfold formatDate.
  rewrite truthy_nonempty by apply append_sep_nonempty. cbn [negb orb].
  destruct (String.eqb_spec (pad4 y ++ "-" ++ pad2 m) "Present") as [E|_].
  { rewrite E in Sp. discriminate Sp. }
  cbn [receiver]. rewrite Sp. cbn [map nth_error]. rewrite Ny, Nm, Dm.
  replace (truthy_number (Fin (y # 1))) with true
    by (unfold truthy_number, is_zero; simpl; symmetry; apply negb_true_iff, Z.eqb_neq; lia).
  replace (truthy_number (Fin (m # 1))) with true
    by (unfold truthy_number, is_zero; simpl; symmetry; apply negb_true_iff, Z.eqb_neq; lia).
  cbn [negb orb]. f_equal. unfold Date_ym. rewrite !trunc_integer.
  replace (0 <=? y) with true by (symmetry; apply Z.leb_le; lia). cbn [andb].
  destruct (Z.leb_spec y 99); apply first_of_month_shown; lia.
Qed.

(** Years written with leading zeros.  The Date constructor reads a year
    from 1 to 99 as 1900 + year; a year from 100 to 999 is printed without
    the zeros; and the year [0000] counts as missing, so the input comes
    back whatever follows. *)
Theorem formatDate_early_years :
  (forall y m, 1 <= y <= 99 -> 1 <= m <= 12 ->
     formatDate LocalTZA (Some (pad4 y ++ "-" ++ pad2 m))
     = Ok (month_abbr (m - 1) ++ " " ++ decimal (1900 + y))) /\
  (forall y m, 100 <= y <= 999 -> 1 <= m <= 12 ->
     formatDate LocalTZA (Some (pad4 y ++ "-" ++ pad2 m))
     = Ok (month_abbr (m - 1) ++ " " ++ decimal y)) /\
  (forall rest, formatDate LocalTZA (Some ("0000-" ++ rest)) = Ok ("0000-" ++ rest)).
Proof.
  split; [|split].
  - intros y m Hy Hm. rewrite formatDate_padded_year by lia.
    replace (y <=? 99) with true by (symmetry; apply Z.leb_le; lia). reflexivity.
  - intros y m Hy Hm. rewrite formatDate_padded_year by lia.
    replace (y <=? 99) with false by (symmetry; apply Z.leb_gt; lia). reflexivity.
  - intros rest. apply formatDate_falsy; [discriminate|]. left.
    unfold component. change ("0000-" ++ rest) with ("0000" ++ String "-" rest).
    rewrite split_at_sep by reflexivity. reflexivity.
Qed.

End EarlyYears.

Lemma formatDate_early_years_witness :
  sane_time_zone utc /\
  formatDate utc (Some "0050-06") = Ok "Jun 1950" /\
  formatDate utc (Some "0999-06") = Ok "Jun 999" /\
  formatDate utc (Some "0000-06") = Ok "0000-06".
Proof.
  split; [exact utc_is_sane|].
  destruct (formatDate_early_years utc utc_is_sane) as (A & B & C).
  split; [exact (A 50 6 ltac:(lia) ltac:(lia))|].
  split; [exact (B 999 6 ltac:(lia) ltac:(lia))|exact (C "06")].
Defined.

(** * The rest of [app.js] *)

Import Forms Legacy Dates Dom Row Page Samples.

(** ** Keys of form fields and properties *)

Section KeyFacts.

Variable builtin_text : string -> string.
Variable capitalize_unicode : string -> string.
Variable lower_unicode : string -> string.


Lemma join_cons_char c hd l :
  join "" (String c hd :: l) = String c (join "" (hd :: l)).
Proof. destruct l; reflexivity. Qed.

Lemma capitalize_lower c r :
  is_upper c = true ->
  capitalize capitalize_unicode (String (lower_ascii c) r) = String c r.
Proof.
  destruct c as [[] [] [] [] [] [] [] []]; try discriminate; intros _; reflexivity.
Qed.

Lemma lower_not_dash c : (code c <? 128) = true -> Ascii.eqb c "-" = false ->
  Ascii.eqb (lower_ascii c) "-" = false.
Proof.
  destruct c as [[] [] [] [] [] [] [] []]; try discriminate; intros _ _; reflexivity.
Qed.

Lemma lower_fixed c : is_upper c = false -> lower_ascii c = c.
Proof. unfold lower_ascii. now intros ->. Qed.

Lemma is_ascii_hyphenate p : is_ascii (hyphenate p) = is_ascii p.
Proof.
  unfold is_ascii. induction p as [|c r IH]; simpl; [reflexivity|].
  destruct (is_upper c) eqn:U; simpl; rewrite IH; [|reflexivity].
  reflexivity.
Qed.

(** Splitting the hyphenated, lowered name at the dashes and capitalising
    all parts but the first gives the name back. *)
Lemma unhyphenate p :
  plain_name p = true ->
  exists hd tl, split "-" (map_string lower_ascii (hyphenate p)) = hd :: tl /\
                join "" (hd :: map (capitalize capitalize_unicode) tl) = p.
Proof.
  unfold plain_name, is_ascii, no_sep. induction p as [|c r IH].
  - intros _. exists "", []. split; reflexivity.
  - cbn [list_ascii_of_string forallb]. intros H.
    apply andb_prop in H. destruct H as [H1 H2].
    apply andb_prop in H1. destruct H1 as [Hc H1].
    apply andb_prop in H2. destruct H2 as [Hd H2].
    apply negb_true_iff in Hd.
    destruct IH as (hd & tl & S & J); [now rewrite H1, H2|].
    cbn [hyphenate]. destruct (is_upper c) eqn:U.
    + cbn [map_string split]. change (lower_ascii "-") with "-"%char.
      rewrite Ascii.eqb_refl, (lower_not_dash c Hc Hd), S.
      exists "", (String (lower_ascii c) hd :: tl). split; [reflexivity|].
      cbn [map]. rewrite capitalize_lower by assumption.
      change (join "" ("" :: String c hd :: map (capitalize capitalize_unicode) tl))
        with (join "" (String c hd :: map (capitalize capitalize_unicode) tl)).
      rewrite join_cons_char. now rewrite J.
    + cbn [map_string split]. rewrite (lower_fixed c U), Hd, S.
      exists (String c hd), tl. split; [reflexivity|].
      rewrite join_cons_char. now rewrite J.
Qed.

Lemma toLowerCase_plain p :
  plain_name p = true ->
  toLowerCase lower_unicode (hyphenate p) = map_string lower_ascii (hyphenate p).
Proof.
  intros H. unfold toLowerCase. rewrite is_ascii_hyphenate.
  unfold plain_name in H. apply andb_prop in H. now rewrite (proj1 H).
Qed.

Lemma lowered_injective p q :
  plain_name p = true -> plain_name q = true ->
  map_string lower_ascii (hyphenate p) = map_string lower_ascii (hyphenate q) -> p = q.
Proof.
  intros Hp Hq E.
  destruct (unhyphenate p Hp) as (h1 & t1 & S1 & J1).
  destruct (unhyphenate q Hq) as (h2 & t2 & S2 & J2).
  rewrite E, S2 in S1. inversion S1; subst h2 t2. congruence.
Qed.

Lemma form_prefix_cases prefix :
  form_prefix prefix = true ->
  prefix = "experience" \/ prefix = "education" \/ prefix = "contact".
Proof.
  unfold form_prefix. intros H. apply orb_prop in H. destruct H as [H|H].
  - apply orb_prop in H. destruct H as [H|H]; apply String.eqb_eq in H; auto.
  - apply String.eqb_eq in H; auto.
Qed.

(** The general form of the key: the special case for [degreeType] gives the
    same string. *)
Lemma mapPropertyToKey_general prefix property :
  mapPropertyToKey lower_unicode prefix property
  = prefix ++ "-" ++ toLowerCase lower_unicode (hyphenate property).
Proof.
  unfold mapPropertyToKey.
  destruct (String.eqb_spec prefix "education") as [->|]; [|reflexivity].
  destruct (String.eqb_spec property "degreeType") as [->|]; reflexivity.
Qed.

Lemma mapKeyToProperty_of_parts prefix rest :
  form_prefix prefix = true ->
  override_key (prefix ++ "-" ++ rest) = false ->
  exists hd tl, split "-" rest = hd :: tl /\
    mapKeyToProperty builtin_text capitalize_unicode (prefix ++ "-" ++ rest)
    = join "" (hd :: map (capitalize capitalize_unicode) tl).
Proof.
  intros Hp Ho.
  assert (Hs : split "-" (prefix ++ "-" ++ rest) = prefix :: split "-" rest).
  { change ("-" ++ rest) with (String "-" rest). apply split_at_sep.
    destruct (form_prefix_cases prefix Hp) as [->| [->| ->]]; reflexivity. }
  assert (Hr : exists hd tl, split "-" rest = hd :: tl).
  { destruct rest as [|c r]; simpl; [eauto|].
    destruct (Ascii.eqb c "-"); [eauto|]. destruct (split "-" r); eauto. }
  destruct Hr as (hd & tl & Hr). exists hd, tl. split; [exact Hr|].
  unfold mapKeyToProperty. rewrite Hs, Hr, Hp. cbn [List.tl].
  unfold override_key in Ho. apply orb_false_elim in Ho. destruct Ho as [O1 O2].
  unfold lookup, overrides. cbn [get].
  rewrite String.eqb_sym, O1, String.eqb_sym, O2.
  replace (inherited (prefix ++ "-" ++ rest)) with false; [reflexivity|].
  destruct (form_prefix_cases prefix Hp) as [->| [->| ->]]; reflexivity.
Qed.

Lemma mapKeyToProperty_of_key prefix property :
  form_prefix prefix = true ->
  plain_name property = true ->
  ~ (prefix = "contact" /\ (property = "formNameInput" \/ property = "formUrlInput")) ->
  mapKeyToProperty builtin_text capitalize_unicode
    (mapPropertyToKey lower_unicode prefix property) = property.
Proof.
  intros Hp Hn Hx. rewrite mapPropertyToKey_general, toLowerCase_plain by assumption.
  destruct (mapKeyToProperty_of_parts prefix (map_string lower_ascii (hyphenate property)) Hp)
    as (hd & tl & S & E).
  - unfold override_key. apply orb_false_intro; apply String.eqb_neq; intros K.
    + apply Hx. destruct (form_prefix_cases prefix Hp) as [->| [->| ->]];
        try discriminate K. split; [reflexivity|left].
      apply lowered_injective; [assumption|reflexivity|]. now inversion K.
    + apply Hx. destruct (form_prefix_cases prefix Hp) as [->| [->| ->]];
        try discriminate K. split; [reflexivity|right].
      apply lowered_injective; [assumption|reflexivity|]. now inversion K.
  - rewrite E. destruct (unhyphenate property Hn) as (h & t & S' & J).
    rewrite S in S'. injection S' as -> ->. exact J.
Qed.

(** From a property to the key of its form field and back: for a form
    prefix and a property name of ASCII characters without a dash, the
    property comes back from its key, unless the key is one of the two that
    [mapKeyToProperty] overrides. *)
Theorem property_key_round_trip prefix property :
  form_prefix prefix = true ->
  plain_name property = true ->
  ~ (prefix = "contact" /\ (property = "formNameInput" \/ property = "formUrlInput")) ->
  mapKeyToProperty builtin_text capitalize_unicode
    (mapPropertyToKey lower_unicode prefix property) = property.
Proof. intros Hp Hn Hx. now apply mapKeyToProperty_of_key. Qed.


Lemma join_cons_char_sep sep c hd l :
  join sep (String c hd :: l) = String c (join sep (hd :: l)).
Proof. destruct l; reflexivity. Qed.

Lemma hyphenate_app a b : hyphenate (a ++ b) = hyphenate a ++ hyphenate b.
Proof.
  induction a as [|c a IH]; [reflexivity|]. cbn [append hyphenate].
  destruct (is_upper c); cbn [append]; now rewrite IH.
Qed.

Lemma map_string_app f a b : map_string f (a ++ b) = map_string f a ++ map_string f b.
Proof. induction a as [|c a IH]; [reflexivity|]. cbn [append map_string]. now rewrite IH. Qed.

Lemma is_ascii_app a b : is_ascii (a ++ b) = is_ascii a && is_ascii b.
Proof.
  unfold is_ascii. induction a as [|c a IH]; [reflexivity|].
  cbn [append list_ascii_of_string forallb]. now rewrite IH, andb_assoc.
Qed.

Lemma word_tail c r : word (String c r) = true -> word r = true.
Proof. unfold word. cbn [list_ascii_of_string forallb]. intros H. now apply andb_prop in H. Qed.

Lemma word_fixed w :
  word w = true ->
  hyphenate w = w /\ map_string lower_ascii w = w /\ is_ascii w = true /\ no_sep "-" w = true.
Proof.
  unfold word, is_ascii, no_sep. induction w as [|c r IH]; [repeat split|].
  cbn [list_ascii_of_string forallb hyphenate map_string]. intros H.
  apply andb_prop in H. destruct H as [Hc Hr].
  apply andb_prop in Hc. destruct Hc as [Hc Hd].
  apply andb_prop in Hc. destruct Hc as [Ha Hu]. apply negb_true_iff in Hu.
  destruct (IH Hr) as (I1 & I2 & I3 & I4).
  rewrite Hu, I1, I2, I3, I4, Ha, Hd, (lower_fixed c Hu). repeat split.
Qed.

Lemma later_word_capital w :
  later_word w = true ->
  exists c r, w = String (lower_ascii c) r /\ is_upper c = true /\ word r = true /\
              capitalize capitalize_unicode w = String c r.
Proof.
  destruct w as [|c r]; [discriminate|]. cbn [later_word]. intros H.
  apply andb_prop in H. destruct H as [Hc Hw]. pose proof (word_tail c r Hw) as Hr.
  clear Hw. exists (byte (Z.to_nat (code c - 32))), r.
  assert (K : String c r = String (lower_ascii (byte (Z.to_nat (code c - 32)))) r /\
              is_upper (byte (Z.to_nat (code c - 32))) = true /\
              capitalize capitalize_unicode (String c r)
              = String (byte (Z.to_nat (code c - 32))) r).
  { revert Hc. destruct c as [[] [] [] [] [] [] [] []]; try discriminate; intros _;
      repeat split. }
  destruct K as (K1 & K2 & K3). auto.
Qed.

Lemma split_join_words w0 ws :
  word w0 = true -> Forall (fun w => later_word w = true) ws ->
  split "-" (join "-" (w0 :: ws)) = w0 :: ws.
Proof.
  revert w0. induction ws as [|w ws IH]; intros w0 H0 Hs.
  - apply split_no_sep. now apply word_fixed.
  - inversion Hs as [|? ? Hw Hs']; subst.
    change (join "-" (w0 :: w :: ws)) with (w0 ++ String "-" (join "-" (w :: ws))).
    rewrite split_at_sep by now apply word_fixed. f_equal. apply IH; [|assumption].
    destruct w as [|c r]; [discriminate|]. cbn [later_word] in Hw.
    now apply andb_prop in Hw.
Qed.

(** The camel-case name built from the words of a key has them back as its
    hyphenated, lowered form. *)
Lemma rehyphenate ws : forall w0,
  word w0 = true -> Forall (fun w => later_word w = true) ws ->
  let p := join "" (w0 :: map (capitalize capitalize_unicode) ws) in
  is_ascii p = true /\
  map_string lower_ascii (hyphenate p) = join "-" (w0 :: ws).
Proof.
  induction ws as [|w ws IH]; intros w0 H0 Hs.
  - cbn [map join]. destruct (word_fixed w0 H0) as (A & B & C & _).
    now rewrite A, B, C.
  - inversion Hs as [|? ? Hw Hs']; subst.
    destruct (later_word_capital w Hw) as (c & r & -> & U & Hr & Hc).
    cbn [map]. rewrite Hc. cbv zeta.
    change (join "" (w0 :: String c r :: map (capitalize capitalize_unicode) ws))
      with (w0 ++ join "" (String c r :: map (capitalize capitalize_unicode) ws)).
    change (join "-" (w0 :: String (lower_ascii c) r :: ws))
      with (w0 ++ String "-" (join "-" (String (lower_ascii c) r :: ws))).
    rewrite !join_cons_char_sep.
    destruct (IH r Hr Hs') as [I1 I2]. cbv zeta in I1, I2.
    destruct (word_fixed w0 H0) as (A & B & C & _).
    rewrite is_ascii_app, hyphenate_app, map_string_app, A, B, C.
    cbn [hyphenate]. rewrite U. cbn [map_string]. rewrite I2.
    change (lower_ascii "-") with "-"%char. split; [|reflexivity].
    unfold is_ascii in *. cbn [list_ascii_of_string forallb]. rewrite I1.
    revert U. clear. destruct c as [[] [] [] [] [] [] [] []]; try discriminate; reflexivity.
Qed.

(** From the key of a form field to its property and back: a key made of a
    form prefix and words in small letters comes back from its property,
    unless it is one of the two keys that [mapKeyToProperty] overrides; those
    never come back. *)
Theorem key_property_round_trip :
  (forall prefix w0 ws,
     form_prefix prefix = true ->
     word w0 = true -> Forall (fun w => later_word w = true) ws ->
     override_key (prefix ++ "-" ++ join "-" (w0 :: ws)) = false ->
     mapPropertyToKey lower_unicode prefix
       (mapKeyToProperty builtin_text capitalize_unicode (prefix ++ "-" ++ join "-" (w0 :: ws)))
     = prefix ++ "-" ++ join "-" (w0 :: ws)) /\
  (forall key,
     override_key key = true ->
     mapPropertyToKey lower_unicode "contact"
       (mapKeyToProperty builtin_text capitalize_unicode key) <> key).
Proof.
  split.
  - intros prefix w0 ws Hp H0 Hs Ho.
    destruct (mapKeyToProperty_of_parts prefix (join "-" (w0 :: ws)) Hp Ho)
      as (hd & tl & S & E).
    rewrite split_join_words in S by assumption. injection S as <- <-.
    rewrite E, mapPropertyToKey_general.
    destruct (rehyphenate ws w0 H0 Hs) as [A L]. cbv zeta in A, L.
    unfold toLowerCase. now rewrite is_ascii_hyphenate, A, L.
  - intros key H. unfold override_key in H. apply orb_prop in H.
    destruct H as [H|H]; apply String.eqb_eq in H; subst key; discriminate.
Qed.

End KeyFacts.

(** ** Records of earlier versions *)

Section Migration.

Variable builtin_text : string -> string.
Variable capitalize_unicode : string -> string.
Variable lower_unicode : string -> string.

Lemma migrate_legacy_from prefix (o acc : obj) :
  form_prefix prefix = true ->
  NoDup (map fst (acc ++ o)%list) ->
  Forall (fun p => schema_name p = true) (map fst o) ->
  ~ (prefix = "contact" /\ (In "formNameInput" (map fst o) \/ In "formUrlInput" (map fst o))) ->
  fold_left (fun migrated kv =>
               set (mapKeyToProperty builtin_text capitalize_unicode (fst kv)) (snd kv) migrated)
            (legacy lower_unicode prefix o) acc
  = (acc ++ o)%list.
Proof.
  intros Hp. revert acc. induction o as [|[p v] tl IH]; intros acc Hd Hs Hx.
  - cbn. now rewrite app_nil_r.
  - cbn [legacy map fold_left fst snd]. cbn [map fst] in Hs, Hx.
    apply Forall_cons_iff in Hs. destruct Hs as [Hs Htl].
    unfold schema_name in Hs. apply andb_prop in Hs. destruct Hs as [Ha Hk].
    assert (Hn : plain_name p = true).
    { unfold plain_name. rewrite Ha. unfold plain_key in Hk.
      apply andb_prop in Hk. destruct Hk as [Hk _]. apply andb_prop in Hk. now destruct Hk. }
    rewrite (mapKeyToProperty_of_key builtin_text capitalize_unicode lower_unicode prefix p Hp Hn).
    2:{ intros [E [F|F]]; apply Hx; (split; [exact E|]); [left|right]; left; now symmetry. }
    rewrite set_plain; [|exact Hk|].
    2:{ rewrite map_app in Hd. cbn [map fst] in Hd. apply NoDup_remove_2 in Hd.
        intros H. apply Hd. apply in_or_app. now left. }
    fold (legacy lower_unicode prefix tl). rewrite IH.
    + now rewrite <- app_assoc.
    + now rewrite <- app_assoc.
    + exact Htl.
    + intros [E [F|F]]; apply Hx; (split; [exact E|]); [left|right]; now right.
Qed.


End Migration.


(** ** The dates of an entry *)

Lemma list_eqb_eq a b : list_eqb a b = true -> a = b.
Proof.
  revert b. induction a as [|x a IH]; destruct b as [|y b]; try discriminate; [reflexivity|].
  simpl. intros H. apply andb_prop in H. destruct H as [H1 H2].
  apply Z.eqb_eq in H1. subst. f_equal. now apply IH.
Qed.

Lemma years_units : range_check 1000 9999 year_units_ok = true.
Proof. vm_compute. reflexivity. Qed.

Lemma months_units : range_check 1 12 month_units_ok = true.
Proof. vm_compute. reflexivity. Qed.

Lemma code_units_app a b :
  is_ascii a = true -> code_units (a ++ b) = (code_units a ++ code_units b)%list.
Proof.
  unfold is_ascii. induction a as [|c a IH]; [reflexivity|].
  cbn [list_ascii_of_string forallb append code_units]. intros H.
  apply andb_prop in H. destruct H as [Hc Ha]. rewrite Hc. cbn [app]. now rewrite IH.
Qed.

Lemma year_month_units y m :
  1000 <= y <= 9999 -> 1 <= m <= 12 ->
  code_units (year_month y m) = (year_units y ++ 45 :: month_units m)%list.
Proof.
  intros Hy Hm.
  pose proof (range_check_spec _ _ _ y years_units Hy) as RY.
  pose proof (range_check_spec _ _ _ m months_units Hm) as RM.
  unfold year_units_ok in RY. unfold month_units_ok in RM.
  apply andb_prop in RY. destruct RY as [Ay Uy].
  apply andb_prop in RM. destruct RM as [Am Um].
  apply list_eqb_eq in Uy, Um. unfold year_month.
  rewrite code_units_app by assumption. rewrite Uy. f_equal.
  change ("-" ++ pad2 m) with (String "-" (pad2 m)).
  change (code_units (String "-" (pad2 m))) with (45 :: code_units (pad2 m)).
  now rewrite Um.
Qed.

(** On months written [YYYY-MM] the order of the strings is the order of
    the months. *)
Lemma month_order y1 m1 y2 m2 :
  1000 <= y1 <= 9999 -> 1 <= m1 <= 12 -> 1000 <= y2 <= 9999 -> 1 <= m2 <= 12 ->
  string_ltb (year_month y1 m1) (year_month y2 m2) = (12 * y1 + m1 <? 12 * y2 + m2).
Proof.
  intros Hy1 Hm1 Hy2 Hm2. unfold string_ltb.
  rewrite !year_month_units by assumption.
  unfold year_units, month_units. cbn [app lex_ltb].
  repeat match goal with
         | |- context [?a <? ?b] =>
           lazymatch a with
           | 12 * _ + _ => fail
           | _ => destruct (Z.ltb_spec a b)
           end
         end;
  symmetry; first [ apply Z.ltb_lt | apply Z.ltb_ge ];
  Z.to_euclidean_division_equations; lia.
Qed.

Lemma get_replace_same k v (o : obj) :
  get k o <> None -> get k (replace_value k v o) = Some v.
Proof.
  induction o as [|[k' v'] tl IH]; simpl; [congruence|].
  destruct (String.eqb k' k) eqn:E; simpl; rewrite E; auto.
Qed.

Lemma get_replace_other k v id (o : obj) :
  id <> k -> get id (replace_value k v o) = get id o.
Proof.
  intros N. induction o as [|[k' v'] tl IH]; simpl; [reflexivity|].
  destruct (String.eqb k' k) eqn:E; simpl.
  - apply String.eqb_eq in E. subst k'.
    destruct (String.eqb_spec k id); [congruence|reflexivity].
  - now rewrite IH.
Qed.

(** [handleExperienceDateChange]: with both inputs on the page and holding
    months, the end is emptied exactly when it is an earlier month than the
    start, and nothing else changes; with an input missing the handler
    throws. *)
Theorem handleExperienceDateChange_months prefix document :
  (forall y1 m1 y2 m2,
     1000 <= y1 <= 9999 -> 1 <= m1 <= 12 -> 1000 <= y2 <= 9999 -> 1 <= m2 <= 12 ->
     get (prefix ++ "-start-date") document = Some (year_month y1 m1) ->
     get (prefix ++ "-end-date") document = Some (year_month y2 m2) ->
     exists document',
       handleExperienceDateChange prefix document = Ok document' /\
       get (prefix ++ "-end-date") document'
       = Some (if 12 * y2 + m2 <? 12 * y1 + m1 then "" else year_month y2 m2) /\
       forall id, id <> prefix ++ "-end-date" -> get id document' = get id document) /\
  (forall startDate endDate,
     get (prefix ++ "-start-date") document = Some startDate ->
     get (prefix ++ "-end-date") document = Some endDate ->
     startDate = "" \/ endDate = "" ->
     handleExperienceDateChange prefix document = Ok document) /\
  (get (prefix ++ "-start-date") document = None \/
   get (prefix ++ "-end-date") document = None ->
   handleExperienceDateChange prefix document = Throw value_of_null).
Proof.
  split; [|split].
  - intros y1 m1 y2 m2 Hy1 Hm1 Hy2 Hm2 Hs He. unfold handleExperienceDateChange.
    rewrite Hs, He, month_order by assumption.
    assert (T : forall y m, 1000 <= y <= 9999 -> 1 <= m <= 12 ->
                truthy (Some (year_month y m)) = true).
    { intros y m Hy Hm. pose proof (year_month_units y m Hy Hm) as U.
      destruct (year_month y m); [discriminate U|reflexivity]. }
    rewrite !T by assumption. cbn [andb].
    destruct (12 * y2 + m2 <? 12 * y1 + m1).
    + eexists. split; [reflexivity|]. split.
      * apply get_replace_same. congruence.
      * intros id N. now apply get_replace_other.
    + eexists. split; [reflexivity|]. split; [exact He|reflexivity].
  - intros s e Hs He H. unfold handleExperienceDateChange. rewrite Hs, He.
    destruct H as [-> | ->]; [reflexivity|]. cbn. now rewrite andb_false_r.
  - intros H. unfold handleExperienceDateChange.
    destruct (get (prefix ++ "-start-date") document); [|reflexivity].
    destruct H as [H|H]; [discriminate|]. now rewrite H.
Qed.

(** ** Clearing a form *)

(** Induction on an element and the elements below it. *)
Lemma node_induction (P : node -> Prop) :
  (forall tag value selectedIndex children,
     Forall P children -> P (Node tag value selectedIndex children)) ->
  forall n, P n.
Proof.
  intros H. fix IH 1. intros [tag value selectedIndex children]. apply H.
  induction children as [|c tl IHl]; constructor; [apply IH|exact IHl].
Qed.

Lemma clearChild_emptied n : Forall2 emptied (within n) (within (clearChild n)).
Proof.
  induction n as [tag value selectedIndex children IH] using node_induction.
  cbn [clearChild within]. constructor.
  { unfold emptied. cbn [tag_of value_of index_of]. split; [reflexivity|].
    destruct (is_text_control tag); [split; reflexivity|].
    destruct (String.eqb tag "SELECT"); split; reflexivity. }
  induction IH as [|c tl Hc _ IHl]; [constructor|].
  cbn [map flat_map]. now apply Forall2_app.
Qed.

Lemma clearChild_again n : clearChild (clearChild n) = clearChild n.
Proof.
  induction n as [tag value selectedIndex children IH] using node_induction.
  cbn [clearChild]. rewrite map_map.
  assert (E : map (fun c => clearChild (clearChild c)) children = map clearChild children).
  { induction IH as [|c tl Hc _ IHl]; [reflexivity|]. cbn [map]. now rewrite Hc, IHl. }
  rewrite E. destruct (is_text_control tag); [reflexivity|].
  destruct (String.eqb tag "SELECT"); reflexivity.
Qed.

(** [clearFormValues] leaves the container as it is and goes through every
    element below it, at any depth: each keeps its tag and its place, a text
    control gets the empty value, a [select] the index -1, and nothing else
    is set.  Clearing twice is clearing once. *)
Theorem clearFormValues_clears form :
  tag_of (clearFormValues form) = tag_of form /\
  value_of (clearFormValues form) = value_of form /\
  index_of (clearFormValues form) = index_of form /\
  Forall2 emptied (flat_map within (children_of form))
                  (flat_map within (children_of (clearFormValues form))) /\
  clearFormValues (clearFormValues form) = clearFormValues form.
Proof.
  destruct form as [tag value selectedIndex children]. cbn [clearFormValues tag_of value_of
    index_of children_of]. repeat split.
  - induction children as [|c tl IH]; [constructor|]. cbn [map flat_map].
    apply Forall2_app; [apply clearChild_emptied|exact IH].
  - f_equal. rewrite map_map. apply map_ext. intros c. apply clearChild_again.
Qed.

(** ** The list of entries *)

Section TheList.

Import Bread.

(** ** The list of entries and its buttons *)

Lemma insert_by_perm {A} (cmp : A -> A -> number) x l :
  Permutation (x :: l) (insert_by cmp x l).
Proof.
  induction l as [|h tl IH]; simpl; [reflexivity|].
  destruct (before cmp x h); [reflexivity|].
  rewrite perm_swap. now constructor.
Qed.

Lemma sort_by_perm {A} (cmp : A -> A -> number) l : Permutation l (sort_by cmp l).
Proof.
  induction l as [|h tl IH]; simpl; [constructor|].
  rewrite <- insert_by_perm. now constructor.
Qed.

Lemma indexOf_found c l :
  In c l ->
  0 <= indexOf c l < Z.of_nat (List.length l) /\
  nth_error l (Z.to_nat (indexOf c l)) = Some c.
Proof.
  induction l as [|h tl IH]; [contradiction|]. intros H. cbn [indexOf List.length].
  destruct (Nat.eqb_spec h c) as [->|N].
  - split; [lia|reflexivity].
  - destruct H as [H|H]; [contradiction|]. destruct (IH H) as [B E].
    destruct (Z.ltb_spec (indexOf c tl) 0); [lia|]. split; [lia|].
    replace (Z.to_nat (indexOf c tl + 1)) with (S (Z.to_nat (indexOf c tl))) by lia.
    exact E.
Qed.

Lemma map_fst_names {A} (f : A -> string) (g : nat -> string) (l : list A) n :
  map fst (map (fun ix : nat * A => (f (snd ix), g (fst ix))) (combine (seq n (List.length l)) l))
  = map f l.
Proof.
  revert n. induction l as [|x tl IH]; intros n; [reflexivity|].
  cbn [List.length seq combine map fst snd]. now rewrite IH.
Qed.

(** *** Assignments to an object *)

Lemma get_app_last k k' v (o : obj) :
  get k (o ++ [(k', v)])%list
  = match get k o with
    | Some x => Some x
    | None => if String.eqb k' k then Some v else None
    end.
Proof.
  induction o as [|[k1 v1] tl IH]; cbn [app get]; [reflexivity|].
  destruct (String.eqb k1 k); [reflexivity|exact IH].
Qed.

Lemma get_insert_index i k k' v (o : obj) :
  get k' o = None ->
  get k (insert_index i k' v o) = if String.eqb k' k then Some v else get k o.
Proof.
  induction o as [|[k1 v1] tl IH]; cbn [insert_index get]; [reflexivity|].
  destruct (String.eqb_spec k1 k') as [->|N1]; [discriminate|]. intros G.
  destruct (array_index k1) as [j|].
  - destruct (j <? i); cbn [get].
    + rewrite (IH G). destruct (String.eqb_spec k1 k) as [->|N2]; [|reflexivity].
      destruct (String.eqb_spec k' k); [congruence|reflexivity].
    + reflexivity.
  - reflexivity.
Qed.

Lemma get_replace k k' v (o : obj) :
  get k' o <> None ->
  get k (replace_value k' v o) = if String.eqb k' k then Some v else get k o.
Proof.
  induction o as [|[k1 v1] tl IH]; cbn [replace_value get]; [congruence|].
  destruct (String.eqb_spec k1 k') as [->|N1]; cbn [get].
  - intros _. destruct (String.eqb k' k); reflexivity.
  - intros G. rewrite (IH G). destruct (String.eqb_spec k1 k) as [->|N2]; [|reflexivity].
    destruct (String.eqb_spec k' k); [congruence|reflexivity].
Qed.

(** Reading after an assignment. *)
Lemma get_set k k' v (o : obj) :
  k' <> "__proto__" ->
  get k (set k' v o) = if String.eqb k' k then Some v else get k o.
Proof.
  intros N. unfold set. destruct (String.eqb_spec k' "__proto__"); [contradiction|].
  destruct (get k' o) eqn:G.
  - apply get_replace. congruence.
  - destruct (array_index k').
    + now apply get_insert_index.
    + rewrite get_app_last. destruct (String.eqb_spec k' k) as [->|]; [now rewrite G|].
      now destruct (get k o).
Qed.

Lemma insert_index_perm i k v (o : obj) : Permutation ((k, v) :: o) (insert_index i k v o).
Proof.
  induction o as [|[k1 v1] tl IH]; cbn [insert_index]; [reflexivity|].
  destruct (array_index k1) as [j|]; [|reflexivity].
  destruct (j <? i); [|reflexivity]. rewrite perm_swap. now constructor.
Qed.

Lemma replace_value_keys k v (o : obj) : map fst (replace_value k v o) = map fst o.
Proof.
  induction o as [|[k1 v1] tl IH]; cbn [replace_value map fst]; [reflexivity|].
  destruct (String.eqb k1 k); cbn [map fst]; [reflexivity|now rewrite IH].
Qed.

Lemma get_Some_In {V} k (o : list (string * V)) v : get k o = Some v -> In k (map fst o).
Proof.
  induction o as [|[k1 v1] tl IH]; cbn [get map fst]; [discriminate|].
  destruct (String.eqb_spec k1 k); [now left|]. intros H. right. now apply IH.
Qed.

(** An object that assignments build: no key twice, and no own [__proto__]. *)
Lemma set_keys k v (o : obj) :
  NoDup (map fst o) /\ ~ In "__proto__" (map fst o) ->
  NoDup (map fst (set k v o)) /\ ~ In "__proto__" (map fst (set k v o)).
Proof.
  intros [Hd Hp]. unfold set. destruct (String.eqb_spec k "__proto__") as [->|N]; [auto|].
  destruct (get k o) eqn:G.
  - now rewrite replace_value_keys.
  - assert (Hk : ~ In k (map fst o)).
    { intros H. clear - G H. induction o as [|[k1 v1] tl IH]; [contradiction|].
      cbn [get map fst] in *. destruct (String.eqb_spec k1 k); [discriminate|].
      destruct H as [H|H]; [contradiction|auto]. }
    destruct (array_index k) as [i|].
    + pose proof (Permutation_map fst (insert_index_perm i k v o)) as P. cbn [map fst] in P.
      split.
      * eapply Permutation_NoDup; [exact P|]. now constructor.
      * intros H. apply (Permutation_in _ (Permutation_sym P)) in H.
        destruct H as [H|H]; [congruence|contradiction].
    + rewrite map_app. cbn [map fst]. split.
      * apply NoDup_app; [assumption|repeat constructor; intros []|].
        intros x Hx [<-|[]]. contradiction.
      * intros H. apply in_app_or in H. destruct H as [H|[H|[]]]; [contradiction|congruence].
Qed.

Lemma replace_value_same k v (o : obj) : get k o = Some v -> replace_value k v o = o.
Proof.
  induction o as [|[k1 v1] tl IH]; cbn [get replace_value]; [reflexivity|].
  destruct (String.eqb k1 k); [congruence|]. intros H. now rewrite IH.
Qed.

Lemma In_get (o : obj) k v : NoDup (map fst o) -> In (k, v) o -> get k o = Some v.
Proof.
  induction o as [|[k1 v1] tl IH]; [contradiction|]. cbn [map fst get].
  intros Hd [H|H]; inversion Hd; subst.
  - injection H as -> ->. now rewrite String.eqb_refl.
  - destruct (String.eqb_spec k1 k) as [->|]; [|auto].
    exfalso. apply H2. apply (in_map fst) in H. exact H.
Qed.

(** [Object.assign(o, o)] changes nothing. *)
Lemma assign_same (o : obj) : NoDup (map fst o) -> assign o o = o.
Proof.
  intros Hd. unfold assign.
  assert (G : forall src, (forall k v, In (k, v) src -> get k o = Some v) ->
                          fold_left (fun t kv => set (fst kv) (snd kv) t) src o = o).
  { induction src as [|[k v] tl IH]; [reflexivity|]. intros H. cbn [fold_left fst snd].
    assert (E : set k v o = o).
    { unfold set. destruct (String.eqb k "__proto__"); [reflexivity|].
      rewrite (H k v (or_introl eq_refl)). apply replace_value_same. apply H. now left. }
    rewrite E. apply IH. intros k' v' Hin. apply H. now right. }
  apply G. intros k v. now apply In_get.
Qed.

(** After [Object.assign(t, src)] a property has the source's value if the
    source has it, and the target's otherwise. *)
Lemma get_assign k (src : obj) : forall t,
  NoDup (map fst src) -> ~ In "__proto__" (map fst src) ->
  get k (assign t src) = match get k src with Some v => Some v | None => get k t end.
Proof.
  unfold assign. induction src as [|[k1 v1] tl IH]; intros t Hd Hp; [reflexivity|].
  cbn [fold_left fst snd get]. cbn [map fst] in Hd, Hp. inversion Hd; subst.
  rewrite IH; [|assumption|intros X; apply Hp; now right].
  rewrite get_set by (intros ->; apply Hp; now left).
  destruct (String.eqb_spec k1 k) as [->|]; [|reflexivity].
  now rewrite (get_None k tl).
Qed.

Lemma deref_store_same c o h : In c (map fst h) -> deref (store c o h) c = o.
Proof.
  unfold deref, store. induction h as [|[a x] tl IH]; [contradiction|].
  cbn [map fst find]. destruct (Nat.eqb_spec a c) as [->|N]; cbn [fst].
  - now rewrite Nat.eqb_refl.
  - intros [H|H]; [contradiction|]. destruct (Nat.eqb_spec a c); [contradiction|auto].
Qed.

Lemma deref_store_other c o h a : a <> c -> deref (store c o h) a = deref h a.
Proof.
  intros N. unfold deref, store. induction h as [|[a' x] tl IH]; [reflexivity|].
  cbn [map find fst]. destruct (Nat.eqb_spec a' c) as [->|N']; cbn [fst].
  - destruct (Nat.eqb_spec c a); [congruence|exact IH].
  - destruct (Nat.eqb_spec a' a); [reflexivity|exact IH].
Qed.

Lemma deref_new h a o : ~ In a (map fst h) -> deref (h ++ [(a, o)])%list a = o.
Proof.
  unfold deref. induction h as [|[a' x] tl IH]; cbn [app find fst map].
  - intros _. now rewrite Nat.eqb_refl.
  - intros H. destruct (Nat.eqb_spec a' a) as [->|]; [exfalso; apply H; now left|].
    apply IH. intros X. apply H. now right.
Qed.

Lemma deref_old h a o a' : In a' (map fst h) -> deref (h ++ [(a, o)])%list a' = deref h a'.
Proof.
  unfold deref. induction h as [|[a1 x] tl IH]; [contradiction|].
  cbn [app find fst map]. destruct (Nat.eqb_spec a1 a'); [reflexivity|].
  intros [H|H]; [contradiction|auto].
Qed.

Section BreadFacts.

Variable builtin_text : string -> string.
Variable capitalize_unicode : string -> string.
Variable lower_unicode : string -> string.
Variable formId : string.
Variable sortFunc : option (obj -> obj -> number).
Variable getNameFunc : obj -> string.

Lemma updateSelectList_shown b :
  match currentItem b with None => True | Some c => In c (dataArray b) end ->
  shown getNameFunc (updateSelectList sortFunc getNameFunc b).
Proof.
  intros Hc. unfold shown, updateSelectList.
  cbn [localArray dataArray options currentItem selectedIndex objects].
  set (la := match sortFunc with
             | Some f => sort_by (fun x y => f (deref (objects b) x) (deref (objects b) y))
                                 (dataArray b)
             | None => dataArray b
             end).
  assert (P : Permutation la (dataArray b)).
  { subst la. destruct sortFunc; [symmetry; apply sort_by_perm|reflexivity]. }
  split; [exact P|]. split.
  - cbn [map fst]. f_equal.
    exact (map_fst_names (fun a => getNameFunc (deref (objects b) a))
                         (fun i => decimal (Z.of_nat i)) la 0%nat).
  - destruct (currentItem b) as [c|]; [|reflexivity].
    split; [exact Hc|].
    assert (I : In c la) by (eapply Permutation_in; [symmetry; exact P|exact Hc]).
    destruct (indexOf_found c la I) as [B E].
    unfold select_index. cbn [List.length]. rewrite length_map, length_combine, length_seq.
    rewrite Nat.min_id.
    replace ((0 <=? indexOf c la + 1) && (indexOf c la + 1 <? Z.of_nat (S (List.length la))))
      with true by (symmetry; apply andb_true_intro; split;
                    [apply Z.leb_le|apply Z.ltb_lt]; lia).
    replace (indexOf c la + 1 - 1) with (indexOf c la) by lia.
    split; [exact E|lia].
Qed.

Lemma store_keys a o h : map fst (store a o h) = map fst h.
Proof.
  unfold store. rewrite map_map. apply map_ext_in. intros [a' o'] _. cbn [fst].
  destruct (Nat.eqb_spec a' a); [now subst|reflexivity].
Qed.

Lemma saveItem_steady elements b :
  steady getNameFunc b ->
  steady getNameFunc (saveItem builtin_text capitalize_unicode lower_unicode formId sortFunc getNameFunc
            elements b).
Proof.
  intros [(N1 & F & N2 & I) S]. unfold saveItem, record.
  destruct (currentItem b) as [c|] eqn:Ec.
  - destruct S as (_ & _ & Hc). rewrite Ec in Hc. destruct Hc as (Hc & _). split.
    + unfold allocated, updateSelectList. cbn [objects next dataArray].
      rewrite store_keys. auto.
    + unfold shown. cbn [localArray dataArray options currentItem selectedIndex objects].
      apply (updateSelectList_shown
               {| objects := _; next := _; dataArray := _; currentItem := Some c;
                  localArray := _; options := _; selectedIndex := _; events := _ |}).
      exact Hc.
  - assert (Fr : ~ In (next b) (dataArray b)).
    { intros H. apply I in H. rewrite Forall_forall in F. apply F in H. lia. }
    assert (E : set_insert (next b) (dataArray b) = (dataArray b ++ [next b])%list).
    { unfold set_insert.
      destruct (existsb (Nat.eqb (next b)) (dataArray b)) eqn:X; [|reflexivity].
      apply existsb_exists in X. destruct X as (x & Hx & Q). apply Nat.eqb_eq in Q.
      subst x. contradiction. }
    split.
    + unfold allocated, updateSelectList. cbn [objects next dataArray].
      rewrite E, map_app. cbn [map fst]. repeat split.
      * apply NoDup_app; [assumption|repeat constructor; intros []|].
        intros x Hx [<-|[]]. rewrite Forall_forall in F. apply F in Hx. lia.
      * apply Forall_app. split.
        -- eapply Forall_impl; [|exact F]. cbn. intros. lia.
        -- repeat constructor.
      * apply NoDup_app; [assumption|repeat constructor; intros []|].
        intros x Hx [<-|[]]. contradiction.
      * intros x Hx. apply in_app_or in Hx. apply in_or_app.
        destruct Hx as [Hx|Hx]; [left; now apply I|now right].
    + unfold shown. cbn [localArray dataArray options currentItem selectedIndex objects].
      apply (updateSelectList_shown
               {| objects := _; next := _; dataArray := _; currentItem := Some (next b);
                  localArray := _; options := _; selectedIndex := _; events := _ |}).
      cbn [currentItem dataArray]. rewrite E. apply in_or_app. right. now left.
Qed.

Lemma deleteItem_steady b :
  steady getNameFunc b -> steady getNameFunc (deleteItem sortFunc getNameFunc b).
Proof.
  intros [(N1 & F & N2 & I) S]. unfold deleteItem, record.
  destruct (currentItem b) as [c|] eqn:Ec.
  - split.
    + unfold allocated, updateSelectList, set_delete. cbn [objects next dataArray].
      repeat split; try assumption.
      * now apply NoDup_filter.
      * intros x Hx. apply filter_In in Hx. now apply I.
    + unfold shown. cbn [localArray dataArray options currentItem selectedIndex objects].
      apply (updateSelectList_shown
               {| objects := _; next := _; dataArray := _; currentItem := None;
                  localArray := _; options := _; selectedIndex := _; events := _ |}).
      exact Logic.I.
  - split; [repeat split; assumption|].
    unfold shown in *. cbn [localArray dataArray options currentItem selectedIndex objects].
    now rewrite Ec in *.
Qed.

Lemma opened_steady h n data :
  NoDup (map fst h) -> Forall (fun a => (a < n)%nat) (map fst h) ->
  NoDup data -> incl data (map fst h) ->
  steady getNameFunc (opened sortFunc getNameFunc h n data).
Proof.
  intros N1 F N2 I. split.
  - repeat split; assumption.
  - apply updateSelectList_shown. exact Logic.I.
Qed.

(** Whatever the sequence of Save and Delete, the set holds allocated
    entries, the list shows the set entry for entry, and the selection is on
    the current entry (on the placeholder when there is none). *)
Theorem bread_shows_the_set ps h n data :
  NoDup (map fst h) -> Forall (fun a => (a < n)%nat) (map fst h) ->
  NoDup data -> incl data (map fst h) ->
  let b := presses builtin_text capitalize_unicode lower_unicode formId sortFunc getNameFunc
             ps (opened sortFunc getNameFunc h n data) in
  allocated b /\ shown getNameFunc b.
Proof.
  intros N1 F N2 I. cbv zeta. unfold presses.
  pose proof (opened_steady h n data N1 F N2 I) as S.
  revert S. generalize (opened sortFunc getNameFunc h n data).
  induction ps as [|p ps IH]; intros b S; [exact S|].
  cbn [fold_left]. apply IH. destruct p; [now apply saveItem_steady|now apply deleteItem_steady].
Qed.

Lemma formData_keys elements :
  NoDup (map fst (formData builtin_text capitalize_unicode lower_unicode formId elements)) /\
  ~ In "__proto__"
       (map fst (formData builtin_text capitalize_unicode lower_unicode formId elements)).
Proof.
  unfold formData.
  assert (G : forall l acc, NoDup (map fst acc) /\ ~ In "__proto__" (map fst acc) ->
    let r := fold_left (fun data element =>
      let tag := toLowerCase lower_unicode (tagName element) in
      if existsb (String.eqb tag) [ "input"; "textarea"; "select" ] then
        let key := or_default (Some (el_name element)) (el_id element) in
        if String.eqb key "" then data
        else if negb (String.prefix (hd "" (split "-" formId)) key) then data
        else set (mapKeyToProperty builtin_text capitalize_unicode key) (el_value element) data
      else data) l acc in
    NoDup (map fst r) /\ ~ In "__proto__" (map fst r)).
  { induction l as [|e tl IH]; intros acc H; [exact H|]. cbn [fold_left]. apply IH.
    cbv zeta. destruct (existsb _ _); [|exact H].
    destruct (String.eqb _ ""); [exact H|].
    destruct (negb _); [exact H|]. now apply set_keys. }
  apply (G elements []). split; [constructor|intros []].
Qed.

Lemma set_insert_fresh b :
  allocated b -> set_insert (next b) (dataArray b) = (dataArray b ++ [next b])%list /\
                 ~ In (next b) (map fst (objects b)).
Proof.
  intros (N1 & F & N2 & I).
  assert (Fr : ~ In (next b) (map fst (objects b))).
  { intros H. rewrite Forall_forall in F. apply F in H. lia. }
  split; [|exact Fr]. unfold set_insert.
  destruct (existsb (Nat.eqb (next b)) (dataArray b)) eqn:X; [|reflexivity].
  apply existsb_exists in X. destruct X as (x & Hx & Q). apply Nat.eqb_eq in Q.
  subst x. apply I in Hx. contradiction.
Qed.

Lemma saveItem_new elements b :
  currentItem b = None ->
  objects (saveItem builtin_text capitalize_unicode lower_unicode formId sortFunc getNameFunc elements b)
  = (objects b ++ [(next b, formData builtin_text capitalize_unicode lower_unicode formId elements)])%list /\
  next (saveItem builtin_text capitalize_unicode lower_unicode formId sortFunc getNameFunc elements b) = S (next b) /\
  dataArray (saveItem builtin_text capitalize_unicode lower_unicode formId sortFunc getNameFunc elements b) = set_insert (next b) (dataArray b) /\
  currentItem (saveItem builtin_text capitalize_unicode lower_unicode formId sortFunc getNameFunc elements b) = Some (next b).
Proof.
  intros Hc. unfold saveItem. rewrite Hc. unfold record, updateSelectList.
  cbn [objects next dataArray currentItem]. repeat split.
Qed.

Lemma saveItem_chosen elements b c :
  currentItem b = Some c ->
  objects (saveItem builtin_text capitalize_unicode lower_unicode formId sortFunc getNameFunc elements b)
  = store c (assign (deref (objects b) c) (formData builtin_text capitalize_unicode lower_unicode formId elements)) (objects b) /\
  next (saveItem builtin_text capitalize_unicode lower_unicode formId sortFunc getNameFunc elements b) = next b /\
  dataArray (saveItem builtin_text capitalize_unicode lower_unicode formId sortFunc getNameFunc elements b) = dataArray b /\
  currentItem (saveItem builtin_text capitalize_unicode lower_unicode formId sortFunc getNameFunc elements b) = Some c.
Proof.
  intros Hc. unfold saveItem. rewrite Hc. unfold record, updateSelectList.
  cbn [objects next dataArray currentItem]. repeat split.
Qed.

Lemma deleteItem_chosen b c :
  currentItem b = Some c ->
  objects (deleteItem sortFunc getNameFunc b) = objects b /\
  dataArray (deleteItem sortFunc getNameFunc b) = set_delete c (dataArray b) /\
  currentItem (deleteItem sortFunc getNameFunc b) = None /\
  selectedIndex (deleteItem sortFunc getNameFunc b) = 0.
Proof.
  intros Hc. unfold deleteItem. rewrite Hc. unfold record, updateSelectList.
  cbn [objects next dataArray currentItem selectedIndex]. repeat split.
Qed.

(** Save with no entry chosen adds one entry, which holds what the form
    holds and becomes the current one; Save again adds nothing and leaves the
    entry as it is. *)
Theorem save_twice_adds_one elements b :
  allocated b -> currentItem b = None ->
  let b1 := saveItem builtin_text capitalize_unicode lower_unicode formId sortFunc getNameFunc elements b in
  let b2 := saveItem builtin_text capitalize_unicode lower_unicode formId sortFunc getNameFunc elements b1 in
  dataArray b1 = (dataArray b ++ [next b])%list /\
  dataArray b2 = dataArray b1 /\
  currentItem b1 = Some (next b) /\ currentItem b2 = Some (next b) /\
  deref (objects b1) (next b) = formData builtin_text capitalize_unicode lower_unicode formId elements /\
  deref (objects b2) (next b) = formData builtin_text capitalize_unicode lower_unicode formId elements /\
  (forall a, In a (dataArray b) ->
     deref (objects b1) a = deref (objects b) a /\ deref (objects b2) a = deref (objects b) a).
Proof.
  intros A Hc. destruct (set_insert_fresh b A) as [E Fr]. destruct A as (N1 & F & N2 & I).
  cbv zeta.
  destruct (saveItem_new elements b Hc) as (O1 & X1 & D1 & C1).
  destruct (saveItem_chosen elements _ _ C1) as (O2 & X2 & D2 & C2).
  rewrite O2, D2, C2, O1, D1, C1, E.
  assert (In1 : In (next b) (map fst (objects b ++ [(next b, formData builtin_text capitalize_unicode lower_unicode formId elements)])%list))
    by (rewrite map_app; apply in_or_app; right; now left).
  rewrite deref_store_same by exact In1. rewrite deref_new by exact Fr.
  rewrite assign_same by apply formData_keys.
  repeat split; try reflexivity.
  - apply deref_old. now apply I.
  - assert (Na : a <> next b) by (intros ->; apply Fr; now apply I).
    rewrite deref_store_other by assumption. apply deref_old. now apply I.
Qed.

(** Save on a chosen entry writes the form's values into that entry: a
    property the form does not name keeps its value, no entry is added, and
    the other entries are not touched. *)
Theorem save_updates_in_place elements b c :
  allocated b -> currentItem b = Some c -> In c (dataArray b) ->
  let b' := saveItem builtin_text capitalize_unicode lower_unicode formId sortFunc getNameFunc elements b in
  dataArray b' = dataArray b /\ currentItem b' = Some c /\
  (forall k, get k (deref (objects b') c)
             = match get k (formData builtin_text capitalize_unicode lower_unicode formId elements) with
               | Some v => Some v
               | None => get k (deref (objects b) c)
               end) /\
  (forall a, a <> c -> deref (objects b') a = deref (objects b) a).
Proof.
  intros (N1 & F & N2 & I) Hc Hin. cbv zeta.
  destruct (saveItem_chosen elements b c Hc) as (O & X & D & C). rewrite O, D, C.
  split; [reflexivity|]. split; [reflexivity|]. split.
  - intros k. rewrite deref_store_same by now apply I.
    apply get_assign; apply formData_keys.
  - intros a Na. now apply deref_store_other.
Qed.

(** Delete after Save undoes it: the set is the one before, the entries of
    the set are as they were, and nothing is chosen. *)
Theorem save_then_delete elements b :
  allocated b -> currentItem b = None ->
  let b' := deleteItem sortFunc getNameFunc (saveItem builtin_text capitalize_unicode lower_unicode formId sortFunc getNameFunc elements b) in
  dataArray b' = dataArray b /\ currentItem b' = None /\ selectedIndex b' = 0 /\
  (forall a, In a (dataArray b) -> deref (objects b') a = deref (objects b) a).
Proof.
  intros A Hc. destruct (set_insert_fresh b A) as [E Fr]. destruct A as (N1 & F & N2 & I).
  cbv zeta.
  destruct (saveItem_new elements b Hc) as (O1 & X1 & D1 & C1).
  destruct (deleteItem_chosen _ _ C1) as (O2 & D2 & C2 & S2).
  rewrite O2, D2, C2, S2, O1, D1, E.
  split; [|split; [reflexivity|split; [reflexivity|]]].
  - unfold set_delete. rewrite filter_app. cbn [filter]. rewrite Nat.eqb_refl. cbn [negb].
    rewrite app_nil_r. apply forallb_filter_id. apply forallb_forall. intros x Hx.
    apply negb_true_iff. apply Nat.eqb_neq. intros ->. apply Fr. now apply I.
  - intros a Ha. apply deref_old. now apply I.
Qed.

End BreadFacts.

End TheList.

(** ** The contact line *)

Section ContactLine.

Variable pageWidth : number.
Variable getTextWidth : fontStyle -> number -> string -> number.

Ltac run_in s :=
  lazy beta iota zeta delta
    [bind ret lift when emit doc_setFont doc_setFontSize doc_setTextColor doc_setDrawColor
     doc_text doc_link doc_line doc_addPage get_y set_y advance doc_getTextWidth
     doc_splitTextToSize doc_getTextWidth_value doc_text_value receiver
     font fontSize textColor drawColor calls y];
  fold (font s) (fontSize s) (textColor s) (drawColor s) (calls s) (y s).

(** The texts and links of some parts. *)
Let texts_of (l : list contactPart) : list string := map (fun p => interpolate (part_text p)) l.
Let links_of (l : list contactPart) : list string :=
  flat_map (fun p => if truthy (part_link p) then [ interpolate (part_link p) ] else []) l.

Lemma last_index (i n : nat) {A} (x : A) (tl : list A) :
  (i + List.length (x :: tl) = n)%nat ->
  (i <? n - 1)%nat = match tl with [] => false | _ :: _ => true end.
Proof.
  cbn [List.length]. intros H. destruct tl; cbn [List.length] in H.
  - apply Nat.ltb_ge. lia.
  - apply Nat.ltb_lt. lia.
Qed.

Lemma measure_loop n (l : list contactPart) : forall i acc s,
  (i + List.length l = n)%nat ->
  Forall (fun p => exists t, part_text p = Some t) l ->
  forEach_acc_from i l acc (fun part index totalWidth =>
      w <- doc_getTextWidth_value getTextWidth (part_text part) ;;
      if (index <? n - 1)%nat
      then ws <- doc_getTextWidth getTextWidth separator ;; ret (add (add totalWidth w) ws)
      else ret (add totalWidth w)) s
  = Ok (row_width (getTextWidth (font s) (fontSize s)) acc (texts_of l), s).
Proof.
  induction l as [|p tl IH]; intros i acc s Hn Hp; [reflexivity|].
  apply Forall_cons_iff in Hp. destruct Hp as [[t Ht] Htl].
  unfold texts_of. cbn [forEach_acc_from map].
  rewrite (last_index i n p tl Hn), Ht. cbn [interpolate row_width].
  destruct tl as [|p' tl']; [reflexivity|].
  run_in s. apply (IH (S i)); [cbn [List.length] in *; lia|assumption].
Qed.

Ltac new_calls := repeat first [ eapply new_calls_cons | apply new_calls_nil ].

Lemma draw_loop n (l : list contactPart) : forall i x s,
  (i + List.length l = n)%nat ->
  Forall (fun p => exists t, part_text p = Some t) l ->
  exists x' s' new,
    forEach_acc_from i l x (fun part index currentX =>
      y0 <- get_y ;;
      doc_setTextColor 0 0 255 ;;
      partWidth <- doc_getTextWidth_value getTextWidth (part_text part) ;;
      doc_text_value (part_text part) currentX y0 align_left ;;
      when (truthy (part_link part))
           (doc_link currentX (sub y0 (int 4)) partWidth (int 5) (interpolate (part_link part))) ;;
      if (index <? n - 1)%nat
      then doc_setTextColor 0 0 0 ;;
           doc_text [separator] (add currentX partWidth) y0 align_left ;;
           ws <- doc_getTextWidth getTextWidth separator ;;
           ret (add (add currentX partWidth) ws)
      else ret (add currentX partWidth)) s = Ok (x', s') /\
    calls s' = (new ++ calls s)%list /\
    (forall c, drawn c (rev new)
               = contact_row (getTextWidth (font s) (fontSize s)) x (texts_of l)) /\
    link_urls (rev new) = links_of l /\
    y s' = y s /\ font s' = font s /\ fontSize s' = fontSize s /\ ~ In addPage new.
Proof.
  induction l as [|p tl IH]; intros i x s Hn Hp.
  - exists x, s, []. repeat split; try reflexivity. intros [].
  - apply Forall_cons_iff in Hp. destruct Hp as [[t Ht] Htl].
    unfold texts_of, links_of. cbn [forEach_acc_from map flat_map].
    rewrite (last_index i n p tl Hn), Ht. cbn [interpolate contact_row].
    destruct tl as [|p' tl'].
    + destruct (truthy (part_link p)); run_in s;
        do 3 eexists; (split; [reflexivity|]); cbn [calls y font fontSize];
        (split; [new_calls|]); cbn [rev app drawn link_urls flat_map];
        repeat split; try reflexivity;
        intros H; cbn [In] in H; repeat (destruct H as [H|H]; [discriminate H|]); exact H.
    + assert (Hn' : (S i + List.length (p' :: tl') = n)%nat)
        by (cbn [List.length] in *; lia).
      destruct (truthy (part_link p)); run_in s;
        match goal with
        | |- exists _ _ _, forEach_acc_from _ _ ?x1 _ ?s1 = _ /\ _ =>
          destruct (IH (S i) x1 s1 Hn' Htl) as (x' & s' & new & E & C & D & L & Y & F & FS & NP)
        end;
        cbn [calls y font fontSize] in C, D, Y, F, FS;
        exists x', s'; eexists (new ++ _)%list;
        (split; [exact E|]);
        fold (calls s') (y s') (font s') (fontSize s'); cbn [map];
        (split; [rewrite C, <- app_assoc; f_equal; new_calls|]);
        (split; [intros c; rewrite rev_app_distr; cbn [rev app drawn]; rewrite D; reflexivity|]);
        (split; [rewrite rev_app_distr; unfold link_urls in *; rewrite flat_map_app, L;
                 reflexivity|]);
        repeat split; try assumption;
        intros H; apply in_app_or in H; (destruct H as [H|H]; [contradiction|]);
        cbn [In] in H; repeat (destruct H as [H|H]; [discriminate H|]); exact H.
Qed.

(** The contact line of a résumé, run from any state: the phone, the e-mail
    address and the named contacts, in this order and in blue, with the
    separator in black between them, set side by side and centred on the
    page; one link for each of them that has a target. *)
Theorem contact_line_drawn resume s :
  exists parts s' new,
    contactParts resume = Ok parts /\
    contactLine pageWidth getTextWidth parts s = Ok (tt, s') /\
    calls s' = (new ++ calls s)%list /\
    (let w := getTextWidth (font s) (fontSize s) in
     drawn (textColor s) (rev new)
     = contact_row w (div (sub pageWidth (row_width w (int 0) (contact_texts resume))) (int 2))
                   (contact_texts resume)) /\
    link_urls (rev new) = contact_links resume /\
    y s' = (match contact_texts resume with
            | [] => y s
            | _ :: _ => add (y s) (getLineHeightMM (int 12) (lit (115 # 100)))
            end) /\
    ~ In addPage new.
Proof.
  destruct (contactParts_returns resume) as (parts & E & Hp). exists parts.
  assert (T : texts_of parts = contact_texts resume /\ links_of parts = contact_links resume).
  { revert E. unfold contactParts, contact_texts, contact_links, texts_of, links_of.
    assert (C : forall cs,
      map (fun p => interpolate (part_text p))
          (flat_map (fun contact =>
             if truthy (get "name" contact)
             then [ {| part_text := get "name" contact; part_link := get "url" contact |} ]
             else []) cs)
      = flat_map (fun c => push_if_truthy (get "name" c)) cs /\
      flat_map (fun p => if truthy (part_link p) then [ interpolate (part_link p) ] else [])
          (flat_map (fun contact =>
             if truthy (get "name" contact)
             then [ {| part_text := get "name" contact; part_link := get "url" contact |} ]
             else []) cs)
      = flat_map (fun c => if truthy (get "name" c) && truthy (get "url" c)
                           then [ interpolate (get "url" c) ] else []) cs).
    { induction cs as [|c tl [I1 I2]]; [split; reflexivity|]. cbn [flat_map].
      rewrite map_app, flat_map_app, I1, I2.
      destruct (get "name" c) as [nm|]; [|split; reflexivity].
      cbn [truthy push_if_truthy]. destruct (String.eqb nm ""); [split; reflexivity|].
      cbn [negb map flat_map part_text part_link interpolate app andb].
      rewrite app_nil_r. split; reflexivity. }
    destruct (C (Array_from (contacts resume))) as [C1 C2].
    destruct (phone resume) as [ph|]; cbn [truthy push_if_truthy receiver interpolate];
      [destruct (String.eqb ph ""); cbn [negb]|];
      (destruct (email resume) as [em|]; cbn [truthy push_if_truthy interpolate];
       [destruct (String.eqb em ""); cbn [negb]|]);
      intros E; injection E as <-;
      rewrite ?map_app, ?flat_map_app; cbn [map flat_map part_text part_link truthy interpolate app];
      rewrite ?C1, ?C2; split; try reflexivity. }
  destruct T as [T1 T2]. rewrite <- T1, <- T2.
  unfold contactLine. destruct parts as [|p0 tl0].
  - exists s, []. repeat split; try reflexivity; [exact E|intros []].
  - set (parts := p0 :: tl0) in *.
    change (0 <? List.length parts)%nat with true. cbn [when].
    unfold forEach_acc. unfold bind at 1. cbv beta.
    rewrite (measure_loop (List.length parts) parts 0%nat (int 0) s eq_refl Hp). unfold bind at 1. cbv beta.
    destruct (draw_loop (List.length parts) parts 0%nat
                (div (sub pageWidth
                        (row_width (getTextWidth (font s) (fontSize s)) (int 0) (texts_of parts)))
                     (int 2)) s eq_refl Hp)
      as (x' & s' & new & E' & C & D & L & Y & F & FS & NP).
    rewrite E'. run_in s'.
    eexists; exists new. split; [exact E|]. split; [reflexivity|]. cbn [calls y].
    split; [exact C|]. split; [apply D|]. split; [exact L|]. split; [|exact NP].
    subst parts. unfold texts_of. cbn [map]. now rewrite Y.
Qed.

End ContactLine.

(** ** The page-break checks *)

Section OnThePage.

Variable pageWidth : number.
Variable getTextWidth : fontStyle -> number -> string -> number.
Variable splitTextToSize : fontStyle -> number -> string -> number -> list string.
Variable LocalTZA : Z -> bool -> Z.
Variable legacyParse : string -> option Z.
Variable clock : Z * Z.

Ltac run_in s :=
  lazy beta iota zeta delta
    [bind ret lift when emit doc_setFont doc_setFontSize doc_setTextColor doc_setDrawColor
     doc_text doc_link doc_line doc_addPage get_y set_y advance doc_getTextWidth
     doc_splitTextToSize doc_getTextWidth_value doc_text_value
     font fontSize textColor drawColor calls y];
  fold (font s) (fontSize s) (textColor s) (drawColor s) (calls s) (y s).

Ltac new_calls := repeat first [ eapply new_calls_cons | apply new_calls_nil ].

Lemma top_of_page : gtb (int 20) (int 280) = false.
Proof. vm_compute. reflexivity. Qed.

Lemma educationEntry_on_page edu s :
  gtb (y s) (int 280) = false ->
  exists s' new,
    educationEntry pageWidth LocalTZA legacyParse clock edu s = Ok (tt, s') /\
    calls s' = (new ++ calls s)%list /\
    Forall on_page new /\ gtb (y s') (int 280) = false.
Proof.
  intros Hy. unfold educationEntry.
  destruct (educationRightText_returns LocalTZA legacyParse clock edu) as [r Hr]. rewrite Hr.
  destruct (is_Certificate edu); run_in s; [|destruct (truthy (Some r)); run_in s];
    destruct (gtb (add (y s) sectionLineHeight) (int 280)) eqn:G; run_in s;
    eexists; eexists; (split; [reflexivity|]); cbn [calls y];
    (split; [new_calls|]); (split; [repeat constructor; exact Hy|]);
    first [exact top_of_page | exact G].
Qed.

(** Once a record of the education section starts on the page, every later
    one does: no line of a record is placed below 280 mm, and the cursor
    ends above it. *)
Theorem education_records_stay_on_the_page (l : list obj) s :
  gtb (y s) (int 280) = false ->
  exists s' new,
    forEach l (fun edu _ => educationEntry pageWidth LocalTZA legacyParse clock edu) s
      = Ok (tt, s') /\
    calls s' = (new ++ calls s)%list /\
    Forall on_page new /\ gtb (y s') (int 280) = false.
Proof.
  unfold forEach. generalize 0%nat. revert s.
  induction l as [|edu tl IH]; intros s i Hy.
  - exists s, []. split; [reflexivity|]. split; [reflexivity|]. split; [constructor|exact Hy].
  - destruct (educationEntry_on_page edu s Hy) as (s1 & n1 & E1 & C1 & P1 & Y1).
    destruct (IH s1 (S i) Y1) as (s2 & n2 & E2 & C2 & P2 & Y2).
    exists s2, (n2 ++ n1)%list. cbn [forEach_from]. unfold bind at 1. rewrite E1.
    split; [exact E2|]. split; [now rewrite C2, C1, app_assoc|].
    split; [apply Forall_app; split; assumption|exact Y2].
Qed.

Lemma bulletEntry_left b s :
  exists s' new,
    bulletEntry pageWidth splitTextToSize b s = Ok (tt, s') /\
    calls s' = (new ++ calls s)%list /\ Forall heading_on_page new.
Proof.
  unfold bulletEntry, pageBreak. run_in s.
  match goal with |- context [gtb ?v (int 280)] => destruct (gtb v (int 280)) end;
    eexists; eexists; (split; [reflexivity|]); cbn [calls];
    (split; [new_calls|repeat constructor]).
Qed.

Lemma bulletLoop_left l : forall i s,
  exists s' new,
    forEach_from i l (fun bullet _ => bulletEntry pageWidth splitTextToSize bullet) s
      = Ok (tt, s') /\
    calls s' = (new ++ calls s)%list /\ Forall heading_on_page new.
Proof.
  induction l as [|b tl IH]; intros i s.
  - exists s, []. split; [reflexivity|]. split; [reflexivity|constructor].
  - destruct (bulletEntry_left b s) as (s1 & n1 & E1 & C1 & P1).
    destruct (IH (S i) s1) as (s2 & n2 & E2 & C2 & P2).
    exists s2, (n2 ++ n1)%list. cbn [forEach_from]. unfold bind at 1. rewrite E1.
    split; [exact E2|]. split; [now rewrite C2, C1, app_assoc|apply Forall_app; split; assumption].
Qed.

Lemma experienceHeading_on_page exp s :
  gtb (y s) (int 280) = false ->
  exists s' new,
    experienceHeading pageWidth getTextWidth LocalTZA exp s = Ok (tt, s') /\
    calls s' = (new ++ calls s)%list /\ Forall on_page new.
Proof.
  intros Hy. unfold experienceHeading.
  destruct (experienceRightText_returns LocalTZA exp) as [r Hr]. rewrite Hr.
  destruct (truthy (Some (or_default (get "title" exp) ""))),
           (truthy (Some (or_default (get "url" exp) "")));
    destruct (0 <? List.length _)%nat; run_in s;
    eexists; eexists; (split; [reflexivity|]); cbn [calls];
    (split; [new_calls|repeat constructor; exact Hy]).
Qed.

Lemma on_page_heading l : Forall on_page l -> Forall heading_on_page l.
Proof.
  apply Forall_impl. intros [ | | | |ls x ty []| | | ]; unfold on_page, heading_on_page;
    intros H; exact H || exact I.
Qed.

Lemma experienceEntry_on_page exp s :
  gtb (y s) (int 280) = false ->
  exists s' new,
    experienceEntry pageWidth getTextWidth splitTextToSize LocalTZA exp s = Ok (tt, s') /\
    calls s' = (new ++ calls s)%list /\
    Forall heading_on_page new /\ gtb (y s') (int 280) = false.
Proof.
  intros Hy. unfold experienceEntry.
  destruct (experienceHeading_on_page exp s Hy) as (s1 & n1 & E1 & C1 & P1).
  unfold bind at 1. rewrite E1.
  unfold bind at 1. cbn [doc_setFont].
  rewrite bullets_spec. unfold bind at 1. cbn [lift].
  set (s2 := {| font := normal; fontSize := fontSize s1; textColor := textColor s1;
                drawColor := drawColor s1; calls := setFont normal :: calls s1; y := y s1 |}).
  unfold forEach.
  destruct (bulletLoop_left (firstn MAX_NUMBER_OF_BULLETS_TO_DISPLAY (spec_bullets exp)) 0%nat s2)
    as (s3 & n3 & E3 & C3 & P3).
  unfold bind at 1. rewrite E3.
  unfold bind at 1, advance, bind at 1, get_y, set_y. rewrite pageBreak_run. cbn [y calls].
  match goal with |- context [gtb ?v (int 280)] => destruct (gtb v (int 280)) eqn:G end.
  - eexists; exists (setFontSize sectionFontSize :: addPage :: n3 ++ setFont normal :: n1)%list.
    split; [reflexivity|]. cbn [calls y]. split.
    + rewrite C3. subst s2. cbn [calls]. rewrite C1.
      rewrite <- ?app_comm_cons, <- ?app_assoc. reflexivity.
    + split; [|exact top_of_page]. repeat constructor.
      apply Forall_app. split; [assumption|]. constructor; [exact I|].
      now apply on_page_heading.
  - eexists; exists (n3 ++ setFont normal :: n1)%list.
    split; [reflexivity|]. cbn [calls]. split.
    + rewrite C3. subst s2. cbn [calls]. rewrite C1.
      rewrite <- ?app_comm_cons, <- ?app_assoc. reflexivity.
    + split; [|exact G]. apply Forall_app. split; [assumption|]. constructor; [exact I|].
      now apply on_page_heading.
Qed.

(** Once an entry of the experience section starts on the page, the heading
    of every later one is placed there: no date range is drawn below 280 mm,
    and the cursor ends above it. *)
Theorem experience_headings_stay_on_the_page (l : list obj) s :
  gtb (y s) (int 280) = false ->
  exists s' new,
    forEach l (fun exp _ => experienceEntry pageWidth getTextWidth splitTextToSize LocalTZA exp) s
      = Ok (tt, s') /\
    calls s' = (new ++ calls s)%list /\
    Forall heading_on_page new /\ gtb (y s') (int 280) = false.
Proof.
  unfold forEach. generalize 0%nat. revert s.
  induction l as [|exp tl IH]; intros s i Hy.
  - exists s, []. split; [reflexivity|]. split; [reflexivity|]. split; [constructor|exact Hy].
  - destruct (experienceEntry_on_page exp s Hy) as (s1 & n1 & E1 & C1 & P1 & Y1).
    destruct (IH s1 (S i) Y1) as (s2 & n2 & E2 & C2 & P2 & Y2).
    exists s2, (n2 ++ n1)%list. cbn [forEach_from]. unfold bind at 1. rewrite E1.
    split; [exact E2|]. split; [now rewrite C2, C1, app_assoc|].
    split; [apply Forall_app; split; assumption|exact Y2].
Qed.

End OnThePage.

(** ** Loading any document *)

Section ValuesOfStrings.

Import Loader.

Lemma get_app {V} k (a b : list (string * V)) :
  get k (a ++ b)%list = match get k a with Some v => Some v | None => get k b end.
Proof.
  induction a as [|[k1 v1] tl IH]; cbn [app get]; [reflexivity|].
  destruct (String.eqb k1 k); [reflexivity|exact IH].
Qed.

Lemma get_opt_field k k' v : get k (opt_field k' v) = if String.eqb k' k then v else None.
Proof. destruct v; cbn; [|now destruct (String.eqb k' k)]. reflexivity. Qed.

Lemma or_empty_text t : or_empty_string (option_map Str t) = Str (or_default t "").
Proof.
  destruct t as [x|]; [|reflexivity]. cbn. now destruct (String.eqb x "").
Qed.

Lemma get_of_obj k (o : obj) : get k (of_obj o) = option_map Str (get k o).
Proof.
  induction o as [|[k1 v1] tl IH]; cbn [of_obj map get fst snd]; [reflexivity|].
  destruct (String.eqb k1 k); [reflexivity|exact IH].
Qed.

Lemma replace_of_obj k v (o : obj) : replace k (Str v) (of_obj o) = of_obj (replace_value k v o).
Proof.
  induction o as [|[k1 v1] tl IH]; cbn [of_obj map replace replace_value fst snd];
    [reflexivity|].
  destruct (String.eqb k1 k); cbn [map fst snd]; [reflexivity|].
  f_equal. exact IH.
Qed.

Lemma insert_of_obj i k v (o : obj) :
  insert_at i k (Str v) (of_obj o) = of_obj (insert_index i k v o).
Proof.
  induction o as [|[k1 v1] tl IH]; cbn [of_obj map insert_at insert_index fst snd];
    [reflexivity|].
  destruct (array_index k1) as [j|]; [|reflexivity].
  destruct (j <? i); cbn [map fst snd]; [|reflexivity]. f_equal. exact IH.
Qed.

Lemma get_In_key {V} k (o : list (string * V)) : get k o <> None -> In k (map fst o).
Proof.
  induction o as [|[k1 v1] tl IH]; cbn [get map fst]; [congruence|].
  destruct (String.eqb_spec k1 k); [now left|]. intros H. right. now apply IH.
Qed.

Lemma insert_index_keys i k v (o : obj) x :
  In x (map fst (insert_index i k v o)) -> x = k \/ In x (map fst o).
Proof.
  induction o as [|[k1 v1] tl IH]; cbn [insert_index map fst In];
    [intuition congruence|].
  destruct (array_index k1) as [j|]; [|cbn [map fst In]; intuition congruence].
  destruct (j <? i); cbn [map fst In]; [|intuition congruence].
  intros [H|H]; [tauto|]. apply IH in H. tauto.
Qed.

(** A string assigned to an object never gives it an own [__proto__]. *)
Lemma set_no_proto k v (o : obj) :
  ~ In "__proto__" (map fst o) -> ~ In "__proto__" (map fst (set k v o)).
Proof.
  intros Hp. unfold set. destruct (String.eqb_spec k "__proto__") as [->|N]; [exact Hp|].
  destruct (get k o).
  - clear N. revert Hp. induction o as [|[k1 v1] tl IH]; cbn [replace_value map fst In];
      [tauto|].
    destruct (String.eqb k1 k); cbn [map fst In]; tauto.
  - destruct (array_index k) as [i|].
    + intros H. apply insert_index_keys in H. destruct H as [H|H]; [congruence|contradiction].
    + rewrite map_app. intros H. apply in_app_or in H. cbn in H.
      destruct H as [H|[H|[]]]; [contradiction|congruence].
Qed.

Lemma assign_of_record k v (o : obj) :
  ~ In "__proto__" (map fst o) ->
  assign_property k (Str v) (of_record o) = of_record (set k v o).
Proof.
  intros Hp. unfold assign_property, set, of_record. cbn [own proto setter_inherited].
  rewrite get_of_obj. destruct (String.eqb_spec k "__proto__") as [->|N].
  - rewrite (get_None "__proto__" o Hp). reflexivity.
  - destruct (get k o); cbn [option_map andb].
    + now rewrite replace_of_obj.
    + unfold define. destruct (array_index k) as [i|].
      * now rewrite insert_of_obj.
      * unfold of_obj. now rewrite map_app.
Qed.

Lemma set_of_objects (l acc : list value) :
  (forall x, In x l -> exists props, x = Obj props) ->
  fold_left (fun s x => if existsb (same_value_zero x) s then s else (s ++ [x])%list) l acc
  = (acc ++ l)%list.
Proof.
  revert acc. induction l as [|x tl IH]; intros acc H; cbn [fold_left];
    [now rewrite app_nil_r|].
  destruct (H x (or_introl eq_refl)) as [props ->].
  replace (existsb (same_value_zero (Obj props)) acc) with false.
  - rewrite IH by (intros; apply H; now right). now rewrite <- app_assoc.
  - symmetry. clear. induction acc as [|a tl IH]; [reflexivity|]. cbn. exact IH.
Qed.

End ValuesOfStrings.

Section LoaderFacts.

Import Loader.

Variable builtin_text : string -> string.
Variable capitalize_unicode : string -> string.
Variable surrogate_entries : string -> list (string * value).
Variable storage_accepts : value -> bool.

Lemma field_own k v : is_null v = false -> field k v = Ok (own_field k v).
Proof. destruct v; try reflexivity. discriminate. Qed.

Lemma migrateItem_throws_on_null item :
  (exists o, migrateItem builtin_text capitalize_unicode surrogate_entries item = Ok o)
  <-> is_null item = false.
Proof.
  unfold migrateItem. destruct item; cbn [entries is_null]; split; intros H;
    try reflexivity; try (eexists; reflexivity); try discriminate H.
  destruct H as [o H]. discriminate H.
Qed.

Lemma map_migrate l :
  (exists s, map_result (migrateItem builtin_text capitalize_unicode surrogate_entries) l = Ok s)
  <-> existsb is_null l = false.
Proof.
  induction l as [|x tl IH]; cbn [map_result existsb]; [split; eauto|].
  destruct (migrateItem builtin_text capitalize_unicode surrogate_entries x) as [o|e] eqn:E.
  - assert (N : is_null x = false) by (apply migrateItem_throws_on_null; eauto).
    rewrite N. cbn [orb]. rewrite <- IH.
    destruct (map_result _ tl) as [ys|e']; split; intros [s H]; eauto; discriminate H.
  - destruct (is_null x) eqn:N.
    + split; [intros [s H]; discriminate H|discriminate].
    + apply migrateItem_throws_on_null in N. destruct N as [o N]. congruence.
Qed.

Lemma migrated_set_loads v :
  (exists s, migrated_set builtin_text capitalize_unicode surrogate_entries v = Ok s)
  <-> list_loads v = true.
Proof.
  unfold migrated_set, list_loads. destruct (truthy_value v) eqn:T; cbn [negb orb];
    [|split; eauto].
  destruct v as [[| | | |l|]|]; cbv beta iota;
    try (split; [intros [x H]; discriminate H|intros H; discriminate H]).
  rewrite negb_true_iff. apply map_migrate.
Qed.

Lemma tag_set_loads v : (exists s, tag_set v = Ok s) <-> tags_load v = true.
Proof.
  unfold tag_set, tags_load. destruct (truthy_value v) eqn:T; cbn [negb orb];
    [|split; eauto].
  destruct v as [[| | | | |]|]; cbv beta iota;
    try (split; [intros [x H]; discriminate H|intros H; discriminate H]); split; eauto.
Qed.

(** [safeLoadResume] on a document that is not [null], step by step. *)
Lemma safeLoadResume_run r v :
  is_null v = false ->
  safeLoadResume builtin_text capitalize_unicode surrogate_entries r v
  = match migrated_set builtin_text capitalize_unicode surrogate_entries
            (own_field "contacts" v) with
    | Throw e => (with_texts r v, Some e)
    | Ok cs =>
      match migrated_set builtin_text capitalize_unicode surrogate_entries
              (own_field "education" v) with
      | Throw e => (set_contacts cs (with_texts r v), Some e)
      | Ok es =>
        match migrated_set builtin_text capitalize_unicode surrogate_entries
                (own_field "experience" v) with
        | Throw e => (set_education es (set_contacts cs (with_texts r v)), Some e)
        | Ok xs =>
          match tag_set (own_field "tags" v) with
          | Throw e =>
            (set_experience xs (set_education es (set_contacts cs (with_texts r v))), Some e)
          | Ok ts =>
            (set_tags ts
               (set_experience xs (set_education es (set_contacts cs (with_texts r v)))),
             None)
          end
        end
      end
    end.
Proof.
  intros N. unfold safeLoadResume. rewrite !(field_own _ v N). unfold attempt at 1 2 3 4 5.
  cbv zeta. fold (with_texts r v).
  destruct (migrated_set _ _ _ (own_field "contacts" v)); [|reflexivity].
  unfold attempt at 1 2.
  destruct (migrated_set _ _ _ (own_field "education" v)); [|reflexivity].
  unfold attempt at 1 2.
  destruct (migrated_set _ _ _ (own_field "experience" v)); [|reflexivity].
  unfold attempt at 1 2.
  destruct (tag_set (own_field "tags" v)); reflexivity.
Qed.

Lemma loads_spec r v :
  snd (safeLoadResume builtin_text capitalize_unicode surrogate_entries r v) = None
  <-> loads v = true.
Proof.
  destruct (is_null v) eqn:N.
  - destruct v; try discriminate N. cbn. split; discriminate.
  - rewrite (safeLoadResume_run r v N). unfold loads. rewrite N. cbn [negb andb].
    pose proof (migrated_set_loads (own_field "contacts" v)) as C.
    pose proof (migrated_set_loads (own_field "education" v)) as E.
    pose proof (migrated_set_loads (own_field "experience" v)) as X.
    pose proof (tag_set_loads (own_field "tags" v)) as T.
    destruct (migrated_set _ _ _ (own_field "contacts" v)) as [cs|e1].
    2:{ destruct (list_loads (own_field "contacts" v));
          [destruct (proj2 C eq_refl) as [? K]; discriminate K|].
        cbn. split; discriminate. }
    rewrite (proj1 C (ex_intro _ cs eq_refl)). cbn [andb].
    destruct (migrated_set _ _ _ (own_field "education" v)) as [es|e2].
    2:{ destruct (list_loads (own_field "education" v));
          [destruct (proj2 E eq_refl) as [? K]; discriminate K|].
        cbn. split; discriminate. }
    rewrite (proj1 E (ex_intro _ es eq_refl)). cbn [andb].
    destruct (migrated_set _ _ _ (own_field "experience" v)) as [xs|e3].
    2:{ destruct (list_loads (own_field "experience" v));
          [destruct (proj2 X eq_refl) as [? K]; discriminate K|].
        cbn. split; discriminate. }
    rewrite (proj1 X (ex_intro _ xs eq_refl)). cbn [andb].
    destruct (tag_set (own_field "tags" v)) as [ts|e4].
    2:{ destruct (tags_load (own_field "tags" v));
          [destruct (proj2 T eq_refl) as [? K]; discriminate K|].
        cbn. split; discriminate. }
    rewrite (proj1 T (ex_intro _ ts eq_refl)). cbn. split; reflexivity.
Qed.

(** [safeLoadResume] throws on [null], on a [contacts], [education] or
    [experience] that is truthy without being an array or that holds a
    [null], and on a [tags] that is truthy without being an array or a
    string; it loads every other document. *)
Theorem safeLoadResume_throws_iff r v :
  snd (safeLoadResume builtin_text capitalize_unicode surrogate_entries r v) = None
  <-> loads v = true.
Proof. exact (loads_spec r v). Qed.

(** A load that fails is not undone.  On a document other than [null] whose
    [contacts] cannot be loaded, [safeLoadResume] throws after it has
    replaced the name, the e-mail address, the phone and the additional text:
    the state keeps the new texts with the old collections. *)
Theorem failed_load_keeps_the_texts r v :
  is_null v = false -> list_loads (own_field "contacts" v) = false ->
  exists e,
    safeLoadResume builtin_text capitalize_unicode surrogate_entries r v
    = (with_texts r v, Some e).
Proof.
  intros N H. rewrite (safeLoadResume_run r v N).
  pose proof (migrated_set_loads (own_field "contacts" v)) as C.
  destruct (migrated_set _ _ _ (own_field "contacts" v)) as [cs|e1].
  - rewrite (proj1 C (ex_intro _ cs eq_refl)) in H. discriminate H.
  - exists e1. reflexivity.
Qed.

Lemma loaded_name k : existsb (String.eqb k) loaded_names = true -> In k loaded_names.
Proof.
  intros H. apply existsb_exists in H. destruct H as (x & Hx & E).
  apply String.eqb_eq in E. now subst.
Qed.

Lemma fieldless_own v k : fieldless v -> In k loaded_names -> own_field k v = None.
Proof. destruct v; cbn; auto. Qed.

(** A document without the fields clears the résumé: every number, string,
    boolean, array, and every object with none of the properties, loads
    without an exception as the empty résumé; only the version stays. *)
Theorem fieldless_document_clears r v :
  fieldless v ->
  safeLoadResume builtin_text capitalize_unicode surrogate_entries r v
  = (cleared (version r), None).
Proof.
  intros F. assert (N : is_null v = false) by (destruct v; [contradiction|..]; reflexivity).
  rewrite (safeLoadResume_run r v N). unfold with_texts.
  rewrite !(fieldless_own v _ F) by (apply loaded_name; reflexivity).
  destruct r; reflexivity.
Qed.

(** [loadJson] never lets an exception out, and what it does is decided by
    the document.  A text that is no JSON, the document [null], and a
    document whose version differs and does not convert to a string are
    refused with the resume in memory untouched.  Any other document goes
    through [safeLoadResume], after the warning if the version differs: when
    it loads and the storage takes the result, the new state is written and
    the page reloads; otherwise the load is refused, and the resume in memory
    stays as [safeLoadResume] left it. *)
Theorem onload_outcome parsed p :
  let p' := onload builtin_text capitalize_unicode surrogate_entries storage_accepts parsed p in
  match parsed with
  | None => refused p p' (current p) []
  | Some v =>
    let r := fst (safeLoadResume builtin_text capitalize_unicode surrogate_entries
                    (current p) v) in
    if passes_version_check v then
      if loads v && storage_accepts (resumeToSave r)
      then current p' = r /\ resumeData p' = Some (resumeToSave r) /\
           events p' = (reload :: warning v ++ events p)%list
      else refused p p' r (warning v)
    else refused p p' (current p) []
  end.
Proof.
  cbv zeta. unfold onload, refused. destruct parsed as [v|].
  2:{ exists (Error "SyntaxError"). repeat split. }
  unfold passes_version_check, warning.
  destruct (field "version" v) as [w|e] eqn:F.
  2:{ exists e. repeat split. }
  unfold versionCheck.
  pose proof (loads_spec (current p) v) as T.
  destruct (version_differs w); cbn [negb orb].
  - destruct (quotable w).
    2:{ eexists. repeat split. }
    cbn [current].
    destruct (safeLoadResume _ _ _ (current p) v) as [r [e|]] eqn:E; cbn [fst snd] in *.
    + replace (loads v) with false
        by (destruct (loads v); [destruct T as [_ T]; discriminate (T eq_refl)|reflexivity]).
      cbn [andb]. exists e. repeat split.
    + rewrite (proj1 T eq_refl). cbn [andb].
      destruct (storage_accepts (resumeToSave r)); [repeat split|].
      exists (Error "QuotaExceededError"). repeat split.
  - destruct (safeLoadResume _ _ _ (current p) v) as [r [e|]] eqn:E; cbn [fst snd] in *.
    + replace (loads v) with false
        by (destruct (loads v); [destruct T as [_ T]; discriminate (T eq_refl)|reflexivity]).
      cbn [andb]. exists e. repeat split.
    + rewrite (proj1 T eq_refl). cbn [andb].
      destruct (storage_accepts (resumeToSave r)); [repeat split|].
      exists (Error "QuotaExceededError"). repeat split.
Qed.

Lemma migrateItem_of_obj (o : obj) :
  Loader.migrateItem builtin_text capitalize_unicode surrogate_entries (Obj (of_obj o))
  = Ok (of_record (Persist.migrateItem builtin_text capitalize_unicode o)).
Proof.
  unfold Loader.migrateItem, Persist.migrateItem. cbn [entries]. f_equal.
  change {| own := []; proto := ObjectPrototype |} with (of_record []).
  assert (G : forall l acc, ~ In "__proto__" (map fst acc) ->
    fold_left (fun migrated kv =>
                 assign_property (mapKeyToProperty builtin_text capitalize_unicode (fst kv))
                                 (snd kv) migrated) (of_obj l) (of_record acc)
    = of_record (fold_left (fun migrated kv =>
                   set (mapKeyToProperty builtin_text capitalize_unicode (fst kv)) (snd kv)
                       migrated) l acc)).
  { induction l as [|[k v] tl IH]; intros acc Hp; [reflexivity|].
    cbn [of_obj map fold_left fst snd]. rewrite assign_of_record by assumption.
    apply IH. now apply set_no_proto. }
  apply G. intros [].
Qed.

Lemma migrated_set_of_records (l : option (list obj)) :
  migrated_set builtin_text capitalize_unicode surrogate_entries (option_map of_records l)
  = Ok (map of_record (map (Persist.migrateItem builtin_text capitalize_unicode) (or_empty l))).
Proof.
  destruct l as [l|]; [|reflexivity]. cbn [option_map or_empty]. unfold migrated_set, of_records.
  cbn [truthy_value]. induction l as [|o tl IH]; [reflexivity|].
  cbn [map map_result]. now rewrite migrateItem_of_obj, IH.
Qed.

Lemma of_json_fields j :
  own_field "name" (of_json j) = option_map Str (j_name j) /\
  own_field "email" (of_json j) = option_map Str (j_email j) /\
  own_field "phone" (of_json j) = option_map Str (j_phone j) /\
  own_field "additionalText" (of_json j) = option_map Str (j_additionalText j) /\
  own_field "contacts" (of_json j) = option_map of_records (j_contacts j) /\
  own_field "education" (of_json j) = option_map of_records (j_education j) /\
  own_field "experience" (of_json j) = option_map of_records (j_experience j) /\
  own_field "tags" (of_json j) = option_map (fun l => Arr (map of_tag l)) (j_tags j).
Proof.
  unfold own_field, of_json. rewrite !get_app, !get_opt_field.
  cbn [String.eqb Ascii.eqb Bool.eqb].
  repeat split;
    match goal with
    | |- _ = option_map ?f ?o => destruct o; reflexivity
    end.
Qed.

(** On a document whose fields have the types of the schema the loader does
    not throw, and it leaves the state that the typed reading of
    [safeLoadResume] computes. *)
Theorem typed_document_loads next r g j :
  shows g r ->
  exists g',
    Loader.safeLoadResume builtin_text capitalize_unicode surrogate_entries g (of_json j)
    = (g', None) /\
    shows g' (fst (Persist.safeLoadResume builtin_text capitalize_unicode
                     (snd (JSON_parse next j)) r (fst (JSON_parse next j)))).
Proof.
  intros (Hv & _). rewrite safeLoadResume_run by reflexivity. unfold with_texts.
  destruct (of_json_fields j) as (F1 & F2 & F3 & F4 & F5 & F6 & F7 & F8).
  rewrite F1, F2, F3, F4, F5, F6, F7, F8, !or_empty_text, !migrated_set_of_records.
  assert (T : tag_set (option_map (fun l => Arr (map of_tag l)) (j_tags j))
              = Ok (map of_tag (or_empty (j_tags j)))).
  { destruct (j_tags j) as [l|]; [|reflexivity]. cbn [option_map or_empty tag_set truthy_value].
    f_equal. unfold set_of. rewrite set_of_objects; [reflexivity|].
    intros x Hx. apply in_map_iff in Hx. destruct Hx as (t & <- & _). eexists; reflexivity. }
  rewrite T. eexists; split; [reflexivity|].
  assert (P : p_doc (fst (JSON_parse next j)) = j /\
              Array_from (new_Set (or_empty (p_tags (fst (JSON_parse next j)))))
              = or_empty (j_tags j)).
  { unfold JSON_parse. destruct (j_tags j) as [l|] eqn:Et; [|split; reflexivity].
    rewrite map_alloc_spec. cbn [fst p_doc p_tags or_empty]. split; [reflexivity|].
    rewrite map_id. apply allocated_set. }
  destruct P as [P1 P2]. unfold Persist.safeLoadResume. rewrite P1, !map_alloc_spec.
  unfold shows.
  cbn [fst Persist.version Persist.name Persist.email Persist.phone Persist.additionalText
       Persist.contacts Persist.education Persist.experience Persist.tags].
  rewrite !allocated_map_set, P2.
  destruct g. repeat split; try reflexivity. exact Hv.
Qed.

End LoaderFacts.

(** ** The debounced preview *)

Section Debounce.

Import Preview.

(** What [updatePreview] keeps: the timers are older than the next id, and
    at most one is pending, the one [updateTimeout] names. *)
Lemma debounce_step h v n :
  (1 <= next_timer v)%nat /\
  (pending v = [] \/ exists id, pending v = [id] /\ updateTimeout v = Some id /\
                                (1 <= id < next_timer v)%nat) /\
  (generated v + List.length (pending v) <= n)%nat ->
  let v' := happen h v in
  (1 <= next_timer v')%nat /\
  (pending v' = [] \/ exists id, pending v' = [id] /\ updateTimeout v' = Some id /\
                                 (1 <= id < next_timer v')%nat) /\
  (generated v' + List.length (pending v')
   <= n + match h with Call _ => 1 | Timeout _ => 0 end)%nat.
Proof.
  intros (N & P & G). cbv zeta. destruct h as [[|]|id]; cbn [happen].
  - unfold updatePreview, regenerate. cbn [preview_class].
    destruct (preview_class v); simpl; (split; [exact N|split; [exact P|lia]]).
  - unfold updatePreview. destruct (preview_class v);
      cbn [fst next_timer pending updateTimeout generated].
    + split; [lia|].
      assert (W : match updateTimeout v with
                  | Some id => if Nat.eqb id 0 then pending v else clearTimeout id (pending v)
                  | None => pending v
                  end = []).
      { destruct P as [->|(id & -> & -> & B)]; [now destruct (updateTimeout v) as [[|?]|]|].
        destruct (Nat.eqb_spec id 0); [lia|]. cbn. now rewrite Nat.eqb_refl. }
      rewrite W. split; [right; exists (next_timer v); repeat split; lia|].
      cbn [List.length]. destruct P as [E|(id & E & _)]; rewrite E in G; cbn in G; lia.
    + split; [exact N|split; [exact P|lia]].
  - unfold timeout. destruct (existsb (Nat.eqb id) (pending v)) eqn:X;
      [|cbn [fst]; split; [exact N|split; [exact P|lia]]].
    destruct P as [E|(id' & E & U & B)]; [rewrite E in X; discriminate X|].
    rewrite E in X. cbn in X. rewrite orb_false_r in X. apply Nat.eqb_eq in X. subst id'.
    unfold regenerate. cbn [preview_class pending updateTimeout next_timer generated].
    rewrite E. cbn [clearTimeout filter]. rewrite Nat.eqb_refl. cbn [negb].
    destruct (preview_class v); cbn [fst next_timer pending updateTimeout generated List.length];
      (split; [exact N|split; [now left|]]); rewrite E in G; cbn in G; lia.
Qed.

(** Debouncing: whatever calls are made and whatever timers run out, at most
    one regeneration is pending, the one of the latest call that was not
    immediate; and no more documents are built or pending than calls were
    made. *)
Theorem updatePreview_debounces hs class :
  let v := history hs (opening class) in
  (pending v = [] \/ exists id, pending v = [id] /\ updateTimeout v = Some id) /\
  (generated v + List.length (pending v) <= calls_in hs)%nat.
Proof.
  cbv zeta.
  assert (G : forall hs v n,
    (1 <= next_timer v)%nat /\
    (pending v = [] \/ exists id, pending v = [id] /\ updateTimeout v = Some id /\
                                  (1 <= id < next_timer v)%nat) /\
    (generated v + List.length (pending v) <= n)%nat ->
    let v' := history hs v in
    (1 <= next_timer v')%nat /\
    (pending v' = [] \/ exists id, pending v' = [id] /\ updateTimeout v' = Some id /\
                                   (1 <= id < next_timer v')%nat) /\
    (generated v' + List.length (pending v') <= n + calls_in hs)%nat).
  { clear. induction hs as [|h tl IH]; intros v n H.
    - cbn. now rewrite Nat.add_0_r.
    - cbv zeta. unfold history. cbn [fold_left].
      pose proof (debounce_step h v n H) as S. cbv zeta in S.
      specialize (IH (happen h v) _ S). cbv zeta in IH. unfold history in IH.
      destruct IH as (A & B & C). split; [exact A|split; [exact B|]].
      unfold calls_in in *. cbn [filter]. destruct h; cbn [List.length] in *; lia. }
  destruct (G hs (opening class) 0%nat) as (_ & P & C).
  - cbn. repeat split; auto.
  - split; [|exact C]. destruct P as [P|(id & P & U & _)]; [now left|right; eauto].
Qed.

End Debounce.

(** ** These properties at concrete inputs *)

Lemma property_key_round_trip_witness :
  form_prefix "experience" = true /\ plain_name "startDate" = true /\
  mapKeyToProperty (fun k => k) (fun k => k)
    (mapPropertyToKey (fun k => k) "experience" "startDate") = "startDate".
Proof.
  split; [reflexivity|]. split; [reflexivity|].
  apply property_key_round_trip; [reflexivity|reflexivity|].
  intros [H _]. discriminate H.
Defined.

Lemma key_property_round_trip_witness :
  form_prefix "experience" = true /\ word "start" = true /\
  mapPropertyToKey (fun k => k) "experience"
    (mapKeyToProperty (fun k => k) (fun k => k) "experience-start-date")
  = "experience-start-date".
Proof.
  split; [reflexivity|]. split; [reflexivity|].
  apply (proj1 (key_property_round_trip (fun k => k) (fun k => k) (fun k => k))
           "experience" "start" ["date"]); try reflexivity.
  repeat constructor.
Defined.

Lemma handleExperienceDateChange_months_witness :
  get "experience-start-date" backwards = Some (year_month 2021 6) /\
  get "experience-end-date" backwards = Some (year_month 2020 1) /\
  exists document',
    handleExperienceDateChange "experience" backwards = Ok document' /\
    get "experience-end-date" document' = Some "".
Proof.
  split; [reflexivity|]. split; [reflexivity|].
  destruct (proj1 (handleExperienceDateChange_months "experience" backwards) 2021 6 2020 1)
    as (d & E & G & _); try lia; try reflexivity.
  exists d. split; [exact E|exact G].
Defined.

Lemma bread_shows_the_set_witness :
  NoDup (map fst one_contact) /\ Forall (fun a => (a < 1)%nat) (map fst one_contact) /\
  NoDup [0%nat] /\ incl [0%nat] (map fst one_contact) /\
  let b := Bread.presses (fun k => k) (fun k => k) (fun k => k) "contact-form" None
             Bread.defaultName
             [ Bread.Save (contact_form "GitLab" "https://gitlab.com/jane"); Bread.Delete ]
             contacts_bread in
  Bread.allocated b /\ Bread.shown Bread.defaultName b.
Proof.
  assert (N : NoDup [0%nat]) by (repeat constructor; intros []).
  assert (F : Forall (fun a => (a < 1)%nat) [0%nat]) by (repeat constructor).
  assert (I : incl [0%nat] [0%nat]) by (intros x H; exact H).
  split; [exact N|]. split; [exact F|]. split; [exact N|]. split; [exact I|].
  exact (bread_shows_the_set (fun k => k) (fun k => k) (fun k => k) "contact-form" None
           Bread.defaultName
           [ Bread.Save (contact_form "GitLab" "https://gitlab.com/jane"); Bread.Delete ]
           one_contact 1%nat [0%nat] N F N I).
Defined.

Lemma contacts_bread_allocated : Bread.allocated contacts_bread.
Proof.
  repeat split; cbn.
  - repeat constructor. intros [].
  - repeat constructor.
  - repeat constructor. intros [].
  - intros x H. exact H.
Qed.

Lemma save_twice_adds_one_witness :
  Bread.allocated contacts_bread /\ Bread.currentItem contacts_bread = None /\
  Bread.dataArray
    (Bread.saveItem (fun k => k) (fun k => k) (fun k => k) "contact-form" None Bread.defaultName
       (contact_form "GitLab" "https://gitlab.com/jane")
       (Bread.saveItem (fun k => k) (fun k => k) (fun k => k) "contact-form" None
          Bread.defaultName (contact_form "GitLab" "https://gitlab.com/jane") contacts_bread))
  = [0%nat; 1%nat].
Proof.
  split; [exact contacts_bread_allocated|]. split; [reflexivity|].
  destruct (save_twice_adds_one (fun k => k) (fun k => k) (fun k => k) "contact-form" None
              Bread.defaultName (contact_form "GitLab" "https://gitlab.com/jane")
              contacts_bread contacts_bread_allocated eq_refl) as (A & B & _).
  rewrite B. exact A.
Defined.

Lemma chosen_bread_allocated : Bread.allocated chosen_bread.
Proof.
  repeat split; cbn.
  - repeat constructor. intros [].
  - repeat constructor.
  - repeat constructor. intros [].
  - intros x H. exact H.
Qed.

Lemma save_updates_in_place_witness :
  Bread.allocated chosen_bread /\ Bread.currentItem chosen_bread = Some 0%nat /\
  In 0%nat (Bread.dataArray chosen_bread) /\
  let b' := Bread.saveItem (fun k => k) (fun k => k) (fun k => k) "contact-form" None
              Bread.defaultName (contact_form "GitLab" "https://gitlab.com/jane")
              chosen_bread in
  get "name" (Bread.deref (Bread.objects b') 0%nat) = Some "GitLab" /\
  get "rank" (Bread.deref (Bread.objects b') 0%nat) = Some "1".
Proof.
  split; [exact chosen_bread_allocated|]. split; [reflexivity|]. split; [now left|].
  destruct (save_updates_in_place (fun k => k) (fun k => k) (fun k => k) "contact-form" None
              Bread.defaultName (contact_form "GitLab" "https://gitlab.com/jane")
              chosen_bread 0%nat chosen_bread_allocated eq_refl (or_introl eq_refl))
    as (_ & _ & G & _).
  split; [exact (G "name")|exact (G "rank")].
Defined.

Lemma save_then_delete_witness :
  Bread.allocated contacts_bread /\ Bread.currentItem contacts_bread = None /\
  Bread.dataArray
    (Bread.deleteItem None Bread.defaultName
       (Bread.saveItem (fun k => k) (fun k => k) (fun k => k) "contact-form" None
          Bread.defaultName (contact_form "GitLab" "https://gitlab.com/jane") contacts_bread))
  = [0%nat].
Proof.
  split; [exact contacts_bread_allocated|]. split; [reflexivity|].
  exact (proj1 (save_then_delete (fun k => k) (fun k => k) (fun k => k) "contact-form" None
                  Bread.defaultName (contact_form "GitLab" "https://gitlab.com/jane")
                  contacts_bread contacts_bread_allocated eq_refl)).
Defined.

Lemma failed_load_keeps_the_texts_witness :
  Loader.is_null bad_contacts = false /\
  Loader.list_loads (Loader.own_field "contacts" bad_contacts) = false /\
  exists e,
    Loader.safeLoadResume (fun k => k) (fun k => k) (fun _ => []) Loader.initial_resume
      bad_contacts
    = (Loader.with_texts Loader.initial_resume bad_contacts, Some e).
Proof.
  split; [reflexivity|]. split; [vm_compute; reflexivity|].
  apply failed_load_keeps_the_texts; [reflexivity|vm_compute; reflexivity].
Defined.

Lemma fieldless_document_clears_witness :
  Loader.fieldless (Loader.Str "abc") /\
  Loader.safeLoadResume (fun k => k) (fun k => k) (fun _ => []) Loader.initial_resume
    (Loader.Str "abc")
  = (Loader.cleared (Loader.Str APP_VERSION), None).
Proof.
  split; [exact I|].
  exact (fieldless_document_clears (fun k => k) (fun k => k) (fun _ => [])
           Loader.initial_resume (Loader.Str "abc") I).
Defined.

Lemma initial_states_agree : Loader.shows Loader.initial_resume Persist.initial_resume.
Proof. repeat split. Qed.

Lemma typed_document_loads_witness :
  Loader.shows Loader.initial_resume Persist.initial_resume /\
  exists g',
    Loader.safeLoadResume (fun k => k) (fun k => k) (fun _ => []) Loader.initial_resume
      (Loader.of_json old_document) = (g', None) /\
    Loader.name g' = Loader.Str "Jane Doe".
Proof.
  split; [exact initial_states_agree|].
  destruct (typed_document_loads (fun k => k) (fun k => k) (fun _ => []) 0%nat
              Persist.initial_resume Loader.initial_resume old_document initial_states_agree)
    as (g' & E & S).
  exists g'. split; [exact E|].
  destruct S as (_ & S & _). cbn in S. destruct (Loader.name g'); try discriminate S.
  now injection S as <-.
Defined.

Lemma education_records_stay_on_the_page_witness :
  gtb (y section_state) (int 280) = false /\
  exists s' new,
    forEach [ a_degree; a_degree ]
      (fun edu _ => educationEntry a4_width utc no_legacy a_clock edu) section_state
    = Ok (tt, s') /\
    calls s' = (new ++ calls section_state)%list /\
    Forall on_page new /\ gtb (y s') (int 280) = false.
Proof.
  split; [vm_compute; reflexivity|].
  apply education_records_stay_on_the_page. vm_compute. reflexivity.
Defined.

Lemma experience_headings_stay_on_the_page_witness :
  gtb (y section_state) (int 280) = false /\
  exists s' new,
    forEach [ ten_lines_entry; untitled_link ]
      (fun exp _ => experienceEntry a4_width fixed_pitch no_wrap utc exp) section_state
    = Ok (tt, s') /\
    calls s' = (new ++ calls section_state)%list /\
    Forall heading_on_page new /\ gtb (y s') (int 280) = false.
Proof.
  split; [vm_compute; reflexivity|].
  apply experience_headings_stay_on_the_page. vm_compute. reflexivity.
Defined.

